(** * ChemEqBalancer: a chemical equation balancer

    A shallow embedding of [ChemEqBalancer.py] and the properties of its
    formula counter, equation parser and balancer.

    Modelling conventions.
    - A Python [str] is a [string]: the bytes of its UTF-8 encoding.  The
      character classes ([isupper], [islower], [isdigit], [isalpha],
      [isspace]) are those of the ASCII range; a byte above 127 belongs to
      none of them, which is what Python answers for the two characters
      outside ASCII that the program names, the middle dot and the arrow.
      Texts whose other characters outside ASCII are letters, digits or white
      space are outside the model: there Python's classes answer otherwise,
      and [int] raises on a digit such as a subscript two.  [plain_text]
      tells the texts within the model.
    - A [dict], [defaultdict(int)] or [OrderedDict] is an association list in
      insertion order, without repeated keys.
    - An exception is a value of [exn]; code that may raise returns a
      [result].
    - A [while] loop over an index is a recursion over the text that is left,
      with a bound on the number of iterations that the text's length
      provides.
    - sympy's rationals are [Q] in lowest terms ([Qred]); sympy's
      [Matrix.nullspace] is modelled from the library: the basis read off the
      reduced row echelon form, one vector per free column.
    - sympy's [nsimplify] is modelled as exact, which it is on the integers
      and on the fractions that its search on fifteen digits finds again; on
      a fraction of long numerator and denominator sympy may return a
      simpler number nearby.  A property that needs the exact value says so
      in a hypothesis.
    - [str] of an integer is its decimal text; CPython refuses, since 3.11,
      an integer of more than 4300 digits, and a property on the handler of
      [get_balanced_chem_eq] bounds the coefficients by a hypothesis. *)

From Stdlib Require Import String Ascii List ZArith QArith Qabs Bool Arith Lia.
From Stdlib Require Import DecimalString.
From Stdlib Require Qcanon.
Import ListNotations.

Local Open Scope string_scope.
Local Open Scope list_scope.

(** ** Exceptions *)

Inductive exn : Type :=
| IndexError
    (* string or list index out of range *)
| KeyError (key : string)
| InvalidFormula (formula suggested : string)
    (* ValueError: Invalid formula '<formula>'. Did you mean '<suggested>'? *)
| InvalidEquation
    (* ValueError: Invalid chemical equation. Use ... to separate reactants and products *)
| NeedParse.
    (* ValueError: Need to parse the chemical equation. Call equation_parser() first *)

Inductive result (A : Type) : Type :=
| Ok (a : A)
| Raise (e : exn).

Arguments Ok {A} a.
Arguments Raise {A} e.

Definition bind {A B : Type} (r : result A) (k : A -> result B) : result B :=
  match r with
  | Ok a => k a
  | Raise e => Raise e
  end.

Notation "x <- r ;; k" := (bind r (fun x => k))
  (at level 61, r at next level, right associativity).
Notation "r ;;; k" := (bind r (fun _ => k))
  (at level 61, right associativity).

(** ** Characters and strings, as Python's [str] methods see them *)

Definition code (c : ascii) : nat := nat_of_ascii c.

Definition isupper (c : ascii) : bool := (65 <=? code c)%nat && (code c <=? 90)%nat.
Definition islower (c : ascii) : bool := (97 <=? code c)%nat && (code c <=? 122)%nat.
Definition isalpha (c : ascii) : bool := isupper c || islower c.
Definition isdigit (c : ascii) : bool := (48 <=? code c)%nat && (code c <=? 57)%nat.
Definition isspace (c : ascii) : bool :=
  ((9 <=? code c)%nat && (code c <=? 13)%nat) || ((28 <=? code c)%nat && (code c <=? 32)%nat).

(** [int(c)] for a digit [c] of the ASCII range. *)
Definition int_of_digit (c : ascii) : Z := Z.of_nat (code c - 48).

(** [any(p(c) for c in s)]. *)
Fixpoint any (p : ascii -> bool) (s : string) : bool :=
  match s with
  | EmptyString => false
  | String c s' => p c || any p s'
  end.

(** [s[-1]]. *)
Fixpoint last_char (s : string) : option ascii :=
  match s with
  | EmptyString => None
  | String c EmptyString => Some c
  | String _ s' => last_char s'
  end.

(** [s[:-1]]. *)
Fixpoint but_last (s : string) : string :=
  match s with
  | EmptyString => EmptyString
  | String _ EmptyString => EmptyString
  | String c s' => String c (but_last s')
  end.

(** [s[n:]]. *)
Fixpoint drop (n : nat) (s : string) : string :=
  match n, s with
  | O, _ => s
  | S _, EmptyString => EmptyString
  | S n', String _ s' => drop n' s'
  end.

(** [s.startswith(p)]. *)
Fixpoint startswith (p s : string) : bool :=
  match p, s with
  | EmptyString, _ => true
  | String _ _, EmptyString => false
  | String a p', String b s' => Ascii.eqb a b && startswith p' s'
  end.

(** [sep in s]. *)
Fixpoint contains (sep s : string) : bool :=
  startswith sep s ||
  match s with
  | EmptyString => false
  | String _ s' => contains sep s'
  end.

(** [s.replace(a, b)] for one-character [a] and [b]. *)
Fixpoint replace (a b : ascii) (s : string) : string :=
  match s with
  | EmptyString => EmptyString
  | String c s' => String (if Ascii.eqb c a then b else c) (replace a b s')
  end.

(** [s.split(sep)] for a non-empty [sep]: the fields between the successive
    occurrences of [sep], found from the left.  [field] is the part of the
    current field already read. *)
Fixpoint split_from (fuel : nat) (sep s field : string) : list string :=
  match fuel with
  | O => [(field ++ s)%string]
  | S fuel' =>
      match s with
      | EmptyString => [field]
      | String c s' =>
          if startswith sep s
          then field :: split_from fuel' sep (drop (String.length sep) s) EmptyString
          else split_from fuel' sep s' (field ++ String c EmptyString)%string
      end
  end.

Definition split (sep s : string) : list string :=
  split_from (String.length s) sep s EmptyString.

Fixpoint lstrip (s : string) : string :=
  match s with
  | EmptyString => EmptyString
  | String c s' => if isspace c then lstrip s' else s
  end.

Fixpoint rstrip (s : string) : string :=
  match s with
  | EmptyString => EmptyString
  | String c s' =>
      match rstrip s' with
      | EmptyString => if isspace c then EmptyString else String c EmptyString
      | r => String c r
      end
  end.

(** [s.strip()]. *)
Definition strip (s : string) : string := rstrip (lstrip s).

(** The maximal run of characters satisfying [p] at the head of [s], and
    what follows it: [while i < n and p(s[i]): i += 1]. *)
Fixpoint span (p : ascii -> bool) (s : string) : string * string :=
  match s with
  | EmptyString => (EmptyString, EmptyString)
  | String c s' =>
      if p c
      then let (run, rest) := span p s' in (String c run, rest)
      else (EmptyString, s)
  end.

(** [while i < n and s[i].isdigit(): acc = acc * 10 + int(s[i]); i += 1]. *)
Fixpoint read_number (acc : Z) (s : string) : Z * string :=
  match s with
  | EmptyString => (acc, EmptyString)
  | String c s' =>
      if isdigit c
      then read_number (acc * 10 + int_of_digit c) s'
      else (acc, s)
  end.

(** ** Dictionaries *)

Definition dict (V : Type) : Type := list (string * V).

(** [d.get(k)]. *)
Fixpoint lookup {V : Type} (k : string) (d : dict V) : option V :=
  match d with
  | [] => None
  | (k', v) :: d' => if String.eqb k' k then Some v else lookup k d'
  end.

(** [d[k] = v]: a present key keeps its place. *)
Fixpoint setitem {V : Type} (d : dict V) (k : string) (v : V) : dict V :=
  match d with
  | [] => [(k, v)]
  | (k', v') :: d' =>
      if String.eqb k' k then (k', v) :: d' else (k', v') :: setitem d' k v
  end.

Definition keys {V : Type} (d : dict V) : list string := map fst d.

(** An element count: [defaultdict(int)]. *)
Definition counts : Type := dict Z.

(** [d[k] += v] on a [defaultdict(int)]. *)
Fixpoint add_count (d : counts) (k : string) (v : Z) : counts :=
  match d with
  | [] => [(k, 0 + v)%Z]
  | (k', v') :: d' =>
      if String.eqb k' k then (k', (v' + v)%Z) :: d' else (k', v') :: add_count d' k v
  end.

(** [for element, count in src.items(): dst[element] += count * multiplier]. *)
Definition merge_scaled (dst src : counts) (multiplier : Z) : counts :=
  fold_left (fun acc kv => add_count acc (fst kv) (snd kv * multiplier)%Z) src dst.

(** [for element, count in src.items(): dst[element] += count]. *)
Definition merge (dst src : counts) : counts :=
  fold_left (fun acc kv => add_count acc (fst kv) (snd kv)) src dst.

(** ** The formula counter *)

(** The loop of [validate_formula] that collects the element symbols. *)
Fixpoint collect_elements (fuel : nat) (s : string) (elements : list string) : list string :=
  match fuel with
  | O => elements
  | S fuel' =>
      match s with
      | EmptyString => elements
      | String c s' =>
          if isupper c
          then let (lows, rest) := span islower s' in
               collect_elements fuel' rest (elements ++ [String c lows])
          else collect_elements fuel' s' elements
      end
  end.

Definition common_errors : list (ascii * ascii) := [("0"%char, "O"%char); ("1"%char, "I"%char)].

(** [for common_error in [...]: if common_error[0] in formula: suggested = suggested.replace(...)]. *)
Definition suggest (formula : string) : string :=
  fold_left
    (fun suggested ce =>
       if contains (String (fst ce) EmptyString) formula
       then replace (fst ce) (snd ce) suggested
       else suggested)
    common_errors formula.

Definition validate_formula (formula : string) : result unit :=
  match last_char formula with
  | None => Raise IndexError
  | Some last =>
      if isdigit last && any isalpha (but_last formula) then
        let elements := collect_elements (String.length formula) formula [] in
        match elements with
        | _ :: _ =>
            if isdigit last then
              let suggested := suggest formula in
              if negb (String.eqb suggested formula)
              then Raise (InvalidFormula formula suggested)
              else Ok tt
            else Ok tt
        | [] => Ok tt
        end
      else Ok tt
  end.

(** The middle dot that joins the parts of a hydrate (U+00B7). *)
Definition middle_dot : string := "·".

(** The main loop of [atom_count_in_formula].  [stack] has its top first. *)
Fixpoint scan (fuel : nat) (s : string) (stack : list counts) (current_element : counts)
  : counts :=
  match fuel with
  | O => current_element
  | S fuel' =>
      match s with
      | EmptyString => current_element
      | String c s' =>
          if Ascii.eqb c "("%char then
            scan fuel' s' (current_element :: stack) []
          else if Ascii.eqb c ")"%char then
            let (m, rest) := read_number 0 s' in
            let multiplier := if (m =? 0)%Z then 1%Z else m in
            match stack with
            | top :: below =>
                scan fuel' rest below (merge_scaled top current_element multiplier)
            | [] => scan fuel' rest [] current_element
            end
          else if isupper c then
            let (lows, rest) := span islower s' in
            let element := String c lows in
            let (count_num, rest') := read_number 0 rest in
            scan fuel' rest' stack
              (add_count current_element element
                 (if (count_num =? 0)%Z then 1%Z else count_num))
          else scan fuel' s' stack current_element
      end
  end.

(** [for part in parts: part_counts = count(part); for element, count in
    part_counts.items(): counts[element] += count]. *)
Fixpoint sum_parts (count : string -> result counts) (parts : list string) (acc : counts)
  : result counts :=
  match parts with
  | [] => Ok acc
  | part :: parts' =>
      part_counts <- count part ;;
      sum_parts count parts' (merge acc part_counts)
  end.

(** [atom_count_in_formula], with a bound [depth] on the nesting of its
    recursive calls; one level is all a formula needs, see
    [atom_count_depth]. *)
Fixpoint atom_count_rec (depth : nat) (formula : string) : result counts :=
  validate_formula formula ;;;
  if contains middle_dot formula then
    match depth with
    | O => Ok []
    | S depth' => sum_parts (atom_count_rec depth') (split middle_dot formula) []
    end
  else Ok (scan (String.length formula) formula [] []).

Definition atom_count_in_formula (formula : string) : result counts :=
  atom_count_rec 1 formula.

(** ** The equation parser *)

(** The alternation [(?:->|→|=)] at the head of [s]: what follows the
    separator found there. *)
Definition match_separator (s : string) : option string :=
  if startswith "->" s then Some (drop (String.length "->") s)
  else if startswith "→" s then Some (drop (String.length "→") s)
  else if startswith "=" s then Some (drop (String.length "=") s)
  else None.

(** The pattern [\s*(?:->|→|=)\s*] at the head of [s]: what follows the
    match.  No separator begins with white space, so the first [\s*] takes
    the whole run of white space or the match fails. *)
Definition match_pattern (s : string) : option string :=
  match match_separator (lstrip s) with
  | Some rest => Some (lstrip rest)
  | None => None
  end.

(** [re.split(pattern, s)]: the fields between the successive matches, each
    match the leftmost one in what is left. *)
Fixpoint re_split_from (fuel : nat) (s field : string) : list string :=
  match fuel with
  | O => [(field ++ s)%string]
  | S fuel' =>
      match match_pattern s with
      | Some rest => field :: re_split_from fuel' rest EmptyString
      | None =>
          match s with
          | EmptyString => [field]
          | String c s' => re_split_from fuel' s' (field ++ String c EmptyString)%string
          end
      end
  end.

Definition re_split (s : string) : list string :=
  re_split_from (String.length s) s EmptyString.

Record ChemEqParser : Type := {
  reactants : list string;
  products : list string;
  chem_species : list string;
  chem_species_counts : list counts;
  all_elements : dict unit;
  parsed_chem_eq : dict (dict Z)
}.

(** [__init__]. *)
Definition new_parser : ChemEqParser :=
  {| reactants := []; products := []; chem_species := []; chem_species_counts := [];
     all_elements := []; parsed_chem_eq := [] |}.

(** [for element in counts.keys(): if element not in all_elements:
    all_elements[element] = None]. *)
Definition note_elements (all : dict unit) (cs : counts) : dict unit :=
  fold_left
    (fun all element =>
       match lookup element all with
       | None => setitem all element tt
       | Some _ => all
       end)
    (keys cs) all.

(** The loop of [_get_atom_count]. *)
Fixpoint count_species (species : list string) (species_counts : list counts)
  (all : dict unit) : result (list counts * dict unit) :=
  match species with
  | [] => Ok (species_counts, all)
  | sp :: species' =>
      cs <- atom_count_in_formula sp ;;
      count_species species' (species_counts ++ [cs]) (note_elements all cs)
  end.

Definition _get_atom_count (self : ChemEqParser) : result ChemEqParser :=
  r <- count_species (chem_species self) [] [] ;;
  Ok {| reactants := reactants self; products := products self;
        chem_species := chem_species self;
        chem_species_counts := fst r; all_elements := snd r;
        parsed_chem_eq := parsed_chem_eq self |}.

(** [enumerate(l)]. *)
Definition enumerate {A : Type} (l : list A) : list (nat * A) :=
  combine (seq 0 (List.length l)) l.

(** The inner loop of [_get_species_dicts]. *)
Definition species_dict (all : dict unit) (cs : counts) (i num_reactants : nat) : dict Z :=
  fold_left
    (fun d element =>
       let count := match lookup element cs with Some n => n | None => 0%Z end in
       let count := if (num_reactants <=? i)%nat then (count * -1)%Z else count in
       setitem d element count)
    (keys all) [].

(** The outer loop of [_get_species_dicts]. *)
Fixpoint species_dicts (indexed : list (nat * string)) (species_counts : list counts)
  (all : dict unit) (num_reactants : nat) (parsed : dict (dict Z))
  : result (dict (dict Z)) :=
  match indexed with
  | [] => Ok parsed
  | (i, species) :: indexed' =>
      match nth_error species_counts i with
      | None => Raise IndexError
      | Some cs =>
          species_dicts indexed' species_counts all num_reactants
            (setitem parsed species (species_dict all cs i num_reactants))
      end
  end.

Definition _get_species_dicts (self : ChemEqParser) : result ChemEqParser :=
  parsed <- species_dicts (enumerate (chem_species self)) (chem_species_counts self)
              (all_elements self) (List.length (reactants self)) [] ;;
  Ok {| reactants := reactants self; products := products self;
        chem_species := chem_species self;
        chem_species_counts := chem_species_counts self;
        all_elements := all_elements self;
        parsed_chem_eq := parsed |}.

(** [equation_parser]: the parser after the call, whose [parsed_chem_eq] is
    what the method returns. *)
Definition equation_parser (self : ChemEqParser) (equation : string) : result ChemEqParser :=
  match re_split (strip equation) with
  | [lhs; rhs] =>
      let rs := map strip (split "+" lhs) in
      let ps := map strip (split "+" rhs) in
      let self := {| reactants := rs; products := ps; chem_species := rs ++ ps;
                     chem_species_counts := chem_species_counts self;
                     all_elements := all_elements self;
                     parsed_chem_eq := parsed_chem_eq self |} in
      self <- _get_atom_count self ;;
      _get_species_dicts self
  | _ => Raise InvalidEquation
  end.

Record matrix_data : Type := {
  matrix : list (list Z);
  elements : list string;
  species : list string
}.

(** [row.append(self.parsed_chem_eq[species].get(element, 0))] for every species. *)
Fixpoint matrix_row (parsed : dict (dict Z)) (element : string) (species : list string)
  : result (list Z) :=
  match species with
  | [] => Ok []
  | sp :: species' =>
      match lookup sp parsed with
      | None => Raise (KeyError sp)
      | Some d =>
          row <- matrix_row parsed element species' ;;
          Ok (match lookup element d with Some n => n | None => 0%Z end :: row)
      end
  end.

Fixpoint matrix_rows (parsed : dict (dict Z)) (elements species : list string)
  : result (list (list Z)) :=
  match elements with
  | [] => Ok []
  | element :: elements' =>
      row <- matrix_row parsed element species ;;
      rows <- matrix_rows parsed elements' species ;;
      Ok (row :: rows)
  end.

Definition get_matrix (self : ChemEqParser) : result matrix_data :=
  match parsed_chem_eq self with
  | [] => Raise NeedParse
  | _ :: _ =>
      let elements := keys (all_elements self) in
      m <- matrix_rows (parsed_chem_eq self) elements (chem_species self) ;;
      Ok {| matrix := m; elements := elements; species := chem_species self |}
  end.

(** ** Exact linear algebra: sympy's [Matrix], [rref] and [nullspace] *)

Definition row : Type := list Q.

(** [Matrix(rows)]: the entries as rationals; a matrix has as many columns
    as its first row, and none when it has no row. *)
Definition Matrix (m : list (list Z)) : list row := map (map inject_Z) m.

Definition cols (A : list row) : nat :=
  match A with
  | [] => O
  | r :: _ => List.length r
  end.

Definition entry (r : row) (j : nat) : Q := nth j r 0%Q.

Definition is_zero (x : Q) : bool := Qeq_bool x 0.

(** The first of the rows [todo] with a non-zero entry in column [j], with
    the rows before it and after it. *)
Fixpoint take_pivot (j : nat) (todo : list row) : option (list row * row * list row) :=
  match todo with
  | [] => None
  | r :: todo' =>
      if is_zero (entry r j) then
        match take_pivot j todo' with
        | Some (before, p, after) => Some (r :: before, p, after)
        | None => None
        end
      else Some ([], r, todo')
  end.

(** The row divided by its pivot. *)
Definition scale (p : Q) (r : row) : row := map (fun x => Qred (x / p)) r.

(** The row [r] minus the multiple of the pivot row that clears column [j]. *)
Definition eliminate (j : nat) (prow r : row) : row :=
  map (fun xy => Qred (fst xy - entry r j * snd xy)) (combine r prow).

(** Gauss-Jordan elimination, column by column: [done] are the pivot rows
    found so far, in order, and [todo] the rows without a pivot yet.  The
    reduced row echelon form of a matrix is unique, so the choice of the
    pivot row among the candidates does not show in the result. *)
Fixpoint rref_from (columns : list nat) (done todo : list row) (pivots : list nat)
  : list row * list nat :=
  match columns with
  | [] => (done ++ todo, pivots)
  | j :: columns' =>
      match take_pivot j todo with
      | None => rref_from columns' done todo pivots
      | Some (before, p, after) =>
          let p' := scale (entry p j) p in
          rref_from columns'
            (map (eliminate j p') done ++ [p'])
            (map (eliminate j p') (before ++ after))
            (pivots ++ [j])
      end
  end.

(** [A.rref()]: the reduced matrix and the pivot columns. *)
Definition rref (A : list row) : list row * list nat :=
  rref_from (seq 0 (cols A)) [] A [].

(** [l[i] = v]. *)
Fixpoint update {A : Type} (l : list A) (i : nat) (v : A) : list A :=
  match l, i with
  | [], _ => []
  | _ :: l', O => v :: l'
  | x :: l', S i' => x :: update l' i' v
  end.

(** One basis vector: the free variable set to one, the others to zero, and
    the pivot variables solved for:
    [for piv_row, piv_col in enumerate(pivots): vec[piv_col] -= reduced[piv_row, free_var]]. *)
Definition basis_vector (reduced : list row) (pivots : list nat) (n free_var : nat) : list Q :=
  fold_left
    (fun vec pc =>
       update vec (snd pc)
         (Qred (entry vec (snd pc) - entry (nth (fst pc) reduced []) free_var)))
    (enumerate pivots)
    (update (repeat 0%Q n) free_var 1%Q).

(** [A.nullspace()]. *)
Definition nullspace (A : list row) : list (list Q) :=
  let (reduced, pivots) := rref A in
  let free_vars :=
    filter (fun i => negb (existsb (Nat.eqb i) pivots)) (seq 0 (cols A)) in
  map (basis_vector reduced pivots (cols A)) free_vars.

(** ** The balancer *)

(** [nsimplify(elem)] on a rational that sympy finds again as it is: an
    integer, or a fraction within reach of its search on fifteen digits. *)
Definition nsimplify (x : Q) : Q := Qred x.

(** The denominator of [elem.as_numer_denom()]. *)
Definition denom (x : Q) : Z := Zpos (Qden (Qred x)).

(** [lcm] of a list of integers. *)
Definition lcm (l : list Z) : Z := fold_right Z.lcm 1%Z l.

Definition is_integer (x : Q) : bool := Pos.eqb (Qden (Qred x)) 1.
Definition is_positive (x : Q) : bool := (0 <? Qnum x)%Z.
Definition is_negative (x : Q) : bool := (Qnum x <? 0)%Z.

(** [int(coeff)]. *)
Definition int (x : Q) : Z := Z.quot (Qnum x) (Zpos (Qden x)).

(** The choice of [final_coeffs] from [raw_coeffs]. *)
Definition final_coefficients (raw_coeffs : list Q) : option (list Z) :=
  if forallb (fun coeff => is_integer coeff && is_positive coeff) raw_coeffs then
    Some (map int raw_coeffs)
  else if existsb is_negative raw_coeffs then
    let abs_coeffs := map Qabs raw_coeffs in
    if forallb (fun coeff => is_integer coeff && is_positive coeff) abs_coeffs then
      Some (map int abs_coeffs)
    else None
  else None.

(** What [get_stoic] returns: the coefficients, or with [show_work] the
    tuple of the coefficients and the intermediate values. *)
Inductive stoic : Type :=
| Coefficients (final_coeffs : option (list Z))
| Work (final_coeffs : option (list Z)) (data : option matrix_data)
       (vec simplified_vec : option (list Q)) (multiplier : option Z)
       (raw_coeffs : option (list Q)).

(** [try: body except Exception as e: handler]. *)
Definition try_except {A : Type} (body : result A) (handler : exn -> result A) : result A :=
  match body with
  | Ok a => Ok a
  | Raise e => handler e
  end.

(** The body of the [try] of [get_stoic]. *)
Definition get_stoic_body (equation : string) (show_work : bool) : result stoic :=
  parser <- equation_parser new_parser equation ;;
  data <- get_matrix parser ;;
  let A := Matrix (matrix data) in
  match nullspace A with
  | [] =>
      if show_work then Ok (Work None (Some data) None None None None)
      else Ok (Coefficients None)
  | vec :: _ =>
      let simplified_vec := map nsimplify vec in
      let denominators := map denom simplified_vec in
      let multiplier := match denominators with [] => 1%Z | _ => lcm denominators end in
      let raw_coeffs := map (fun elem => Qred (elem * inject_Z multiplier)) simplified_vec in
      let final_coeffs := final_coefficients raw_coeffs in
      if show_work
      then Ok (Work final_coeffs (Some data) (Some vec) (Some simplified_vec)
                 (Some multiplier) (Some raw_coeffs))
      else Ok (Coefficients final_coeffs)
  end.

Definition get_stoic (equation : string) (show_work : bool) : result stoic :=
  try_except (get_stoic_body equation show_work)
    (fun _ =>
       if show_work then Ok (Work None None None None None None)
       else Ok (Coefficients None)).

(** [final_coeffs] in what [get_stoic] returns. *)
Definition final_coeffs_of (r : stoic) : option (list Z) :=
  match r with
  | Coefficients final_coeffs => final_coeffs
  | Work final_coeffs _ _ _ _ _ => final_coeffs
  end.

(** [matrix_data] in what [get_stoic] returns with [show_work]. *)
Definition matrix_data_of (r : stoic) : option matrix_data :=
  match r with
  | Coefficients _ => None
  | Work _ data _ _ _ _ => data
  end.

(** ** The balanced equation as text: [get_balanced_chem_eq] *)

(** [str(n)] for an integer of no more digits than the interpreter
    converts, 4300 by default. *)
Definition str (n : Z) : string := NilZero.string_of_int (Z.to_int n).

(** [sep.join(l)]. *)
Fixpoint join (sep : string) (l : list string) : string :=
  match l with
  | [] => EmptyString
  | [x] => x
  | x :: l' => (x ++ sep ++ join sep l')%string
  end.

(** The formatted species: the coefficient, left out when it is 1, and the
    formula, stripped. *)
Definition format_species (coeff : Z) (spec : string) : string :=
  strip ((if (coeff =? 1)%Z then EmptyString else str coeff) ++ spec)%string.

(** The separator the balanced equation is written with. *)
Definition pick_arrow (equation : string) : string :=
  if contains "=" equation then "="
  else if contains "→" equation then "→"
  else "->".

(** The loop of [get_balanced_chem_eq] over [enumerate(zip(coeffs, species))]. *)
Fixpoint place (indexed : list (nat * (Z * string))) (num_reactants : nat)
  (reactants products : list string) : list string * list string :=
  match indexed with
  | [] => (reactants, products)
  | (i, (coeff, spec)) :: rest =>
      let formatted_spec := format_species coeff spec in
      if (i <? num_reactants)%nat
      then place rest num_reactants (reactants ++ [formatted_spec]) products
      else place rest num_reactants reactants (products ++ [formatted_spec])
  end.

(** The body of the [try] of [get_balanced_chem_eq]. *)
Definition get_balanced_chem_eq_body (equation : string) : result (option string) :=
  r <- get_stoic equation false ;;
  match final_coeffs_of r with
  | None => Ok None
  | Some coeffs =>
      parser <- equation_parser new_parser equation ;;
      let species := chem_species parser in
      let arrow := pick_arrow equation in
      match split arrow equation with
      | [] => Raise IndexError
      | part :: _ =>
          let num_reactants := List.length (split "+" part) in
          let (reactants, products) :=
            place (enumerate (combine coeffs species)) num_reactants [] [] in
          Ok (Some (join " + " reactants ++ " " ++ arrow ++ " "
                      ++ join " + " products)%string)
      end
  end.

(** The exceptions that are a [ValueError]. *)
Definition is_ValueError (e : exn) : bool :=
  match e with
  | InvalidFormula _ _ | InvalidEquation | NeedParse => true
  | IndexError | KeyError _ => false
  end.

(** A line the handler of [get_balanced_chem_eq] prints: [Input error: e]. *)
Inductive printed : Type :=
| InputError (e : exn).

(** [get_balanced_chem_eq]: what its handler printed and what it returned;
    an exception that is no [ValueError] leaves it. *)
Definition get_balanced_chem_eq (equation : string) : result (list printed * option string) :=
  match get_balanced_chem_eq_body equation with
  | Ok balanced_eq => Ok ([], balanced_eq)
  | Raise e => if is_ValueError e then Ok ([InputError e], None) else Raise e
  end.

(** ** Notions the properties are stated with *)

(** The atoms of one element over the whole equation: the sum over the
    species of the signed count times the coefficient. *)
Fixpoint weighted_sum (signed_counts coefficients : list Z) : Z :=
  match signed_counts, coefficients with
  | a :: signed_counts', x :: coefficients' => a * x + weighted_sum signed_counts' coefficients'
  | _, _ => 0
  end.

(** The greatest common divisor of a list of integers. *)
Definition gcd_list (l : list Z) : Z := fold_right Z.gcd 0%Z l.

(** The formulas the pre-validation takes for a slip of the keyboard. *)
Definition suspicious (formula : string) : Prop :=
  exists last,
    last_char formula = Some last /\ isdigit last = true /\
    any isalpha (but_last formula) = true /\
    any isupper formula = true /\
    (contains "0" formula = true \/ contains "1" formula = true).

(** The formulas [validate_formula] raises on. *)
Definition rejected (formula : string) : Prop :=
  formula = EmptyString \/ suspicious formula.

(** The number of places of [s] where a separator begins. *)
Fixpoint count_separators (s : string) : nat :=
  match s with
  | EmptyString => O
  | String _ s' =>
      (if startswith "->" s || startswith "→" s || startswith "=" s then 1 else 0)
      + count_separators s'
  end.

(** [sep] begins at one of the first [n] places of [s]. *)
Fixpoint begins_within (n : nat) (sep s : string) : bool :=
  match n, s with
  | S n', String _ s' => startswith sep s || begins_within n' sep s'
  | _, _ => false
  end.

(** [all(p(c) for c in s)]. *)
Fixpoint every (p : ascii -> bool) (s : string) : bool :=
  match s with
  | EmptyString => true
  | String c s' => p c && every p s'
  end.

(** An element symbol as the scanner reads one: an uppercase letter and
    the lowercase letters that follow it. *)
Definition is_symbol (k : string) : bool :=
  match k with
  | EmptyString => false
  | String c lows => isupper c && every islower lows
  end.

(** An element count as the scanner builds them: no symbol twice, every key
    a symbol, every count at least one. *)
Definition well_formed (d : counts) : Prop :=
  NoDup (keys d) /\
  Forall (fun kv => is_symbol (fst kv) = true /\ (1 <= snd kv)%Z) d.

(** [counts.get(element, 0)]. *)
Definition get_count (cs : dict Z) (element : string) : Z :=
  match lookup element cs with
  | Some n => n
  | None => 0%Z
  end.

(** The atoms of [element] in the formula [sp], as the formula counter
    counts them. *)
Definition atoms (sp element : string) : Z :=
  match atom_count_in_formula sp with
  | Ok cs => get_count cs element
  | Raise _ => 0%Z
  end.

(** The entry of the matrix for [element] and the species [sp]: the atoms,
    negated when the text of [sp] is one of the products. *)
Definition signed_atoms (products : list string) (sp element : string) : Z :=
  if existsb (String.eqb sp) products
  then (atoms sp element * -1)%Z
  else atoms sp element.

(** The product of a row of the matrix with a vector. *)
Fixpoint Qdot (r v : list Q) : Q :=
  match r, v with
  | a :: r', x :: v' => a * x + Qdot r' v'
  | _, _ => 0
  end.

(** The pivot rows of an elimination under way: one row per pivot column,
    with a one in its own pivot column and a zero in the others. *)
Definition pivot_rows (done : list row) (pivots : list nat) : Prop :=
  List.length done = List.length pivots /\
  NoDup pivots /\
  forall d pc, In (d, pc) (combine done pivots) ->
    entry d pc == 1 /\
    forall pc', In pc' pivots -> pc' <> pc -> entry d pc' == 0.

(** The rows [todo] are zero in the columns [seen]. *)
Definition cleared (todo : list row) (seen : list nat) : Prop :=
  forall t s, In t todo -> In s seen -> entry t s == 0.

(** The step of [basis_vector] for the pivot row [d] of the pivot column
    [pc], the free variable being [free_var]. *)
Definition solve_pivot (free_var : nat) (vec : list Q) (dp : row * nat) : list Q :=
  update vec (snd dp) (Qred (entry vec (snd dp) - entry (fst dp) free_var)).

(** A separator begins at the head of [s]. *)
Definition token_here (s : string) : bool :=
  startswith "->" s || startswith "→" s || startswith "=" s.

(** The number of [+] in [s]. *)
Fixpoint count_plus (s : string) : nat :=
  match s with
  | EmptyString => O
  | String c s' => ((if Ascii.eqb c "+" then 1 else 0) + count_plus s')%nat
  end.

(** The number of [+] before the first occurrence of [a] in [s]. *)
Fixpoint plus_before (a s : string) : nat :=
  match s with
  | EmptyString => O
  | String c s' =>
      if startswith a s then O
      else ((if Ascii.eqb c "+" then 1 else 0) + plus_before a s')%nat
  end.

(** The number of [+] before the first separator of [s]. *)
Fixpoint plus_before_token (s : string) : nat :=
  match s with
  | EmptyString => O
  | String c s' =>
      if token_here s then O
      else ((if Ascii.eqb c "+" then 1 else 0) + plus_before_token s')%nat
  end.

(** A species with its coefficient, as [get_balanced_chem_eq] writes it. *)
Definition formatted (cs : Z * string) : string := format_species (fst cs) (snd cs).

(** A formula without parentheses. *)
Definition flat (s : string) : bool :=
  every (fun c => negb (Ascii.eqb c "(") && negb (Ascii.eqb c ")")) s.

(** The multiplier the scanner reads in the digits [digits]: their number,
    or one when they are none or zero. *)
Definition multiplier_of (digits : string) : Z :=
  let m := fst (read_number 0 digits) in
  if (m =? 0)%Z then 1%Z else m.

(** The groups left open when the scanner has read [s], having begun with
    [n] of them open: an opening parenthesis opens one, a closing one
    closes the innermost, if there is any. *)
Fixpoint open_groups (s : string) (n : nat) : nat :=
  match s with
  | EmptyString => n
  | String c s' =>
      if Ascii.eqb c "(" then open_groups s' (S n)
      else if Ascii.eqb c ")" then open_groups s' (Nat.pred n)
      else open_groups s' n
  end.

(** [s] cannot continue a symbol or a number: it does not begin with a
    lowercase letter or a digit. *)
Definition begins_afresh (s : string) : bool :=
  match s with
  | EmptyString => true
  | String c _ => negb (islower c) && negb (isdigit c)
  end.

(** A character that begins nothing for the scanner: no uppercase letter
    and no parenthesis. *)
Definition passed_over (c : ascii) : bool :=
  negb (isupper c) && negb (Ascii.eqb c "(") && negb (Ascii.eqb c ")").

(** Two accumulators of the scanner, the second with [base] more of every
    element than the first. *)
Definition raised (base : string -> Z) (d d' : counts) : Prop :=
  well_formed d /\ well_formed d' /\
  forall e, get_count d' e = (base e + get_count d e)%Z.

(** Two states of the scanner that differ by [base] in their outermost
    accumulator only: the bottom of the stack, or the current one when the
    stack is empty. *)
Fixpoint raised_below (base : string -> Z) (stack stack' : list counts)
  (current current' : counts) : Prop :=
  match stack, stack' with
  | [], [] => raised base current current'
  | top :: below, top' :: below' =>
      raised (fun _ => 0%Z) current current' /\ raised_below base below below' top top'
  | _, _ => False
  end.

(** A text of the characters that the model classes as Python does: those
    of the ASCII range, the middle dot and the arrow. *)
Fixpoint plain_text (s : string) : bool :=
  match s with
  | EmptyString => true
  | String c s' =>
      if (code c <? 128)%nat then plain_text s'
      else
        match s' with
        | String d s'' =>
            if Ascii.eqb c "194" && Ascii.eqb d "183" then plain_text s''
            else
              match s'' with
              | String e s''' =>
                  if Ascii.eqb c "226" && Ascii.eqb d "134" && Ascii.eqb e "146"
                  then plain_text s'''
                  else false
              | EmptyString => false
              end
        | EmptyString => false
        end
  end.

(** * Properties *)

(** ** The formula counter on the reference formulas *)

(** C2, as the code has it: the counts of the four reference formulas.  On
    the hydrate the 5 that leads the second part is skipped like any other
    character that starts no symbol, so that part counts as H2O. *)
Theorem C2_reference_counts :
  atom_count_in_formula "H2O" = Ok [("H", 2%Z); ("O", 1%Z)] /\
  atom_count_in_formula "Mg(OH)2" = Ok [("Mg", 1%Z); ("O", 2%Z); ("H", 2%Z)] /\
  atom_count_in_formula "Fe(NO3)3" = Ok [("Fe", 1%Z); ("N", 3%Z); ("O", 9%Z)] /\
  atom_count_in_formula "CuSO4·5H2O" = Ok [("Cu", 1%Z); ("S", 1%Z); ("O", 5%Z); ("H", 2%Z)].
Proof. repeat split; vm_compute; reflexivity. Qed.

(** C2 as stated fails on the hydrate: its counts are not O: 9 and H: 10. *)
Lemma C2_hydrate_counterexample :
  ~ (exists d, atom_count_in_formula "CuSO4·5H2O" = Ok d /\
               lookup "O" d = Some 9%Z /\ lookup "H" d = Some 10%Z).
Proof.
  intros (d & Hd & HO & _).
  vm_compute in Hd. injection Hd as <-. vm_compute in HO. discriminate.
Qed.

(** ** The balancer on concrete equations *)

(** C8: hydrogen and oxygen to water balance as 2, 1, 2, in the order of
    the species H2, O2, H2O. *)
Theorem C8_water :
  get_stoic "H2 + O2 -> H2O" false = Ok (Coefficients (Some [2; 1; 2]%Z)) /\
  exists parser,
    equation_parser new_parser "H2 + O2 -> H2O" = Ok parser /\
    chem_species parser = ["H2"; "O2"; "H2O"].
Proof.
  split; [vm_compute; reflexivity|].
  eexists; split; vm_compute; reflexivity.
Qed.

(** C1, the code at a vector of mixed signs: for HO + H = O the scaled
    vector is 1, -1, 1 and the balancer answers with its absolute values. *)
Theorem C1_mixed_signs_made_positive :
  get_stoic "HO + H = O" true =
    Ok (Work (Some [1; 1; 1]%Z)
          (Some {| matrix := [[1; 1; 0]; [1; 0; -1]]%Z; elements := ["H"; "O"];
                   species := ["HO"; "H"; "O"] |})
          (Some [1; -1; 1]%Q) (Some [1; -1; 1]%Q) (Some 1%Z) (Some [1; -1; 1]%Q)).
Proof. vm_compute; reflexivity. Qed.

(** C5, the code at an equation it claims to balance: the coefficients
    returned for HO + H = O leave two atoms of hydrogen unaccounted for. *)
Theorem C5_unbalanced_result :
  get_stoic "HO + H = O" false = Ok (Coefficients (Some [1; 1; 1]%Z)) /\
  weighted_sum [1; 1; 0]%Z [1; 1; 1]%Z = 2%Z.
Proof. split; vm_compute; reflexivity. Qed.

(** C3, the code at a misspelt formula and at an equation without
    balance: the caller gets the same value for both, and only the tuple
    returned with [show_work] tells them apart. *)
Theorem C3_same_answer :
  get_stoic_body "H20 -> H2O" false = Raise (InvalidFormula "H20" "H2O") /\
  get_stoic "H20 -> H2O" false = Ok (Coefficients None) /\
  get_stoic "H2 + H -> O" false = Ok (Coefficients None) /\
  get_stoic "H20 -> H2O" true = Ok (Work None None None None None None) /\
  get_stoic "H2 + H -> O" true =
    Ok (Work None
          (Some {| matrix := [[2; 1; 0]; [0; 0; -1]]%Z; elements := ["H"; "O"];
                   species := ["H2"; "H"; "O"] |})
          (Some [-1 # 2; 1; 0]%Q) (Some [-1 # 2; 1; 0]%Q) (Some 2%Z)
          (Some [-1; 2; 0]%Q)).
Proof. repeat split; vm_compute; reflexivity. Qed.

(** ** No exception leaves [get_stoic] *)

(** C9: whatever the text, [get_stoic] returns: the coefficients or [None],
    and with [show_work] the tuple. *)
Theorem C9_get_stoic_returns (equation : string) :
  (exists final_coeffs, get_stoic equation false = Ok (Coefficients final_coeffs)) /\
  (exists r, get_stoic equation true = Ok r).
Proof.
  unfold get_stoic, get_stoic_body, try_except, bind.
  destruct (equation_parser new_parser equation) as [parser|e]; [|split; eauto].
  destruct (get_matrix parser) as [data|e]; [|split; eauto].
  destruct (nullspace (Matrix (matrix data))); split; eauto.
Qed.

(** ** The coefficients have no common factor *)

Section Lists.
Context {A : Type}.

Lemma update_length (l : list A) (i : nat) (v : A) :
  List.length (update l i v) = List.length l.
Proof.
  revert i; induction l as [|x l IH]; intros [|i]; simpl; auto.
Qed.

Lemma nth_update_other (l : list A) (i j : nat) (v d : A) :
  i <> j -> nth j (update l i v) d = nth j l d.
Proof.
  revert i j; induction l as [|x l IH]; intros [|i] [|j] Hij; simpl; auto.
  congruence.
Qed.

Lemma nth_update_same (l : list A) (i : nat) (v d : A) :
  (i < List.length l)%nat -> nth i (update l i v) d = v.
Proof.
  revert i; induction l as [|x l IH]; intros [|i] Hi; simpl in *; try lia; auto.
  apply IH; lia.
Qed.

End Lists.

Lemma gcd_list_nonneg (l : list Z) : (0 <= gcd_list l)%Z.
Proof. destruct l; simpl; [lia | apply Z.gcd_nonneg]. Qed.

Lemma gcd_list_divide (l : list Z) (x : Z) : In x l -> (gcd_list l | x)%Z.
Proof.
  induction l as [|y l IH]; simpl; [tauto|].
  intros [->|Hx].
  - apply Z.gcd_divide_l.
  - etransitivity; [apply Z.gcd_divide_r | auto].
Qed.

Lemma gcd_list_greatest (l : list Z) (d : Z) :
  Forall (Z.divide d) l -> (d | gcd_list l)%Z.
Proof.
  induction 1; simpl; [apply Z.divide_0_r | apply Z.gcd_greatest; auto].
Qed.

Lemma lcm_pos (l : list Z) : Forall (fun q => 0 < q)%Z l -> (0 < lcm l)%Z.
Proof.
  induction 1 as [|q l Hq _ IH]; simpl; [lia|].
  assert (0 <= Z.lcm q (lcm l))%Z by apply Z.lcm_nonneg.
  assert (Z.lcm q (lcm l) <> 0)%Z by (rewrite Z.lcm_eq_0; lia).
  lia.
Qed.

Lemma lcm_divide (l : list Z) (q : Z) : In q l -> (q | lcm l)%Z.
Proof.
  induction l as [|y l IH]; simpl; [tauto|].
  intros [->|Hq].
  - apply Z.divide_lcm_l.
  - etransitivity; [apply IH, Hq | apply Z.divide_lcm_r].
Qed.

Lemma lcm_least (l : list Z) (h : Z) : Forall (fun q => (q | h)%Z) l -> (lcm l | h)%Z.
Proof.
  induction 1; simpl; [apply Z.divide_1_l | apply Z.lcm_least; auto].
Qed.

(** Fractions in lowest terms, scaled by the least common multiple [L] of
    their denominators: a common divisor of the scaled values that divides
    [L] is 1. *)
Lemma scaled_coprime (fractions : list (Z * Z)) (g : Z) :
  let L := lcm (map snd fractions) in
  Forall (fun pq => 0 < snd pq /\ Z.gcd (fst pq) (snd pq) = 1)%Z fractions ->
  (0 <= g)%Z -> (g | L)%Z ->
  Forall (fun pq => (g | fst pq * (L / snd pq)))%Z fractions ->
  g = 1%Z.
Proof.
  intros L Hlow Hg [h Hh] Hdiv.
  assert (HL : (0 < L)%Z).
  { apply lcm_pos, Forall_map. eapply Forall_impl; [|exact Hlow].
    intros pq [Hq _]; exact Hq. }
  assert (Hg0 : g <> 0%Z) by (intros ->; lia).
  assert (HLh : (L | h)%Z).
  { apply lcm_least, Forall_map.
    rewrite Forall_forall in *. intros [p q] Hin. simpl.
    destruct (Hlow _ Hin) as [Hq Hpq]. destruct (Hdiv _ Hin) as [m Hm].
    simpl in *.
    assert (Hq_L : (q | L)%Z) by (apply lcm_divide, in_map_iff; exists (p, q); auto).
    destruct Hq_L as [c Hc].
    assert (Hc' : (L / q = c)%Z) by (rewrite Hc; apply Z.div_mul; lia).
    rewrite Hc' in Hm.
    apply Z.gauss with p; [|rewrite Z.gcd_comm; exact Hpq].
    exists m. apply Z.mul_reg_l with g; [exact Hg0|].
    transitivity (p * L)%Z; [rewrite Hh; ring|].
    rewrite Hc. transitivity (p * c * q)%Z; [ring|]. rewrite Hm. ring. }
  destruct HLh as [k Hk].
  assert (Hgk : (g * k = 1)%Z).
  { apply Z.mul_reg_r with L; [lia|]. rewrite Z.mul_1_l.
    rewrite Hh at 2. rewrite Hk. ring. }
  destruct (Z.eq_mul_1 _ _ Hgk); lia.
Qed.

(** The free variable of a basis vector keeps the value one. *)
Lemma basis_vector_one (reduced : list row) (pivots : list nat) (n free_var : nat) :
  ~ In free_var pivots -> (free_var < n)%nat ->
  entry (basis_vector reduced pivots n free_var) free_var = 1%Q.
Proof.
  intros Hfree Hlt. unfold basis_vector.
  assert (Hpc : forall pc, In pc (enumerate pivots) -> snd pc <> free_var).
  { intros [i j] Hin Heq. simpl in Heq. subst j.
    apply Hfree. eapply in_combine_r; exact Hin. }
  assert (Hstart : entry (update (repeat 0%Q n) free_var 1%Q) free_var = 1%Q).
  { unfold entry. apply nth_update_same. rewrite repeat_length; exact Hlt. }
  revert Hpc Hstart.
  generalize (update (repeat 0%Q n) free_var 1%Q) as vec.
  induction (enumerate pivots) as [|pc pcs IH]; intros vec Hpc Hvec; simpl; [exact Hvec|].
  apply IH.
  - intros pc' Hin; apply Hpc; right; exact Hin.
  - unfold entry. rewrite nth_update_other; [exact Hvec|]. apply Hpc; left; reflexivity.
Qed.

(** Every vector of the basis has an entry equal to one. *)
Lemma nullspace_one (A : list row) (vec : list Q) :
  In vec (nullspace A) -> In 1%Q vec.
Proof.
  unfold nullspace. destruct (rref A) as [reduced pivots].
  rewrite in_map_iff. intros (free_var & <- & Hin).
  apply filter_In in Hin. destruct Hin as [Hseq Hnot].
  apply in_seq in Hseq.
  assert (Hfree : ~ In free_var pivots).
  { intros Hp. apply negb_true_iff in Hnot.
    assert (Hex : existsb (Nat.eqb free_var) pivots = true)
      by (apply existsb_exists; exists free_var; split; [exact Hp | apply Nat.eqb_refl]).
    congruence. }
  pose proof (basis_vector_one reduced pivots (cols A) free_var Hfree ltac:(lia)) as Hone.
  unfold entry in Hone.
  destruct (Nat.lt_ge_cases free_var
              (List.length (basis_vector reduced pivots (cols A) free_var))) as [Hlt|Hge].
  - rewrite <- Hone. apply nth_In; exact Hlt.
  - rewrite nth_overflow in Hone by exact Hge. discriminate.
Qed.

(** A rational in lowest terms times a multiple of its denominator is the
    integer one expects. *)
Lemma raw_coeff_value (v : Q) (L : Z) :
  (denom (nsimplify v) | L)%Z ->
  Qred (nsimplify v * inject_Z L) =
  inject_Z (Qnum (Qred v) * (L / Zpos (Qden (Qred v)))).
Proof.
  unfold denom, nsimplify. rewrite Qcanon.Qred_involutive.
  destruct (Qred v) as [p q]. cbn [Qnum Qden]. intros [k Hk].
  assert (Hdiv : (L / Zpos q = k)%Z) by (rewrite Hk; apply Z.div_mul; lia).
  rewrite Hdiv.
  transitivity (Qred (inject_Z (p * k))).
  - apply Qred_complete. unfold Qeq, Qmult, inject_Z; simpl.
    rewrite Hk, Pos.mul_1_r. ring.
  - apply Qcanon.Qred_identity. cbn [Qnum Qden inject_Z]. apply Z.gcd_1_r.
Qed.

Lemma all_integer_positive (l : list Z) :
  forallb (fun coeff => is_integer coeff && is_positive coeff) (map inject_Z l) = true ->
  Forall (fun c => 0 < c)%Z l.
Proof.
  rewrite forallb_forall, Forall_forall. intros H c Hc.
  specialize (H (inject_Z c) (in_map _ _ _ Hc)).
  apply andb_true_iff in H. destruct H as [_ H].
  unfold is_positive in H; simpl in H. lia.
Qed.

(** On integers the balancer answers with the values or with their absolute
    values, and all of what it answers with is positive. *)
Lemma final_coefficients_integers (l cs : list Z) :
  final_coefficients (map inject_Z l) = Some cs ->
  (cs = l \/ cs = map Z.abs l) /\ Forall (fun c => 0 < c)%Z cs.
Proof.
  assert (Hint : forall l', map int (map inject_Z l') = l').
  { intros l'. rewrite map_map. rewrite <- (map_id l') at 2.
    apply map_ext. intros c. unfold int; simpl. apply Z.quot_1_r. }
  assert (Habs : map Qabs (map inject_Z l) = map inject_Z (map Z.abs l)).
  { rewrite !map_map. apply map_ext. reflexivity. }
  unfold final_coefficients. rewrite Habs, !Hint.
  destruct (forallb _ (map inject_Z l)) eqn:Hpos.
  - intros [= <-]. split; [left; reflexivity | apply all_integer_positive, Hpos].
  - destruct (existsb is_negative (map inject_Z l)); [|discriminate].
    destruct (forallb _ (map inject_Z (map Z.abs l))) eqn:Habspos; [|discriminate].
    intros [= <-]. split; [right; reflexivity | apply all_integer_positive, Habspos].
Qed.

(** The scaled vector of the balancer, as integers. *)
Lemma raw_coeffs_integers (vec : list Q) :
  let simplified_vec := map nsimplify vec in
  let L := lcm (map denom simplified_vec) in
  map (fun elem => Qred (elem * inject_Z L)) simplified_vec =
  map inject_Z (map (fun v => Qnum (Qred v) * (L / Zpos (Qden (Qred v))))%Z vec).
Proof.
  intros simplified_vec L. unfold simplified_vec. rewrite !map_map.
  apply map_ext_in. intros v Hv. apply raw_coeff_value.
  apply lcm_divide. apply in_map, in_map, Hv.
Qed.

(** The coefficients computed from a vector with an entry equal to one have
    no common factor. *)
Lemma coefficients_coprime (vec : list Q) (cs : list Z) :
  In 1%Q vec ->
  let simplified_vec := map nsimplify vec in
  let L := lcm (map denom simplified_vec) in
  final_coefficients (map (fun elem => Qred (elem * inject_Z L)) simplified_vec) = Some cs ->
  gcd_list cs = 1%Z /\ Forall (fun c => 0 < c)%Z cs.
Proof.
  intros Hone simplified_vec L.
  pose proof (raw_coeffs_integers vec) as Hraw. cbv zeta in Hraw.
  fold simplified_vec in Hraw; fold L in Hraw. rewrite Hraw. intros Hfinal.
  apply final_coefficients_integers in Hfinal. destruct Hfinal as [Hcs Hpos].
  split; [|exact Hpos].
  set (value := (fun v : Q => Qnum (Qred v) * (L / Zpos (Qden (Qred v))))%Z) in *.
  set (fractions := map (fun v : Q => (Qnum (Qred v), Zpos (Qden (Qred v)))) vec).
  assert (HL : L = lcm (map snd fractions)).
  { unfold L, simplified_vec, fractions. rewrite !map_map. f_equal.
    apply map_ext. intros v. unfold denom, nsimplify. simpl.
    rewrite Qcanon.Qred_involutive. reflexivity. }
  assert (Hdiv : forall v, In v vec -> (gcd_list cs | value v)%Z).
  { intros v Hv. destruct Hcs as [-> | ->].
    - apply gcd_list_divide, in_map, Hv.
    - apply Z.divide_abs_r. apply gcd_list_divide.
      apply (in_map Z.abs), in_map, Hv. }
  apply (scaled_coprime fractions).
  - unfold fractions. rewrite Forall_map, Forall_forall. intros v _. simpl.
    split; [lia|]. apply gcd_Qred.
  - apply gcd_list_nonneg.
  - rewrite <- HL. specialize (Hdiv _ Hone).
    unfold value in Hdiv. simpl in Hdiv. rewrite Z.div_1_r in Hdiv.
    destruct (L) eqn:E; simpl in Hdiv; exact Hdiv.
  - rewrite <- HL. unfold fractions. rewrite Forall_map, Forall_forall.
    intros v Hv. simpl. apply Hdiv, Hv.
Qed.

(** C6: the coefficients [get_stoic] returns have greatest common divisor 1,
    so no factor greater than 1 divides them all. *)
Theorem C6_coefficients_coprime (equation : string) (show_work : bool) (r : stoic)
  (cs : list Z) :
  get_stoic equation show_work = Ok r ->
  final_coeffs_of r = Some cs ->
  gcd_list cs = 1%Z /\
  forall d, (1 < d)%Z -> ~ Forall (fun c => (d | c)%Z) cs.
Proof.
  intros Hrun Hfinal.
  assert (Hgcd : gcd_list cs = 1%Z).
  { unfold get_stoic, get_stoic_body, try_except, bind in Hrun.
    destruct (equation_parser new_parser equation) as [parser|e];
      [|destruct show_work; injection Hrun as <-; discriminate].
    destruct (get_matrix parser) as [data|e];
      [|destruct show_work; injection Hrun as <-; discriminate].
    destruct (nullspace (Matrix (matrix data))) as [|vec basis] eqn:Hbasis;
      [destruct show_work; injection Hrun as <-; discriminate|].
    assert (Hone : In 1%Q vec) by (apply (nullspace_one (Matrix (matrix data))); rewrite Hbasis; left; reflexivity).
    assert (Hlcm : forall l, match l with [] => 1%Z | _ :: _ => lcm l end = lcm l)
      by (intros [|? ?]; reflexivity).
    rewrite Hlcm in Hrun.
    apply (coefficients_coprime vec cs Hone).
    destruct show_work; injection Hrun as <-; exact Hfinal. }
  split; [exact Hgcd|].
  intros d Hd Hall. apply gcd_list_greatest in Hall. rewrite Hgcd in Hall.
  apply Z.divide_1_r in Hall. lia.
Qed.

(** C6 at iron and oxygen to rust: 4, 3, 2. *)
Lemma C6_coefficients_coprime_witness :
  get_stoic "Fe + O2 -> Fe2O3" false = Ok (Coefficients (Some [4; 3; 2]%Z)) /\
  gcd_list [4; 3; 2]%Z = 1%Z /\
  forall d, (1 < d)%Z -> ~ Forall (fun c => (d | c)%Z) [4; 3; 2]%Z.
Proof.
  split; [vm_compute; reflexivity|].
  apply (C6_coefficients_coprime "Fe + O2 -> Fe2O3" false
           (Coefficients (Some [4; 3; 2]%Z)) [4; 3; 2]%Z);
    vm_compute; reflexivity.
Defined.

(** ** The pre-validation of a formula *)

Lemma contains_char (a : ascii) (s : string) :
  contains (String a EmptyString) s = any (Ascii.eqb a) s.
Proof.
  induction s as [|c s IH]; cbn [contains startswith any]; [destruct a; reflexivity|].
  rewrite IH. destruct (Ascii.eqb a c); reflexivity.
Qed.

Lemma replace_absent (a b : ascii) (s : string) :
  any (Ascii.eqb a) s = false -> replace a b s = s.
Proof.
  induction s as [|c s IH]; cbn [replace any]; [reflexivity|].
  intros H. apply orb_false_iff in H. destruct H as [Hc Hs].
  rewrite Ascii.eqb_sym, Hc, IH by exact Hs. reflexivity.
Qed.

Lemma replace_keeps_absent (a b a' : ascii) (s : string) :
  Ascii.eqb a' b = false ->
  any (Ascii.eqb a') s = false -> any (Ascii.eqb a') (replace a b s) = false.
Proof.
  intros Hb. induction s as [|c s IH]; cbn [replace any]; [reflexivity|].
  intros H. apply orb_false_iff in H. destruct H as [Hc Hs].
  rewrite IH by exact Hs. destruct (Ascii.eqb c a); [rewrite Hb | rewrite Hc]; reflexivity.
Qed.

(** The suggestion replaces every 0 by O and every 1 by I. *)
Lemma suggest_replaces (formula : string) :
  suggest formula = replace "1" "I" (replace "0" "O" formula).
Proof.
  unfold suggest, common_errors. cbn [fold_left fst snd]. rewrite !contains_char.
  destruct (any (Ascii.eqb "0") formula) eqn:H0;
    destruct (any (Ascii.eqb "1") formula) eqn:H1; try reflexivity.
  - symmetry. apply replace_absent. apply replace_keeps_absent; [reflexivity | exact H1].
  - rewrite (replace_absent "0" "O") by exact H0. reflexivity.
  - rewrite (replace_absent "0" "O") by exact H0.
    symmetry. apply replace_absent, H1.
Qed.

(** The suggestion is the formula itself exactly when the formula has
    neither 0 nor 1. *)
Lemma suggest_same (formula : string) :
  suggest formula = formula <->
  contains "0" formula = false /\ contains "1" formula = false.
Proof.
  rewrite suggest_replaces, !contains_char. split.
  - induction formula as [|c s IH]; cbn [replace any]; [auto|].
    intros H. injection H as Hc Hs. destruct (IH Hs) as [H0 H1].
    rewrite H0, H1, !orb_false_r.
    destruct (Ascii.eqb_spec c "0") as [->|Hn0]; [cbv in Hc; discriminate|].
    destruct (Ascii.eqb_spec c "1") as [->|Hn1]; [cbv in Hc; discriminate|].
    split; apply Ascii.eqb_neq; congruence.
  - intros [H0 H1]. rewrite (replace_absent "0" "O") by exact H0.
    apply replace_absent, H1.
Qed.

Lemma collect_elements_grows (fuel : nat) (s : string) (elements : list string) :
  elements <> [] -> collect_elements fuel s elements <> [].
Proof.
  revert s elements; induction fuel as [|fuel IH]; intros s elements Hne; simpl; [exact Hne|].
  destruct s as [|c s]; [exact Hne|].
  destruct (isupper c); [|apply IH, Hne].
  destruct (span islower s) as [lows rest]. apply IH.
  destruct elements; discriminate.
Qed.

(** The loop of [validate_formula] finds an element exactly when the
    formula has an uppercase letter. *)
Lemma collect_elements_found (fuel : nat) (s : string) :
  (String.length s <= fuel)%nat ->
  (collect_elements fuel s [] <> [] <-> any isupper s = true).
Proof.
  revert s; induction fuel as [|fuel IH]; intros s Hlen.
  - destruct s; simpl in *; [|lia]. split; [congruence | discriminate].
  - destruct s as [|c s]; simpl in *; [split; [congruence | discriminate]|].
    destruct (isupper c) eqn:Hc; simpl.
    + destruct (span islower s) as [lows rest].
      split; [reflexivity|]. intros _. apply collect_elements_grows. discriminate.
    + apply IH. lia.
Qed.

Lemma last_char_none (s : string) : last_char s = None <-> s = EmptyString.
Proof.
  split; [|intros ->; reflexivity].
  induction s as [|c s IH]; [reflexivity|]. simpl.
  destruct s; [discriminate|]. intros H. specialize (IH H). discriminate.
Qed.

(** What [validate_formula] does, case by case. *)
Lemma validate_formula_cases (formula : string) :
  (formula = EmptyString /\ validate_formula formula = Raise IndexError) \/
  (suspicious formula /\
   validate_formula formula = Raise (InvalidFormula formula (suggest formula))) \/
  (~ rejected formula /\ validate_formula formula = Ok tt).
Proof.
  unfold validate_formula, rejected, suspicious.
  destruct (last_char formula) as [last|] eqn:Hlast;
    [|left; split; [apply last_char_none, Hlast | reflexivity]].
  right.
  assert (Hne : formula <> EmptyString) by (intros ->; discriminate).
  pose proof (collect_elements_found (String.length formula) formula (Nat.le_refl _)) as Hel.
  pose proof (suggest_same formula) as Hsame.
  destruct (isdigit last) eqn:Hd; simpl.
  2:{ right. split; [|reflexivity].
      intros [?|(l & Hl & Hdl & _)]; [contradiction|]. congruence. }
  destruct (any isalpha (but_last formula)) eqn:Ha.
  2:{ right. split; [|reflexivity].
      intros [?|(l & _ & _ & Hal & _)]; [contradiction|]. congruence. }
  destruct (collect_elements (String.length formula) formula []) as [|el els].
  { right. split; [|reflexivity].
    intros [?|(l & _ & _ & _ & Hup & _)]; [contradiction|].
    apply Hel in Hup. congruence. }
  destruct (String.eqb_spec (suggest formula) formula) as [Heq|Hneq]; simpl.
  - right. split; [|reflexivity].
    intros [?|(l & _ & _ & _ & _ & H01)]; [contradiction|].
    apply Hsame in Heq. destruct Heq, H01; congruence.
  - left. split; [|reflexivity].
    exists last. repeat split; auto.
    + apply Hel. discriminate.
    + destruct (contains "0" formula) eqn:H0; [left; reflexivity|].
      destruct (contains "1" formula) eqn:H1; [right; reflexivity|].
      exfalso. apply Hneq, Hsame. split; reflexivity.
Qed.

(** C10, as the code has it: a formula that ends in a digit, has a letter
    before its last character, has an uppercase letter and has a 0 or a 1 is
    rejected, with every 0 replaced by O and every 1 by I in the
    suggestion; C10H22 is one. *)
Theorem C10_suspicious_formula_rejected (formula : string) :
  suspicious formula ->
  atom_count_in_formula formula =
    Raise (InvalidFormula formula (replace "1" "I" (replace "0" "O" formula))).
Proof.
  intros Hs. unfold atom_count_in_formula, atom_count_rec, bind.
  rewrite <- suggest_replaces.
  destruct (validate_formula_cases formula) as [[-> _]|[[_ ->]|[Hn _]]].
  - destruct Hs as (l & Hl & _). discriminate.
  - reflexivity.
  - exfalso. apply Hn. right. exact Hs.
Qed.

(** C10 at decane. *)
Lemma C10_suspicious_formula_rejected_witness :
  suspicious "C10H22" /\
  atom_count_in_formula "C10H22" = Raise (InvalidFormula "C10H22" "CIOH22").
Proof.
  assert (Hs : suspicious "C10H22").
  { exists "2"%char. repeat split; try reflexivity. left; reflexivity. }
  split; [exact Hs|].
  exact (C10_suspicious_formula_rejected "C10H22" Hs).
Defined.

(** C10 as stated fails without an uppercase letter: h20 ends in a digit,
    has a letter before it and a 0, and is counted, as no atom at all. *)
Lemma C10_lowercase_counterexample :
  last_char "h20" = Some "0"%char /\ isdigit "0" = true /\
  any isalpha (but_last "h20") = true /\ contains "0" "h20" = true /\
  atom_count_in_formula "h20" = Ok [].
Proof. repeat split. Qed.

(** ** The parts of a hydrate, and the depth of the recursion *)

Lemma startswith_app (p s t : string) :
  startswith p s = true -> startswith p (s ++ t) = true.
Proof.
  revert s; induction p as [|a p IH]; intros [|b s]; simpl; try congruence.
  intros H. apply andb_true_iff in H. destruct H as [-> H]. simpl. apply IH, H.
Qed.

Lemma append_cons (f : string) (c : ascii) (s : string) :
  ((f ++ String c EmptyString) ++ s)%string = (f ++ String c s)%string.
Proof. induction f as [|a f IH]; simpl; [reflexivity | rewrite IH; reflexivity]. Qed.

Lemma append_nil (s : string) : (s ++ EmptyString)%string = s.
Proof. induction s as [|a s IH]; simpl; [reflexivity | rewrite IH; reflexivity]. Qed.

Lemma length_append_one (f : string) (c : ascii) :
  String.length (f ++ String c EmptyString) = S (String.length f).
Proof. induction f as [|a f IH]; simpl; [reflexivity | rewrite IH; reflexivity]. Qed.

Lemma drop_length (n : nat) (s : string) :
  String.length (drop n s) = (String.length s - n)%nat.
Proof.
  revert s; induction n as [|n IH]; intros [|c s]; simpl; auto.
Qed.

Lemma begins_within_field (sep field s : string) :
  sep <> EmptyString ->
  begins_within (String.length field) sep (field ++ s) = false ->
  contains sep field = false.
Proof.
  intros Hsep. induction field as [|c f IH]; simpl.
  - intros _. destruct sep; [congruence | reflexivity].
  - intros H. apply orb_false_iff in H. destruct H as [Hhere Hlater].
    rewrite (IH Hlater), orb_false_r.
    destruct (startswith sep (String c f)) eqn:E; [|reflexivity].
    apply (startswith_app _ _ s) in E. simpl in E. congruence.
Qed.

Lemma begins_within_step (sep field : string) (c : ascii) (s : string) :
  begins_within (String.length field) sep (field ++ String c s) = false ->
  startswith sep (String c s) = false ->
  begins_within (String.length (field ++ String c EmptyString)) sep
    ((field ++ String c EmptyString) ++ s) = false.
Proof.
  intros Hf Hc. rewrite append_cons, length_append_one.
  induction field as [|a f IH].
  - cbn [String.length append begins_within]. rewrite Hc. destruct s; reflexivity.
  - cbn [String.length append begins_within] in *.
    apply orb_false_iff in Hf. destruct Hf as [Hhere Hlater].
    rewrite Hhere. simpl. apply IH, Hlater.
Qed.

(** No field of [split] has the separator in it. *)
Lemma split_from_fields (sep : string) (fuel : nat) (s field : string) :
  sep <> EmptyString ->
  (String.length s <= fuel)%nat ->
  begins_within (String.length field) sep (field ++ s) = false ->
  Forall (fun part => contains sep part = false) (split_from fuel sep s field).
Proof.
  intros Hsep. revert s field; induction fuel as [|fuel IH]; intros s field Hlen Hinv.
  - destruct s; simpl in Hlen; [|lia]. simpl. rewrite append_nil in *.
    constructor; [|constructor]. apply (begins_within_field sep field EmptyString Hsep).
    rewrite append_nil. exact Hinv.
  - destruct s as [|c s]; cbn [split_from].
    + constructor; [|constructor]. apply (begins_within_field sep field EmptyString Hsep Hinv).
    + destruct (startswith sep (String c s)) eqn:Hstart.
      * constructor.
        -- apply (begins_within_field sep field (String c s) Hsep Hinv).
        -- apply IH; [|destruct (drop _ _); reflexivity].
           rewrite drop_length. simpl in *.
           destruct sep; [congruence|]. simpl. lia.
      * apply IH; [simpl in Hlen; lia|]. apply begins_within_step; assumption.
Qed.

Lemma split_fields (sep s : string) :
  sep <> EmptyString ->
  Forall (fun part => contains sep part = false) (split sep s).
Proof.
  intros Hsep. apply split_from_fields; [exact Hsep | lia | destruct s; reflexivity].
Qed.

Lemma sum_parts_ext (count count' : string -> result counts) (parts : list string)
  (acc : counts) :
  Forall (fun part => count part = count' part) parts ->
  sum_parts count parts acc = sum_parts count' parts acc.
Proof.
  intros H; revert acc; induction H as [|part parts Hp _ IH]; intros acc; simpl; [reflexivity|].
  rewrite Hp. destruct (count' part); simpl; [apply IH | reflexivity].
Qed.

(** One level of recursion is all [atom_count_in_formula] uses: the parts of
    a hydrate have no middle dot in them. *)
Lemma atom_count_depth (depth : nat) (formula : string) :
  atom_count_rec (S depth) formula = atom_count_in_formula formula.
Proof.
  unfold atom_count_in_formula. cbn [atom_count_rec].
  destruct (validate_formula formula); simpl; [|reflexivity].
  destruct (contains middle_dot formula); [|reflexivity].
  apply sum_parts_ext.
  eapply Forall_impl; [|apply (split_fields middle_dot formula); discriminate].
  intros part Hpart. destruct depth; cbn [atom_count_rec]; [reflexivity|].
  rewrite Hpart. reflexivity.
Qed.

(** ** When the formula counter fails *)

Lemma validate_formula_raises (formula : string) :
  (exists e, validate_formula formula = Raise e) <-> rejected formula.
Proof.
  destruct (validate_formula_cases formula) as [[He Hv]|[[Hs Hv]|[Hn Hv]]]; rewrite Hv.
  - split; [left; exact He | eauto].
  - split; [right; exact Hs | eauto].
  - split; [intros [e He]; discriminate | contradiction].
Qed.

Lemma validate_formula_error (formula : string) (e : exn) :
  validate_formula formula = Raise e ->
  e = IndexError \/ exists f suggested, e = InvalidFormula f suggested.
Proof.
  destruct (validate_formula_cases formula) as [[_ Hv]|[[_ Hv]|[_ Hv]]]; rewrite Hv;
    intros [= <-]; eauto.
Qed.

Lemma sum_parts_raises (count : string -> result counts) (parts : list string)
  (acc : counts) :
  (exists e, sum_parts count parts acc = Raise e) <->
  Exists (fun part => exists e, count part = Raise e) parts.
Proof.
  revert acc; induction parts as [|part parts IH]; intros acc; simpl.
  - split; [intros [e He]; discriminate | intros H; inversion H].
  - rewrite Exists_cons. destruct (count part) as [cs|e]; simpl.
    + rewrite IH. split; [auto | intros [[e He]|H]; [discriminate | exact H]].
    + split; eauto.
Qed.

Lemma sum_parts_error (count : string -> result counts) (parts : list string)
  (acc : counts) (e : exn) :
  sum_parts count parts acc = Raise e -> exists part, In part parts /\ count part = Raise e.
Proof.
  revert acc; induction parts as [|part parts IH]; intros acc; simpl; [discriminate|].
  destruct (count part) as [cs|e'] eqn:Hc; simpl.
  - intros H. destruct (IH _ H) as (p & Hin & Hp). eauto.
  - intros [= <-]. eauto.
Qed.

Lemma part_count_raises (part : string) (e : exn) :
  atom_count_rec 0 part = Raise e <-> validate_formula part = Raise e.
Proof.
  cbn [atom_count_rec]. destruct (validate_formula part); simpl.
  - destruct (contains middle_dot part); split; discriminate.
  - split; intros [= ->]; reflexivity.
Qed.

(** The exceptions of the formula counter. *)
Lemma atom_count_error (formula : string) (e : exn) :
  atom_count_in_formula formula = Raise e ->
  e = IndexError \/ exists f suggested, e = InvalidFormula f suggested.
Proof.
  unfold atom_count_in_formula. cbn [atom_count_rec].
  destruct (validate_formula formula) as [[]|e'] eqn:Hv; simpl.
  - destruct (contains middle_dot formula); [|discriminate].
    intros H. apply sum_parts_error in H. destruct H as (part & _ & Hp).
    apply part_count_raises in Hp. eapply validate_formula_error, Hp.
  - intros [= <-]. eapply validate_formula_error, Hv.
Qed.

(** C4, as the code has it: on a text of ASCII characters, middle dots and
    arrows the formula counter fails exactly on a formula that the
    pre-validation rejects, empty or suspicious, and on a hydrate one of
    whose parts it rejects; the failure is an index error or the
    suspicious-formula error.  Parentheses and digits play no part in it. *)
Theorem C4_formula_counter_failures (formula : string) :
  plain_text formula = true ->
  ((exists e, atom_count_in_formula formula = Raise e) <->
   rejected formula \/
   (contains middle_dot formula = true /\
    Exists rejected (split middle_dot formula))) /\
  (forall e, atom_count_in_formula formula = Raise e ->
             e = IndexError \/ exists f suggested, e = InvalidFormula f suggested).
Proof.
  intros _.
  split; [|apply atom_count_error].
  assert (Hparts : forall parts,
             Exists (fun part => exists e, atom_count_rec 0 part = Raise e) parts <->
             Exists rejected parts).
  { intros parts. rewrite !Exists_exists.
    split; intros (part & Hin & Hp); exists part; (split; [exact Hin|]).
    - apply validate_formula_raises. destruct Hp as [e He].
      exists e. apply part_count_raises, He.
    - apply validate_formula_raises in Hp. destruct Hp as [e He].
      exists e. apply part_count_raises, He. }
  pose proof (validate_formula_raises formula) as Hv.
  unfold atom_count_in_formula. cbn [atom_count_rec].
  destruct (validate_formula formula) as [[]|e'] eqn:Hval; simpl.
  - assert (Hnot : ~ rejected formula) by (intros H; apply Hv in H; destruct H; discriminate).
    destruct (contains middle_dot formula).
    + rewrite sum_parts_raises, Hparts. tauto.
    + split; [intros [e He]; discriminate | intros [H|[H _]]; [contradiction | discriminate]].
  - split; [intros _; left; apply Hv; eauto | eauto].
Qed.

(** C4 as stated fails: an unclosed parenthesis, a closing one that opens
    nowhere and a number alone are all counted, none raises. *)
Lemma C4_unmatched_counterexample :
  atom_count_in_formula "Mg(OH" = Ok [("O", 1%Z); ("H", 1%Z)] /\
  atom_count_in_formula "H2)" = Ok [("H", 2%Z)] /\
  atom_count_in_formula "2" = Ok [].
Proof. repeat split. Qed.

(** C4 at a hydrate with a suspicious part. *)
Lemma C4_formula_counter_failures_witness :
  plain_text "CuSO4·H20" = true /\
  ((exists e, atom_count_in_formula "CuSO4·H20" = Raise e) <->
   rejected "CuSO4·H20" \/
   (contains middle_dot "CuSO4·H20" = true /\
    Exists rejected (split middle_dot "CuSO4·H20"))) /\
  (forall e, atom_count_in_formula "CuSO4·H20" = Raise e ->
             e = IndexError \/ exists f suggested, e = InvalidFormula f suggested).
Proof.
  split; [reflexivity|].
  apply (C4_formula_counter_failures "CuSO4·H20"). reflexivity.
Defined.

(** ** When the equation parser fails *)

Lemma lstrip_length (s : string) : (String.length (lstrip s) <= String.length s)%nat.
Proof.
  induction s as [|c s IH]; simpl; [lia|]. destruct (isspace c); simpl; lia.
Qed.

Lemma space_starts_none (c : ascii) (s : string) :
  isspace c = true ->
  startswith "->" (String c s) || startswith "→" (String c s)
  || startswith "=" (String c s) = false.
Proof.
  intros Hc. cbn [startswith].
  destruct (Ascii.eqb_spec "-" c) as [<-|_]; [discriminate|].
  destruct (Ascii.eqb_spec "226" c) as [<-|_]; [discriminate|].
  destruct (Ascii.eqb_spec "=" c) as [<-|_]; [discriminate|].
  reflexivity.
Qed.

Lemma count_separators_lstrip (s : string) :
  count_separators (lstrip s) = count_separators s.
Proof.
  induction s as [|c s IH]; [reflexivity|].
  cbn [lstrip]. destruct (isspace c) eqn:Hc; [|reflexivity].
  cbn [count_separators]. rewrite (space_starts_none c s Hc). exact IH.
Qed.

(** A separator at the head of [s] is one place counted, and what follows
    it is shorter. *)
Lemma match_separator_some (s rest : string) :
  match_separator s = Some rest ->
  count_separators s = S (count_separators rest) /\
  (String.length rest < String.length s)%nat.
Proof.
  unfold match_separator.
  destruct (startswith "->" s) eqn:H1.
  { destruct s as [|a [|b s]]; cbn [startswith] in H1; try discriminate;
      try (rewrite andb_false_r in H1; discriminate).
    rewrite andb_true_r in H1. apply andb_true_iff in H1. destruct H1 as [Ha Hb].
    apply Ascii.eqb_eq in Ha, Hb. subst a b.
    intros [= <-]. split; [reflexivity | simpl; lia]. }
  destruct (startswith "→" s) eqn:H2.
  { destruct s as [|a [|b [|c s]]]; cbn [startswith] in H2; try discriminate;
      try (rewrite ?andb_false_r in H2; discriminate).
    rewrite andb_true_r in H2.
    apply andb_true_iff in H2. destruct H2 as [Ha H2].
    apply andb_true_iff in H2. destruct H2 as [Hb Hc].
    apply Ascii.eqb_eq in Ha, Hb, Hc. subst a b c.
    intros [= <-]. split; [reflexivity | simpl; lia]. }
  destruct (startswith "=" s) eqn:H3; [|discriminate].
  destruct s as [|a s]; cbn [startswith] in H3; try discriminate.
  rewrite andb_true_r in H3. apply Ascii.eqb_eq in H3. subst a.
  intros [= <-]. split; [reflexivity | simpl; lia].
Qed.

Lemma match_separator_none (s : string) :
  match_separator s = None ->
  startswith "->" s || startswith "→" s || startswith "=" s = false.
Proof.
  unfold match_separator.
  destruct (startswith "->" s); [discriminate|].
  destruct (startswith "→" s); [discriminate|].
  destruct (startswith "=" s); [discriminate|]. reflexivity.
Qed.

(** [re.split] returns one field more than there are separators. *)
Lemma re_split_from_length (fuel : nat) (s field : string) :
  (String.length s <= fuel)%nat ->
  List.length (re_split_from fuel s field) = S (count_separators s).
Proof.
  revert s field; induction fuel as [|fuel IH]; intros s field Hlen.
  - destruct s; simpl in Hlen; [reflexivity | lia].
  - cbn [re_split_from]. unfold match_pattern.
    destruct (match_separator (lstrip s)) as [rest|] eqn:Hsep.
    + apply match_separator_some in Hsep. destruct Hsep as [Hcount Hshort].
      pose proof (lstrip_length s). pose proof (lstrip_length rest).
      cbn [List.length]. rewrite IH by lia.
      rewrite count_separators_lstrip, <- Hcount, count_separators_lstrip. reflexivity.
    + destruct s as [|c s]; [reflexivity|].
      rewrite IH by (simpl in Hlen; lia).
      cbn [count_separators].
      destruct (isspace c) eqn:Hc.
      * rewrite (space_starts_none c s Hc). reflexivity.
      * cbn [lstrip] in Hsep. rewrite Hc in Hsep.
        rewrite (match_separator_none _ Hsep). reflexivity.
Qed.

Lemma re_split_length (s : string) :
  List.length (re_split s) = S (count_separators s).
Proof. apply re_split_from_length. lia. Qed.

Lemma split_from_nonempty (fuel : nat) (sep s field : string) :
  split_from fuel sep s field <> [].
Proof.
  revert s field; induction fuel as [|fuel IH]; intros s field; simpl; [discriminate|].
  destruct s; [discriminate|]. destruct (startswith sep _); [discriminate | apply IH].
Qed.

(** [_get_atom_count] counts every species or raises what the formula
    counter raised. *)
Lemma count_species_cases (species : list string) (species_counts : list counts)
  (all : dict unit) :
  (Forall (fun formula => exists cs, atom_count_in_formula formula = Ok cs) species /\
   exists r, count_species species species_counts all = Ok r /\
             List.length (fst r) = (List.length species_counts + List.length species)%nat) \/
  (~ Forall (fun formula => exists cs, atom_count_in_formula formula = Ok cs) species /\
   exists e, count_species species species_counts all = Raise e /\
             (e = IndexError \/ exists f suggested, e = InvalidFormula f suggested)).
Proof.
  revert species_counts all; induction species as [|sp species IH];
    intros species_counts all; cbn [count_species].
  - left. split; [constructor|]. eexists; split; [reflexivity | simpl; lia].
  - destruct (atom_count_in_formula sp) as [cs|e] eqn:Hsp; cbn [bind].
    + destruct (IH (species_counts ++ [cs]) (note_elements all cs))
        as [[Hall (r & Hr & Hlen)]|[Hnot (e & He & Hkind)]].
      * left. split; [constructor; eauto|]. exists r. split; [exact Hr|].
        rewrite Hlen, length_app. simpl. lia.
      * right. split; [intros H; inversion H; contradiction|]. eauto.
    + right. split.
      * intros H; inversion H as [|? ? [cs Hcs] _]. congruence.
      * exists e. split; [reflexivity | apply (atom_count_error sp), Hsp].
Qed.

(** [_get_species_dicts] finds the counts of every species. *)
Lemma species_dicts_ok (indexed : list (nat * string)) (species_counts : list counts)
  (all : dict unit) (num_reactants : nat) (parsed : dict (dict Z)) :
  (forall i sp, In (i, sp) indexed -> (i < List.length species_counts)%nat) ->
  exists parsed', species_dicts indexed species_counts all num_reactants parsed = Ok parsed'.
Proof.
  revert parsed; induction indexed as [|[i sp] indexed IH]; intros parsed Hin; simpl; [eauto|].
  destruct (nth_error species_counts i) as [cs|] eqn:Hnth.
  - apply IH. intros j sp' Hj. apply (Hin j sp'). right; exact Hj.
  - apply nth_error_None in Hnth. specialize (Hin i sp (or_introl eq_refl)). lia.
Qed.

Lemma enumerate_index {A : Type} (l : list A) (i : nat) (x : A) :
  In (i, x) (enumerate l) -> (i < List.length l)%nat.
Proof.
  unfold enumerate. intros H. apply in_combine_l in H. apply in_seq in H. lia.
Qed.

(** The parser once the text is split in two. *)
Lemma parse_sides (self : ChemEqParser) (all_species : list string) :
  chem_species self = all_species ->
  (Forall (fun formula => exists cs, atom_count_in_formula formula = Ok cs) all_species /\
   exists parser, (self' <- _get_atom_count self ;; _get_species_dicts self') = Ok parser /\
                  chem_species parser = all_species) \/
  (~ Forall (fun formula => exists cs, atom_count_in_formula formula = Ok cs) all_species /\
   exists e, (self' <- _get_atom_count self ;; _get_species_dicts self') = Raise e /\
             (e = IndexError \/ exists f suggested, e = InvalidFormula f suggested)).
Proof.
  intros Hsp. unfold _get_atom_count. rewrite Hsp.
  destruct (count_species_cases all_species [] [])
    as [[Hall (r & Hr & Hlen)]|[Hnot (e & He & Hkind)]].
  - left. split; [exact Hall|]. rewrite Hr. cbn [bind].
    unfold _get_species_dicts. cbn [chem_species chem_species_counts all_elements reactants].
    destruct (species_dicts_ok (enumerate all_species) (fst r) (snd r)
                (List.length (reactants self)) [])
      as [parsed Hparsed].
    { intros i sp Hin. apply enumerate_index in Hin. simpl in Hlen. lia. }
    rewrite Hparsed. cbn [bind]. eexists; split; reflexivity.
  - right. split; [exact Hnot|]. rewrite He. cbn [bind]. eauto.
Qed.

(** The first species the formula counter rejects stops [_get_atom_count],
    with the counter's error. *)
Lemma count_species_first_error (before : list string) (sp : string) (after : list string)
  (species_counts : list counts) (all : dict unit) (e : exn) :
  Forall (fun formula => exists cs, atom_count_in_formula formula = Ok cs) before ->
  atom_count_in_formula sp = Raise e ->
  count_species (before ++ sp :: after) species_counts all = Raise e.
Proof.
  intros Hbefore Hsp. revert species_counts all.
  induction Hbefore as [|f before [cs Hf] _ IH]; intros species_counts all;
    cbn [app count_species].
  - rewrite Hsp. reflexivity.
  - rewrite Hf. cbn [bind]. apply IH.
Qed.

(** The errors of the formula counter on an empty and on a suspicious
    formula. *)
Lemma rejected_error (formula : string) (e : exn) :
  atom_count_in_formula formula = Raise e ->
  (formula = EmptyString -> e = IndexError) /\
  (suspicious formula ->
   e = InvalidFormula formula (replace "1" "I" (replace "0" "O" formula))).
Proof.
  intros He. split.
  - intros ->. vm_compute in He. congruence.
  - intros Hs. rewrite <- suggest_replaces.
    unfold atom_count_in_formula, atom_count_rec, bind in He.
    destruct (validate_formula_cases formula) as [[-> _]|[[_ Hv]|[Hn _]]].
    + destruct Hs as (l & Hl & _). discriminate.
    + rewrite Hv in He. congruence.
    + exfalso. apply Hn. right. exact Hs.
Qed.
(** C7, as the code has it: the parser raises the invalid-equation error
    exactly when the stripped text does not have exactly one separator.  A
    side never splits into zero species: an empty side is one empty species.
    With one separator, and a text of ASCII characters, middle dots and
    arrows, the parser returns exactly when the formula counter accepts
    every species; otherwise it fails with the error of the first species
    the counter rejects: an index error for an empty species, the
    suspicious-formula error for a suspicious one. *)
Theorem C7_equation_parser_failures (equation : string) :
  (equation_parser new_parser equation = Raise InvalidEquation <->
   count_separators (strip equation) <> 1%nat) /\
  (count_separators (strip equation) = 1%nat ->
   exists lhs rhs,
     re_split (strip equation) = [lhs; rhs] /\
     split "+" lhs <> [] /\ split "+" rhs <> [] /\
     let all_species := map strip (split "+" lhs) ++ map strip (split "+" rhs) in
     (plain_text equation = true ->
      ((exists parser, equation_parser new_parser equation = Ok parser /\
                       chem_species parser = all_species) <->
       Forall (fun formula => exists cs, atom_count_in_formula formula = Ok cs)
         all_species) /\
      (forall before sp after e,
         all_species = before ++ sp :: after ->
         Forall (fun formula => exists cs, atom_count_in_formula formula = Ok cs) before ->
         atom_count_in_formula sp = Raise e ->
         equation_parser new_parser equation = Raise e /\
         (sp = EmptyString -> e = IndexError) /\
         (suspicious sp ->
          e = InvalidFormula sp (replace "1" "I" (replace "0" "O" sp)))))).
Proof.
  pose proof (re_split_length (strip equation)) as Hlen.
  unfold equation_parser.
  destruct (re_split (strip equation)) as [|lhs [|rhs [|third more]]] eqn:Hsplit;
    simpl in Hlen.
  - discriminate.
  - split; [split; [lia | reflexivity] | lia].
  - set (self := {| reactants := map strip (split "+" lhs);
                    products := map strip (split "+" rhs);
                    chem_species := map strip (split "+" lhs) ++ map strip (split "+" rhs);
                    chem_species_counts := chem_species_counts new_parser;
                    all_elements := all_elements new_parser;
                    parsed_chem_eq := parsed_chem_eq new_parser |}).
    assert (Hfirst : forall before sp after e,
              map strip (split "+" lhs) ++ map strip (split "+" rhs) = before ++ sp :: after ->
              Forall (fun formula => exists cs, atom_count_in_formula formula = Ok cs) before ->
              atom_count_in_formula sp = Raise e ->
              (self' <- _get_atom_count self ;; _get_species_dicts self') = Raise e /\
              (sp = EmptyString -> e = IndexError) /\
              (suspicious sp ->
               e = InvalidFormula sp (replace "1" "I" (replace "0" "O" sp)))).
    { intros before sp after e Hsp Hbefore He.
      split; [|exact (rejected_error sp e He)].
      unfold _get_atom_count. cbn [chem_species self]. rewrite Hsp.
      rewrite (count_species_first_error before sp after [] [] e Hbefore He).
      reflexivity. }
    destruct (parse_sides self _ eq_refl)
      as [[Hall (parser & Hp & Hsp)]|[Hnot (e & He & Hkind)]].
    + rewrite Hp. split; [split; [discriminate | lia]|].
      intros _. exists lhs, rhs. split; [reflexivity|].
      split; [apply split_from_nonempty|]. split; [apply split_from_nonempty|].
      cbv zeta. intros _. split; [split; [intros _; exact Hall | intros _; eauto]|].
      rewrite <- Hp. exact Hfirst.
    + rewrite He. split.
      * split; [|lia]. intros [= ->]. destruct Hkind as [?|(? & ? & ?)]; discriminate.
      * intros _. exists lhs, rhs. split; [reflexivity|].
        split; [apply split_from_nonempty|]. split; [apply split_from_nonempty|].
        cbv zeta. intros _.
        split; [split; [intros (parser & Hp & _); discriminate | contradiction]|].
        rewrite <- He. exact Hfirst.
  - split; [split; [lia | reflexivity] | lia].
Qed.

(** C7 as stated fails: a text with one separator and a species on each
    side is not parsed when a formula is suspicious, and a text with an empty
    side fails with an index error, not with the invalid-equation error. *)
Lemma C7_formula_error_counterexample :
  count_separators (strip "H20 -> H2O") = 1%nat /\
  equation_parser new_parser "H20 -> H2O" = Raise (InvalidFormula "H20" "H2O") /\
  count_separators (strip "H2 ->") = 1%nat /\
  equation_parser new_parser "H2 ->" = Raise IndexError.
Proof. repeat split. Qed.

(** ** The bounds of the loops

    Each loop over a text stops before its bound on the iterations is used
    up: any bound that is at least the length of the text gives the same
    result. *)

Lemma span_length (p : ascii -> bool) (s : string) :
  (String.length (snd (span p s)) <= String.length s)%nat.
Proof.
  induction s as [|c s IH]; simpl; [lia|].
  destruct (p c); [|simpl; lia].
  destruct (span p s) as [run rest]; simpl in *; lia.
Qed.

Lemma read_number_length (acc : Z) (s : string) :
  (String.length (snd (read_number acc s)) <= String.length s)%nat.
Proof.
  revert acc; induction s as [|c s IH]; intros acc; simpl; [lia|].
  destruct (isdigit c); [|simpl; lia].
  specialize (IH (acc * 10 + int_of_digit c)%Z). lia.
Qed.

Lemma collect_elements_bound (fuel fuel' : nat) (s : string) (elements : list string) :
  (String.length s <= fuel)%nat -> (String.length s <= fuel')%nat ->
  collect_elements fuel s elements = collect_elements fuel' s elements.
Proof.
  revert fuel' s elements; induction fuel as [|fuel IH]; intros [|fuel'] [|c s] elements H H';
    simpl in *; try lia; try reflexivity.
  destruct (isupper c); [|apply IH; lia].
  pose proof (span_length islower s) as Hspan.
  destruct (span islower s) as [lows rest]; simpl in Hspan. apply IH; lia.
Qed.

Lemma scan_bound (fuel fuel' : nat) (s : string) (stack : list counts) (current : counts) :
  (String.length s <= fuel)%nat -> (String.length s <= fuel')%nat ->
  scan fuel s stack current = scan fuel' s stack current.
Proof.
  revert fuel' s stack current; induction fuel as [|fuel IH];
    intros [|fuel'] [|c s] stack current H H'; simpl in *; try lia; try reflexivity.
  destruct (Ascii.eqb c "("); [apply IH; lia|].
  destruct (Ascii.eqb c ")").
  { pose proof (read_number_length 0 s) as Hnum.
    destruct (read_number 0 s) as [m rest]; simpl in Hnum.
    destruct stack; apply IH; lia. }
  destruct (isupper c); [|apply IH; lia].
  pose proof (span_length islower s) as Hspan.
  destruct (span islower s) as [lows rest]; simpl in Hspan.
  pose proof (read_number_length 0 rest) as Hnum.
  destruct (read_number 0 rest) as [count_num rest']; simpl in Hnum.
  apply IH; lia.
Qed.

Lemma split_from_bound (sep : string) (fuel fuel' : nat) (s field : string) :
  sep <> EmptyString ->
  (String.length s <= fuel)%nat -> (String.length s <= fuel')%nat ->
  split_from fuel sep s field = split_from fuel' sep s field.
Proof.
  intros Hsep. revert fuel' s field; induction fuel as [|fuel IH];
    intros [|fuel'] [|c s] field H H'; cbn [split_from]; simpl in H, H'; try lia;
    try reflexivity; try (rewrite append_nil; reflexivity).
  destruct (startswith sep (String c s)).
  - f_equal. apply IH; rewrite drop_length; destruct sep; try congruence; simpl; lia.
  - apply IH; lia.
Qed.

Lemma re_split_from_bound (fuel fuel' : nat) (s field : string) :
  (String.length s <= fuel)%nat -> (String.length s <= fuel')%nat ->
  re_split_from fuel s field = re_split_from fuel' s field.
Proof.
  revert fuel' s field; induction fuel as [|fuel IH]; intros [|fuel'] s field H H'.
  - reflexivity.
  - destruct s; simpl in H; [|lia]. simpl. rewrite append_nil. reflexivity.
  - destruct s; simpl in H'; [|lia]. simpl. rewrite append_nil. reflexivity.
  - cbn [re_split_from]. unfold match_pattern.
    destruct (match_separator (lstrip s)) as [rest|] eqn:Hsep.
    + apply match_separator_some in Hsep. destruct Hsep as [_ Hshort].
      pose proof (lstrip_length s). pose proof (lstrip_length rest).
      f_equal. apply IH; lia.
    + destruct s as [|c s]; [reflexivity|]. simpl in H, H'. apply IH; lia.
Qed.

(** ** What the formula counter returns *)

Lemma span_every (p : ascii -> bool) (s : string) : every p (fst (span p s)) = true.
Proof.
  induction s as [|c s IH]; simpl; [reflexivity|].
  destruct (p c) eqn:Hc; [|reflexivity].
  destruct (span p s) as [run rest]; simpl in *. rewrite Hc, IH. reflexivity.
Qed.

Lemma read_number_nonneg (acc : Z) (s : string) :
  (0 <= acc)%Z -> (0 <= fst (read_number acc s))%Z.
Proof.
  revert acc; induction s as [|c s IH]; intros acc Hacc; simpl; [exact Hacc|].
  destruct (isdigit c); [|exact Hacc].
  apply IH. unfold int_of_digit. lia.
Qed.

Lemma add_count_keys (d : counts) (k : string) (v : Z) (x : string) :
  In x (keys (add_count d k v)) <-> In x (keys d) \/ x = k.
Proof.
  induction d as [|[k' v'] d IH]; simpl.
  - split; [intros [<- | []]; auto | intros [[] | ->]; auto].
  - destruct (String.eqb_spec k' k) as [->|Hne]; simpl.
    + split; [auto | intros [H| ->]; auto].
    + rewrite IH. tauto.
Qed.

Lemma add_count_well_formed (d : counts) (k : string) (v : Z) :
  well_formed d -> is_symbol k = true -> (1 <= v)%Z -> well_formed (add_count d k v).
Proof.
  intros [Hnd Hall] Hk Hv. induction d as [|[k' v'] d IH]; simpl.
  - split; [repeat constructor; simpl; tauto | repeat constructor; simpl; [exact Hk | lia]].
  - simpl in Hnd. inversion Hnd as [|? ? Hnotin Hnd']; subst.
    inversion Hall as [|? ? [Hk' Hv'] Hall']; subst. simpl in *.
    destruct (String.eqb_spec k' k) as [->|Hne].
    + split; [exact Hnd|]. constructor; [simpl; split; [exact Hk' | lia] | exact Hall'].
    + destruct (IH Hnd' Hall') as [IHnd IHall].
      split; [|constructor; [simpl; auto | exact IHall]].
      simpl. constructor; [|exact IHnd].
      rewrite add_count_keys. intros [H| ->]; [contradiction | congruence].
Qed.

Lemma merge_scaled_well_formed (dst src : counts) (multiplier : Z) :
  well_formed dst -> well_formed src -> (1 <= multiplier)%Z ->
  well_formed (merge_scaled dst src multiplier).
Proof.
  intros Hdst [_ Hsrc] Hm. unfold merge_scaled.
  revert dst Hdst; induction Hsrc as [|[k v] src [Hk Hv] _ IH]; intros dst Hdst; simpl;
    [exact Hdst|].
  apply IH. simpl in *. apply add_count_well_formed; [exact Hdst | exact Hk | nia].
Qed.

Lemma merge_well_formed (dst src : counts) :
  well_formed dst -> well_formed src -> well_formed (merge dst src).
Proof.
  intros Hdst [_ Hsrc]. unfold merge.
  revert dst Hdst; induction Hsrc as [|[k v] src [Hk Hv] _ IH]; intros dst Hdst; simpl;
    [exact Hdst|].
  apply IH. simpl in *. apply add_count_well_formed; assumption.
Qed.

Lemma empty_well_formed : well_formed [].
Proof. split; constructor. Qed.

(** The scanner keeps its accumulators well formed. *)
Lemma scan_well_formed (fuel : nat) (s : string) (stack : list counts) (current : counts) :
  well_formed current -> Forall well_formed stack ->
  well_formed (scan fuel s stack current).
Proof.
  revert s stack current; induction fuel as [|fuel IH]; intros s stack current Hc Hs;
    simpl; [exact Hc|].
  destruct s as [|c s]; [exact Hc|].
  destruct (Ascii.eqb c "(").
  { apply IH; [apply empty_well_formed | constructor; assumption]. }
  destruct (Ascii.eqb c ")").
  { pose proof (read_number_nonneg 0 s (Z.le_refl 0)) as Hm.
    destruct (read_number 0 s) as [m rest]; simpl in Hm.
    destruct stack as [|top below]; [apply IH; assumption|].
    inversion Hs; subst. apply IH; [|assumption].
    apply merge_scaled_well_formed; [assumption | assumption|].
    destruct (Z.eqb_spec m 0); lia. }
  destruct (isupper c) eqn:Hupper; [|apply IH; assumption].
  pose proof (span_every islower s) as Hlows.
  destruct (span islower s) as [lows rest]; simpl in Hlows.
  pose proof (read_number_nonneg 0 rest (Z.le_refl 0)) as Hn.
  destruct (read_number 0 rest) as [count_num rest']; simpl in Hn.
  apply IH; [|assumption].
  apply add_count_well_formed; [assumption | simpl; rewrite Hupper, Hlows; reflexivity|].
  destruct (Z.eqb_spec count_num 0); lia.
Qed.

Lemma sum_parts_well_formed (count : string -> result counts) (parts : list string)
  (acc d : counts) :
  (forall part cs, count part = Ok cs -> well_formed cs) ->
  well_formed acc -> sum_parts count parts acc = Ok d -> well_formed d.
Proof.
  intros Hcount. revert acc; induction parts as [|part parts IH]; intros acc Hacc; simpl.
  - intros [= <-]. exact Hacc.
  - destruct (count part) as [cs|e] eqn:Hpart; simpl; [|discriminate].
    apply IH. apply merge_well_formed; [exact Hacc | eapply Hcount, Hpart].
Qed.

Lemma atom_count_rec_well_formed (depth : nat) (formula : string) (d : counts) :
  atom_count_rec depth formula = Ok d -> well_formed d.
Proof.
  revert formula d; induction depth as [|depth IH]; intros formula d; cbn [atom_count_rec];
    destruct (validate_formula formula); simpl; try discriminate;
    destruct (contains middle_dot formula).
  - intros [= <-]. apply empty_well_formed.
  - intros [= <-]. apply scan_well_formed; [apply empty_well_formed | constructor].
  - apply sum_parts_well_formed; [exact IH | apply empty_well_formed].
  - intros [= <-]. apply scan_well_formed; [apply empty_well_formed | constructor].
Qed.

(** X1: every count the formula counter returns is at least one: an element
    is listed only if the formula has an atom of it. *)
Theorem X1_counts_positive (formula : string) (d : counts) :
  atom_count_in_formula formula = Ok d ->
  Forall (fun kv => (1 <= snd kv)%Z) d.
Proof.
  intros H. apply atom_count_rec_well_formed in H. destruct H as [_ H].
  eapply Forall_impl; [|exact H]. intros kv [_ Hv]; exact Hv.
Qed.

Lemma X1_counts_positive_witness :
  atom_count_in_formula "Al2(SO4)3" = Ok [("Al", 2%Z); ("S", 3%Z); ("O", 12%Z)] /\
  Forall (fun kv => (1 <= snd kv)%Z) [("Al", 2%Z); ("S", 3%Z); ("O", 12%Z)].
Proof.
  split; [reflexivity|].
  apply (X1_counts_positive "Al2(SO4)3"). reflexivity.
Defined.

(** X3: every key the formula counter returns is an element symbol: one
    uppercase letter followed by lowercase letters only, whatever other
    characters the formula has. *)
Theorem X3_keys_are_symbols (formula : string) (d : counts) :
  atom_count_in_formula formula = Ok d ->
  Forall (fun k => is_symbol k = true) (keys d).
Proof.
  intros H. apply atom_count_rec_well_formed in H. destruct H as [_ H].
  unfold keys. rewrite Forall_map.
  eapply Forall_impl; [|exact H]. intros kv [Hk _]; exact Hk.
Qed.

Lemma X3_keys_are_symbols_witness :
  atom_count_in_formula "Na2 [B4 O5(OH)4].8H2O" =
    Ok [("Na", 2%Z); ("B", 4%Z); ("O", 10%Z); ("H", 6%Z)] /\
  Forall (fun k => is_symbol k = true) ["Na"; "B"; "O"; "H"].
Proof.
  split; [reflexivity|].
  apply (X3_keys_are_symbols "Na2 [B4 O5(OH)4].8H2O"
           [("Na", 2%Z); ("B", 4%Z); ("O", 10%Z); ("H", 6%Z)]). reflexivity.
Defined.

(** ** Dictionaries: what [lookup] finds after [setitem] *)

Section Dictionaries.
Context {V : Type}.

Lemma lookup_setitem (d : dict V) (k k' : string) (v : V) :
  lookup k (setitem d k' v) = if String.eqb k' k then Some v else lookup k d.
Proof.
  induction d as [|[k0 v0] d IH]; simpl.
  - destruct (String.eqb k' k); reflexivity.
  - destruct (String.eqb_spec k0 k') as [->|Hne]; simpl.
    + destruct (String.eqb k' k); reflexivity.
    + rewrite IH. destruct (String.eqb_spec k0 k) as [->|Hne'].
      * destruct (String.eqb_spec k' k) as [->|_]; [congruence | reflexivity].
      * reflexivity.
Qed.

Lemma lookup_none (d : dict V) (k : string) :
  lookup k d = None <-> ~ In k (keys d).
Proof.
  induction d as [|[k0 v0] d IH]; simpl; [tauto|].
  destruct (String.eqb_spec k0 k) as [->|Hne].
  - split; [discriminate | tauto].
  - rewrite IH. tauto.
Qed.

Lemma keys_setitem_new (d : dict V) (k : string) (v : V) :
  lookup k d = None -> keys (setitem d k v) = keys d ++ [k].
Proof.
  induction d as [|[k0 v0] d IH]; simpl; [reflexivity|].
  destruct (String.eqb_spec k0 k) as [->|Hne]; [discriminate|].
  intros H. simpl. rewrite (IH H). reflexivity.
Qed.

(** A dictionary filled key by key holds, for every key given, the value
    computed for it. *)
Lemma lookup_filled (f : string -> V) (l : list string) (d : dict V) (k : string) :
  lookup k (fold_left (fun d el => setitem d el (f el)) l d) =
  if existsb (String.eqb k) l then Some (f k) else lookup k d.
Proof.
  revert d; induction l as [|el l IH]; intros d; simpl; [reflexivity|].
  rewrite IH, lookup_setitem.
  destruct (existsb (String.eqb k) l); [rewrite orb_true_r; reflexivity|].
  rewrite orb_false_r, String.eqb_sym.
  destruct (String.eqb_spec k el) as [->|_]; reflexivity.
Qed.

End Dictionaries.

Lemma existsb_eqb_in (k : string) (l : list string) :
  existsb (String.eqb k) l = true <-> In k l.
Proof.
  rewrite existsb_exists. split.
  - intros (x & Hin & Heq). apply String.eqb_eq in Heq. subst. exact Hin.
  - intros Hin. exists k. split; [exact Hin | apply String.eqb_refl].
Qed.

(** ** What the equation parser holds after a successful call *)

Lemma combine_seq_app {A : Type} (l l' : list A) (a : nat) :
  combine (seq a (List.length l + List.length l')) (l ++ l') =
  combine (seq a (List.length l)) l ++ combine (seq (a + List.length l) (List.length l')) l'.
Proof.
  revert a; induction l as [|x l IH]; intros a; simpl.
  - rewrite Nat.add_0_r. reflexivity.
  - rewrite IH. rewrite <- Nat.add_succ_comm. reflexivity.
Qed.

Lemma combine_seq_nth {A : Type} (l : list A) (a n i : nat) (x : A) :
  In (i, x) (combine (seq a n) l) -> (a <= i)%nat /\ nth_error l (i - a) = Some x.
Proof.
  revert a n; induction l as [|y l IH]; intros a [|n]; simpl; try tauto.
  intros [[= <- <-]|Hin].
  - rewrite Nat.sub_diag. split; [lia | reflexivity].
  - destruct (IH _ _ Hin) as [Hle Hnth]. split; [lia|].
    replace (i - a)%nat with (S (i - S a)) by lia. exact Hnth.
Qed.

Lemma enumerate_nth {A : Type} (l : list A) (i : nat) (x : A) :
  In (i, x) (enumerate l) -> nth_error l i = Some x.
Proof.
  intros H. apply combine_seq_nth in H. rewrite Nat.sub_0_r in H. apply H.
Qed.

Lemma Forall2_nth {A B : Type} (R : A -> B -> Prop) (l : list A) (l' : list B)
  (i : nat) (x : A) :
  Forall2 R l l' -> nth_error l i = Some x -> exists y, nth_error l' i = Some y /\ R x y.
Proof.
  intros H; revert i; induction H as [|a b l l' Hab _ IH]; intros [|i]; simpl; try discriminate.
  - intros [= <-]. eauto.
  - apply IH.
Qed.

(** [_get_atom_count] appends the counts of the species, in order, and
    notes their elements. *)
Lemma count_species_spec (species : list string) (species_counts : list counts)
  (all : dict unit) (r : list counts * dict unit) :
  count_species species species_counts all = Ok r ->
  exists new,
    fst r = species_counts ++ new /\
    Forall2 (fun sp cs => atom_count_in_formula sp = Ok cs) species new /\
    snd r = fold_left note_elements new all.
Proof.
  revert species_counts all; induction species as [|sp species IH];
    intros species_counts all; cbn [count_species].
  - intros [= <-]. exists []. rewrite app_nil_r. repeat split. constructor.
  - destruct (atom_count_in_formula sp) as [cs|e] eqn:Hsp; cbn [bind]; [|discriminate].
    intros H. destruct (IH _ _ H) as (new & Hfst & Hall & Hsnd).
    exists (cs :: new). rewrite Hfst, <- app_assoc. repeat split; [|exact Hsnd].
    constructor; assumption.
Qed.

Lemma note_elements_keys (all : dict unit) (cs : counts) :
  NoDup (keys all) ->
  NoDup (keys (note_elements all cs)) /\
  forall e, In e (keys (note_elements all cs)) <-> In e (keys all) \/ In e (keys cs).
Proof.
  unfold note_elements. generalize (keys cs) as l.
  intros l; revert all; induction l as [|k l IH]; intros all Hnd; simpl.
  - split; [exact Hnd | tauto].
  - destruct (lookup k all) as [[]|] eqn:Hk.
    + destruct (IH all Hnd) as [Hnd' Hin]. split; [exact Hnd'|].
      intros e. rewrite Hin.
      assert (In k (keys all)).
      { destruct (in_dec string_dec k (keys all)) as [H|H]; [exact H|].
        apply lookup_none in H. congruence. }
      split; [tauto | intros [H'|[<-|H']]; tauto].
    + assert (Hkeys : keys (setitem all k tt) = keys all ++ [k])
        by (apply keys_setitem_new, Hk).
      destruct (IH (setitem all k tt)) as [Hnd' Hin].
      { rewrite Hkeys. apply NoDup_app; [exact Hnd | repeat constructor; simpl; tauto|].
        intros x Hx [<-|[]]. apply lookup_none in Hk. contradiction. }
      split; [exact Hnd'|]. intros e. rewrite Hin, Hkeys, in_app_iff. simpl. tauto.
Qed.

Lemma noted_elements (new : list counts) (all : dict unit) :
  NoDup (keys all) ->
  NoDup (keys (fold_left note_elements new all)) /\
  forall e, In e (keys (fold_left note_elements new all)) <->
            In e (keys all) \/ exists cs, In cs new /\ In e (keys cs).
Proof.
  revert all; induction new as [|cs new IH]; intros all Hnd; simpl.
  - split; [exact Hnd|]. intros e. split; [tauto | intros [H|(cs & [] & _)]; exact H].
  - destruct (note_elements_keys all cs Hnd) as [Hnd' Hin].
    destruct (IH _ Hnd') as [Hnd'' Hin']. split; [exact Hnd''|].
    intros e. rewrite Hin', Hin. split.
    + intros [[H|H]|(cs' & Hcs' & He)]; eauto.
    + intros [H|(cs' & [<-|Hcs'] & He)]; eauto.
Qed.

Lemma species_dict_lookup (all : dict unit) (cs : counts) (i num_reactants : nat)
  (e : string) :
  In e (keys all) ->
  lookup e (species_dict all cs i num_reactants) =
  Some (if (num_reactants <=? i)%nat then (get_count cs e * -1)%Z else get_count cs e).
Proof.
  intros He. unfold species_dict.
  pose proof (lookup_filled
                (fun element =>
                   if (num_reactants <=? i)%nat then (get_count cs element * -1)%Z
                   else get_count cs element)
                (keys all) [] e) as H.
  apply existsb_eqb_in in He. rewrite He in H. exact H.
Qed.

Lemma species_dicts_app (l l' : list (nat * string)) (species_counts : list counts)
  (all : dict unit) (n : nat) (parsed : dict (dict Z)) :
  species_dicts (l ++ l') species_counts all n parsed =
  (parsed' <- species_dicts l species_counts all n parsed ;;
   species_dicts l' species_counts all n parsed').
Proof.
  revert parsed; induction l as [|[i sp] l IH]; intros parsed; simpl; [reflexivity|].
  destruct (nth_error species_counts i); [apply IH | reflexivity].
Qed.

(** One run of [_get_species_dicts] over species that are all reactants or
    all products: each of them gets its column, the others keep theirs. *)
Lemma species_dicts_phase (b : bool) (indexed : list (nat * string))
  (species_counts : list counts) (all : dict unit) (n : nat) (parsed : dict (dict Z)) :
  (forall i sp, In (i, sp) indexed ->
     (n <=? i)%nat = b /\
     exists cs, nth_error species_counts i = Some cs /\ atom_count_in_formula sp = Ok cs) ->
  exists parsed',
    species_dicts indexed species_counts all n parsed = Ok parsed' /\
    forall sp,
      (In sp (map snd indexed) ->
       exists d, lookup sp parsed' = Some d /\
                 forall e, In e (keys all) ->
                           lookup e d = Some (if b then (atoms sp e * -1)%Z else atoms sp e)) /\
      (~ In sp (map snd indexed) -> lookup sp parsed' = lookup sp parsed).
Proof.
  revert parsed; induction indexed as [|[i sp0] indexed IH]; intros parsed Hall; simpl.
  - exists parsed. split; [reflexivity|]. intros sp. split; [contradiction | reflexivity].
  - destruct (Hall i sp0 (or_introl eq_refl)) as [Hb (cs & Hnth & Hcs)].
    rewrite Hnth.
    destruct (IH (setitem parsed sp0 (species_dict all cs i n))) as (parsed' & Hrun & Hcols).
    { intros j sp Hin. apply Hall. right; exact Hin. }
    exists parsed'. split; [exact Hrun|].
    intros sp. destruct (Hcols sp) as [Hin Hout].
    destruct (in_dec string_dec sp (map snd indexed)) as [Hrest|Hrest].
    + split; [intros _; apply Hin, Hrest | intros H; exfalso; apply H; right; exact Hrest].
    + rewrite (Hout Hrest), lookup_setitem. split.
      * intros [<-|H]; [|contradiction]. rewrite String.eqb_refl.
        eexists; split; [reflexivity|]. intros e He.
        rewrite (species_dict_lookup all cs i n e He), Hb.
        unfold atoms. rewrite Hcs. reflexivity.
      * intros H. destruct (String.eqb_spec sp0 sp) as [->|_]; [|reflexivity].
        exfalso. apply H. left; reflexivity.
Qed.

Lemma matrix_row_spec (parsed : dict (dict Z)) (e : string) (species : list string)
  (val : string -> Z) :
  (forall sp, In sp species ->
     exists d, lookup sp parsed = Some d /\ lookup e d = Some (val sp)) ->
  matrix_row parsed e species = Ok (map val species).
Proof.
  induction species as [|sp species IH]; intros H; simpl; [reflexivity|].
  destruct (H sp (or_introl eq_refl)) as (d & Hd & He). rewrite Hd, IH, He; [reflexivity|].
  intros sp' Hin. apply H. right; exact Hin.
Qed.

Lemma matrix_rows_spec (parsed : dict (dict Z)) (elements species : list string)
  (val : string -> string -> Z) :
  (forall e sp, In e elements -> In sp species ->
     exists d, lookup sp parsed = Some d /\ lookup e d = Some (val e sp)) ->
  matrix_rows parsed elements species =
  Ok (map (fun e => map (val e) species) elements).
Proof.
  induction elements as [|e elements IH]; intros H; simpl; [reflexivity|].
  rewrite (matrix_row_spec parsed e species (val e)), IH; [reflexivity| |].
  - intros e' sp He' Hsp. apply H; [right; exact He' | exact Hsp].
  - intros sp Hsp. apply H; [left; reflexivity | exact Hsp].
Qed.

(** The parser after a successful call, field by field. *)
Lemma equation_parser_ok (equation : string) (p : ChemEqParser) :
  equation_parser new_parser equation = Ok p ->
  exists lhs rhs,
    re_split (strip equation) = [lhs; rhs] /\
    reactants p = map strip (split "+" lhs) /\
    products p = map strip (split "+" rhs) /\
    chem_species p = reactants p ++ products p /\
    Forall2 (fun sp cs => atom_count_in_formula sp = Ok cs)
      (chem_species p) (chem_species_counts p) /\
    all_elements p = fold_left note_elements (chem_species_counts p) [] /\
    species_dicts (enumerate (chem_species p)) (chem_species_counts p) (all_elements p)
      (List.length (reactants p)) [] = Ok (parsed_chem_eq p).
Proof.
  unfold equation_parser.
  destruct (re_split (strip equation)) as [|lhs [|rhs [|third more]]]; try discriminate.
  unfold _get_atom_count. cbn [chem_species reactants products parsed_chem_eq].
  destruct (count_species _ [] []) as [r|e] eqn:Hcount; cbn [bind]; [|discriminate].
  apply count_species_spec in Hcount. destruct Hcount as (new & Hfst & Hall & Hsnd).
  simpl in Hfst. unfold _get_species_dicts.
  cbn [chem_species reactants products chem_species_counts all_elements].
  destruct (species_dicts _ _ _ _ []) as [parsed|e] eqn:Hdicts; cbn [bind]; [|discriminate].
  intros [= <-]. exists lhs, rhs.
  cbn [chem_species reactants products chem_species_counts all_elements parsed_chem_eq].
  rewrite Hfst in *. repeat split; try reflexivity; assumption.
Qed.

(** The columns [_get_species_dicts] leaves in [parsed_chem_eq]. *)
Lemma parsed_columns (equation : string) (p : ChemEqParser) :
  equation_parser new_parser equation = Ok p ->
  forall sp, In sp (chem_species p) ->
    exists d, lookup sp (parsed_chem_eq p) = Some d /\
              forall e, In e (keys (all_elements p)) ->
                        lookup e d = Some (signed_atoms (products p) sp e).
Proof.
  intros Hp. destruct (equation_parser_ok _ _ Hp)
    as (lhs & rhs & _ & _ & _ & Hsp & Hcounts & _ & Hdicts).
  set (rs := reactants p) in *. set (ps := products p) in *.
  rewrite Hsp in Hdicts, Hcounts |- *.
  assert (Hentry : forall i sp, In (i, sp) (enumerate (rs ++ ps)) ->
            exists cs, nth_error (chem_species_counts p) i = Some cs /\
                       atom_count_in_formula sp = Ok cs).
  { intros i sp Hin. apply enumerate_nth in Hin.
    exact (Forall2_nth _ _ _ _ _ Hcounts Hin). }
  unfold enumerate in Hdicts, Hentry. rewrite length_app, combine_seq_app in Hdicts, Hentry.
  rewrite species_dicts_app in Hdicts.
  destruct (species_dicts_phase false (combine (seq 0 (List.length rs)) rs)
              (chem_species_counts p) (all_elements p) (List.length rs) [])
    as (parsed1 & Hrun1 & Hcols1).
  { intros i sp Hin. split.
    - apply in_combine_l, in_seq in Hin. apply Nat.leb_gt. lia.
    - apply Hentry, in_or_app. left; exact Hin. }
  rewrite Hrun1 in Hdicts. cbn [bind] in Hdicts.
  destruct (species_dicts_phase true
              (combine (seq (0 + List.length rs) (List.length ps)) ps)
              (chem_species_counts p) (all_elements p) (List.length rs) parsed1)
    as (parsed2 & Hrun2 & Hcols2).
  { intros i sp Hin. split.
    - apply in_combine_l, in_seq in Hin. apply Nat.leb_le. lia.
    - apply Hentry, in_or_app. right; exact Hin. }
  rewrite Hrun2 in Hdicts. injection Hdicts as <-.
  assert (Hsnd : forall (l : list string) a, map snd (combine (seq a (List.length l)) l) = l).
  { induction l as [|x l IH]; intros a; simpl; [reflexivity | rewrite IH; reflexivity]. }
  intros sp Hin. unfold signed_atoms.
  destruct (Hcols2 sp) as [Hin2 Hout2]. rewrite Hsnd in Hin2, Hout2.
  destruct (existsb (String.eqb sp) ps) eqn:Hps.
  - apply existsb_eqb_in in Hps. exact (Hin2 Hps).
  - assert (Hnot : ~ In sp ps) by (intros H; apply existsb_eqb_in in H; congruence).
    rewrite (Hout2 Hnot).
    destruct (Hcols1 sp) as [Hin1 _]. rewrite Hsnd in Hin1.
    apply Hin1. apply in_app_or in Hin. tauto.
Qed.

Lemma lookup_in {V : Type} (d : dict V) (k : string) (v : V) :
  lookup k d = Some v -> In (k, v) d.
Proof.
  induction d as [|[k0 v0] d IH]; simpl; [discriminate|].
  destruct (String.eqb_spec k0 k) as [->|_]; [intros [= ->]; left; reflexivity | auto].
Qed.

(** In a well formed count an element is a key exactly when it has an atom. *)
Lemma well_formed_key (cs : counts) (e : string) :
  well_formed cs -> (In e (keys cs) <-> (1 <= get_count cs e)%Z).
Proof.
  intros [_ Hall]. unfold get_count.
  destruct (lookup e cs) as [n|] eqn:Hl.
  - split.
    + intros _. apply lookup_in in Hl. rewrite Forall_forall in Hall.
      apply (Hall _ Hl).
    + intros _. destruct (in_dec string_dec e (keys cs)) as [H|H]; [exact H|].
      apply lookup_none in H. congruence.
  - apply lookup_none in Hl. split; [contradiction | lia].
Qed.

Lemma atoms_nonneg (sp e : string) : (0 <= atoms sp e)%Z.
Proof.
  unfold atoms. destruct (atom_count_in_formula sp) as [cs|] eqn:Hsp; [|lia].
  apply atom_count_rec_well_formed in Hsp.
  destruct (in_dec string_dec e (keys cs)) as [H|H].
  - apply (well_formed_key cs e Hsp) in H. lia.
  - apply lookup_none in H. unfold get_count. rewrite H. lia.
Qed.

Lemma split_nonempty (sep s : string) : split sep s <> [].
Proof. apply split_from_nonempty. Qed.

(** What [get_matrix] returns after a successful parse. *)
Lemma get_matrix_after_parse (equation : string) (p : ChemEqParser) :
  equation_parser new_parser equation = Ok p ->
  get_matrix p =
    Ok {| matrix :=
            map (fun e => map (fun sp => signed_atoms (products p) sp e) (chem_species p))
              (keys (all_elements p));
          elements := keys (all_elements p);
          species := chem_species p |}.
Proof.
  intros Hp. pose proof (parsed_columns equation p Hp) as Hcols.
  destruct (equation_parser_ok _ _ Hp) as (lhs & rhs & _ & Hr & _ & Hsp & _).
  unfold get_matrix.
  destruct (parsed_chem_eq p) as [|entry parsed] eqn:Hparsed.
  - exfalso. destruct (chem_species p) as [|sp rest] eqn:Hspecies.
    + rewrite Hr in Hsp. destruct (split "+" lhs) eqn:Hsplit; [|discriminate].
      exact (split_nonempty _ _ Hsplit).
    + destruct (Hcols sp (or_introl eq_refl)) as (d & Hd & _). discriminate.
  - rewrite (matrix_rows_spec _ _ _ (fun e sp => signed_atoms (products p) sp e));
      [reflexivity|].
    intros e sp He Hin. destruct (Hcols sp Hin) as (d & Hd & Hentries).
    exists d. split; [exact Hd | apply Hentries, He].
Qed.

(** X4: after a successful parse [get_matrix] never raises, and its matrix
    has one row per element and one column per species; the entry is the
    number of atoms of the element in the species, negated when the text of
    the species is one of the products.  A species written on both sides has
    the negated column at both of its places. *)
Theorem X4_matrix_entries (equation : string) (p : ChemEqParser) :
  equation_parser new_parser equation = Ok p ->
  get_matrix p =
    Ok {| matrix :=
            map (fun e => map (fun sp => signed_atoms (products p) sp e) (chem_species p))
              (keys (all_elements p));
          elements := keys (all_elements p);
          species := chem_species p |}.
Proof. exact (get_matrix_after_parse equation p). Qed.

Lemma X4_matrix_entries_witness :
  exists p,
    equation_parser new_parser "H2O = H2 + O2" = Ok p /\
    get_matrix p =
      Ok {| matrix := [[2; -2; 0]; [1; 0; -2]]%Z; elements := ["H"; "O"];
            species := ["H2O"; "H2"; "O2"] |}.
Proof.
  destruct (equation_parser new_parser "H2O = H2 + O2") as [p|e] eqn:Hp;
    [|vm_compute in Hp; discriminate].
  exists p. split; [reflexivity|].
  rewrite (X4_matrix_entries "H2O = H2 + O2" p Hp).
  vm_compute in Hp. injection Hp as <-. vm_compute. reflexivity.
Defined.

(** X5: the rows of the matrix are the elements of the equation, each
    once: an element has a row exactly when some species has an atom of it. *)
Theorem X5_elements_of_equation (equation : string) (p : ChemEqParser) :
  equation_parser new_parser equation = Ok p ->
  NoDup (keys (all_elements p)) /\
  forall e, In e (keys (all_elements p)) <->
            exists sp, In sp (chem_species p) /\ (1 <= atoms sp e)%Z.
Proof.
  intros Hp. destruct (equation_parser_ok _ _ Hp)
    as (lhs & rhs & _ & _ & _ & _ & Hcounts & Hall & _).
  destruct (noted_elements (chem_species_counts p) [] (NoDup_nil _)) as [Hnd Hin].
  rewrite <- Hall in Hnd, Hin. split; [exact Hnd|].
  intros e. rewrite Hin. simpl.
  assert (Hal : forall sp cs, atom_count_in_formula sp = Ok cs ->
                  (In e (keys cs) <-> (1 <= atoms sp e)%Z)).
  { intros sp cs Hsp. unfold atoms. rewrite Hsp.
    apply well_formed_key. eapply atom_count_rec_well_formed, Hsp. }
  clear Hin Hall Hnd. split.
  - intros [[]|(cs & Hcs & He)].
    induction Hcounts as [|sp cs' species counts Hsp _ IH]; [destruct Hcs|].
    destruct Hcs as [->|Hcs].
    + exists sp. split; [left; reflexivity | apply (Hal sp cs Hsp), He].
    + destruct (IH Hcs) as (sp' & Hin' & Hat). exists sp'. split; [right|]; assumption.
  - intros (sp & Hsp & Hat). right.
    induction Hcounts as [|sp' cs species counts Hsp' _ IH]; [destruct Hsp|].
    destruct Hsp as [->|Hsp].
    + exists cs. split; [left; reflexivity | apply (Hal sp cs Hsp'), Hat].
    + destruct (IH Hsp) as (cs' & Hin' & He). exists cs'. split; [right|]; assumption.
Qed.

Lemma X5_elements_of_equation_witness :
  exists p,
    equation_parser new_parser "Fe + O2 -> Fe2O3" = Ok p /\
    keys (all_elements p) = ["Fe"; "O"] /\
    NoDup (keys (all_elements p)) /\
    forall e, In e (keys (all_elements p)) <->
              exists sp, In sp (chem_species p) /\ (1 <= atoms sp e)%Z.
Proof.
  destruct (equation_parser new_parser "Fe + O2 -> Fe2O3") as [p|e] eqn:Hp;
    [|vm_compute in Hp; discriminate].
  exists p. split; [reflexivity|].
  split; [vm_compute in Hp; injection Hp as <-; reflexivity|].
  exact (X5_elements_of_equation "Fe + O2 -> Fe2O3" p Hp).
Defined.

(** X6: after a successful parse the species are the reactants followed by
    the products, neither side is empty, and the parser holds the formula
    counter's result for every species, in the order of the species. *)
Theorem X6_species_of_equation (equation : string) (p : ChemEqParser) :
  equation_parser new_parser equation = Ok p ->
  chem_species p = reactants p ++ products p /\
  reactants p <> [] /\ products p <> [] /\
  Forall2 (fun sp cs => atom_count_in_formula sp = Ok cs)
    (chem_species p) (chem_species_counts p).
Proof.
  intros Hp. destruct (equation_parser_ok _ _ Hp)
    as (lhs & rhs & _ & Hr & Hps & Hsp & Hcounts & _).
  repeat split; try assumption.
  - rewrite Hr. intros H. apply map_eq_nil in H. exact (split_nonempty _ _ H).
  - rewrite Hps. intros H. apply map_eq_nil in H. exact (split_nonempty _ _ H).
Qed.

Lemma X6_species_of_equation_witness :
  exists p,
    equation_parser new_parser "C3H8 + O2 -> CO2 + H2O" = Ok p /\
    reactants p = ["C3H8"; "O2"] /\ products p = ["CO2"; "H2O"] /\
    chem_species p = reactants p ++ products p /\
    reactants p <> [] /\ products p <> [] /\
    Forall2 (fun sp cs => atom_count_in_formula sp = Ok cs)
      (chem_species p) (chem_species_counts p).
Proof.
  destruct (equation_parser new_parser "C3H8 + O2 -> CO2 + H2O") as [p|e] eqn:Hp;
    [|vm_compute in Hp; discriminate].
  exists p. split; [reflexivity|].
  split; [vm_compute in Hp; injection Hp as <-; reflexivity|].
  split; [vm_compute in Hp; injection Hp as <-; reflexivity|].
  exact (X6_species_of_equation "C3H8 + O2 -> CO2 + H2O" p Hp).
Defined.

(** X7: the signs of the matrix: the column of a species whose text is
    among the products has no positive entry, the column of any other species
    no negative one. *)
Theorem X7_matrix_signs (equation : string) (p : ChemEqParser) (data : matrix_data) :
  equation_parser new_parser equation = Ok p ->
  get_matrix p = Ok data ->
  Forall (fun r =>
            Forall2 (fun sp a =>
                       if existsb (String.eqb sp) (products p) then (a <= 0)%Z else (0 <= a)%Z)
              (species data) r)
    (matrix data).
Proof.
  intros Hp Hdata. rewrite (get_matrix_after_parse equation p Hp) in Hdata.
  injection Hdata as <-. cbn [matrix species].
  apply Forall_map, Forall_forall. intros e _.
  induction (chem_species p) as [|sp l IH]; simpl; constructor; [|exact IH].
  unfold signed_atoms. pose proof (atoms_nonneg sp e).
  destruct (existsb (String.eqb sp) (products p)); lia.
Qed.

Lemma X7_matrix_signs_witness :
  exists p data,
    equation_parser new_parser "Zn + HCl -> ZnCl2 + H2" = Ok p /\
    get_matrix p = Ok data /\
    matrix data = [[1; 0; -1; 0]; [0; 1; 0; -2]; [0; 1; -2; 0]]%Z /\
    Forall (fun r =>
              Forall2 (fun sp a =>
                         if existsb (String.eqb sp) (products p) then (a <= 0)%Z
                         else (0 <= a)%Z)
                (species data) r)
      (matrix data).
Proof.
  destruct (equation_parser new_parser "Zn + HCl -> ZnCl2 + H2") as [p|e] eqn:Hp;
    [|vm_compute in Hp; discriminate].
  destruct (get_matrix p) as [data|e] eqn:Hdata;
    [|vm_compute in Hp; injection Hp as <-; vm_compute in Hdata; discriminate].
  exists p, data. split; [reflexivity|]. split; [exact Hdata|].
  split; [vm_compute in Hp; injection Hp as <-; vm_compute in Hdata;
          injection Hdata as <-; reflexivity|].
  exact (X7_matrix_signs "Zn + HCl -> ZnCl2 + H2" p data Hp Hdata).
Defined.

(** ** What [get_stoic] returns *)

Lemma basis_vector_length (reduced : list row) (pivots : list nat) (n free_var : nat) :
  List.length (basis_vector reduced pivots n free_var) = n.
Proof.
  unfold basis_vector.
  assert (Hstart : List.length (update (repeat 0%Q n) free_var 1%Q) = n)
    by (rewrite update_length, repeat_length; reflexivity).
  revert Hstart. generalize (update (repeat 0%Q n) free_var 1%Q) as vec.
  induction (enumerate pivots) as [|pc pcs IH]; intros vec Hvec; simpl; [exact Hvec|].
  apply IH. rewrite update_length. exact Hvec.
Qed.

Lemma nullspace_length (A : list row) (vec : list Q) :
  In vec (nullspace A) -> List.length vec = cols A.
Proof.
  unfold nullspace. destruct (rref A) as [reduced pivots].
  rewrite in_map_iff. intros (free_var & <- & _). apply basis_vector_length.
Qed.

Lemma is_integer_inject (c : Z) : is_integer (inject_Z c) = true.
Proof.
  unfold is_integer. rewrite (Qcanon.Qred_identity (inject_Z c)); [reflexivity|].
  simpl. apply Z.gcd_1_r.
Qed.

Lemma all_positive_absolute (l : list Z) :
  forallb (fun z => 0 <? z)%Z l = true ->
  forallb (fun z => negb (z =? 0)%Z) l = true /\ map Z.abs l = l.
Proof.
  induction l as [|c l IH]; simpl; [auto|].
  intros H. apply andb_true_iff in H. destruct H as [Hc Hl].
  destruct (IH Hl) as [Hz Habs]. rewrite Hz, Habs.
  apply Z.ltb_lt in Hc. split; [|f_equal; lia].
  destruct (Z.eqb_spec c 0); [lia | reflexivity].
Qed.

Lemma some_zero (l : list Z) :
  forallb (fun z => 0 <? z)%Z l = false ->
  existsb (fun z => z <? 0)%Z l = false ->
  forallb (fun z => negb (z =? 0)%Z) l = false.
Proof.
  induction l as [|c l IH]; simpl; [discriminate|].
  intros Hp Hn. apply orb_false_iff in Hn. destruct Hn as [Hc Hn].
  apply Z.ltb_ge in Hc.
  destruct (Z.eqb_spec c 0) as [->|Hne]; [reflexivity|]. simpl.
  apply IH; [|exact Hn].
  destruct (Z.ltb_spec 0 c); [exact Hp | lia].
Qed.

Lemma absolute_nonzero (l : list Z) :
  forallb (fun z => 0 <? z)%Z (map Z.abs l) = forallb (fun z => negb (z =? 0)%Z) l.
Proof.
  induction l as [|c l IH]; simpl; [reflexivity|]. rewrite IH. f_equal.
  destruct (Z.ltb_spec 0 (Z.abs c)); destruct (Z.eqb_spec c 0); simpl; lia.
Qed.

(** On integers the balancer answers with the absolute values whenever no
    entry is zero, and with nothing otherwise. *)
Lemma final_coefficients_absolute (l : list Z) :
  final_coefficients (map inject_Z l) =
  if forallb (fun z => negb (z =? 0)%Z) l then Some (map Z.abs l) else None.
Proof.
  assert (Hint : forall l', map int (map inject_Z l') = l').
  { intros l'. rewrite map_map. rewrite <- (map_id l') at 2.
    apply map_ext. intros c. unfold int; simpl. apply Z.quot_1_r. }
  assert (Habs : map Qabs (map inject_Z l) = map inject_Z (map Z.abs l)).
  { rewrite !map_map. apply map_ext. reflexivity. }
  assert (Hpos : forall l', forallb (fun coeff => is_integer coeff && is_positive coeff)
                              (map inject_Z l') = forallb (fun z => 0 <? z)%Z l').
  { intros l'. induction l' as [|c l' IH]; simpl; [reflexivity|].
    rewrite IH, is_integer_inject. reflexivity. }
  assert (Hneg : forall l', existsb is_negative (map inject_Z l') =
                            existsb (fun z => z <? 0)%Z l').
  { intros l'. induction l' as [|c l' IH]; simpl; [reflexivity|]. rewrite IH. reflexivity. }
  unfold final_coefficients. rewrite Habs, !Hint, !Hpos, Hneg, absolute_nonzero.
  destruct (forallb (fun z => 0 <? z)%Z l) eqn:Hp.
  - destruct (all_positive_absolute l Hp) as [-> ->]. reflexivity.
  - destruct (existsb (fun z => z <? 0)%Z l) eqn:Hn; [reflexivity|].
    rewrite (some_zero l Hp Hn). reflexivity.
Qed.

Lemma Forall2_map_values {A B : Type} (R : A -> B -> Prop) (f : A -> B) (l : list A) :
  (forall x, In x l -> R x (f x)) -> Forall2 R l (map f l).
Proof.
  induction l as [|x l IH]; intros H; simpl; constructor.
  - apply H. left; reflexivity.
  - apply IH. intros y Hy. apply H. right; exact Hy.
Qed.

(** The runs of [get_stoic]: the parse fails, or the null space is empty, or
    the first vector of its basis is scaled to integers and judged. *)
Lemma get_stoic_runs (equation : string) :
  (exists e, equation_parser new_parser equation = Raise e /\
             get_stoic equation false = Ok (Coefficients None) /\
             get_stoic equation true = Ok (Work None None None None None None)) \/
  (exists p data,
     equation_parser new_parser equation = Ok p /\ get_matrix p = Ok data /\
     ((nullspace (Matrix (matrix data)) = [] /\
       get_stoic equation false = Ok (Coefficients None) /\
       get_stoic equation true = Ok (Work None (Some data) None None None None)) \/
      (exists vec basis ints,
         nullspace (Matrix (matrix data)) = vec :: basis /\
         Forall2 (fun v z => inject_Z z == v * inject_Z (lcm (map denom (map nsimplify vec))))
           vec ints /\
         let final := final_coefficients (map inject_Z ints) in
         get_stoic equation false = Ok (Coefficients final) /\
         get_stoic equation true =
           Ok (Work final (Some data) (Some vec) (Some (map nsimplify vec))
                 (Some (lcm (map denom (map nsimplify vec))))
                 (Some (map inject_Z ints)))))).
Proof.
  unfold get_stoic, get_stoic_body, try_except, bind.
  destruct (equation_parser new_parser equation) as [p|e] eqn:Hp; [|left; eauto].
  right. exists p. rewrite (get_matrix_after_parse equation p Hp).
  eexists. split; [reflexivity|]. split; [reflexivity|].
  cbn [matrix].
  destruct (nullspace _) as [|vec basis]; [left; auto|].
  right.
  assert (Hlcm : forall l, match l with [] => 1%Z | _ :: _ => lcm l end = lcm l)
    by (intros [|? ?]; reflexivity).
  rewrite Hlcm.
  pose proof (raw_coeffs_integers vec) as Hraw. cbv zeta in Hraw. rewrite Hraw.
  eexists vec, basis, _. split; [reflexivity|].
  split; [|cbv zeta; split; reflexivity].
  assert (Hvalue : forall v, In v vec ->
            inject_Z (Qnum (Qred v) *
                      (lcm (map denom (map nsimplify vec)) / Z.pos (Qden (Qred v)))) ==
            v * inject_Z (lcm (map denom (map nsimplify vec)))).
  { intros v Hv. rewrite <- raw_coeff_value by (apply lcm_divide, in_map, in_map, Hv).
    rewrite Qred_correct. unfold nsimplify. rewrite Qred_correct. reflexivity. }
  apply Forall2_map_values. exact Hvalue.
Qed.

(** X8: the coefficients [get_stoic] returns are positive, and there is one
    for every species of the equation. *)
Theorem X8_positive_coefficient_per_species (equation : string) (show_work : bool)
  (r : stoic) (cs : list Z) :
  get_stoic equation show_work = Ok r ->
  final_coeffs_of r = Some cs ->
  Forall (fun c => 0 < c)%Z cs /\
  exists p, equation_parser new_parser equation = Ok p /\
            List.length cs = List.length (chem_species p).
Proof.
  intros Hrun Hfinal.
  destruct (get_stoic_runs equation)
    as [(e & _ & Hf & Ht)|(p & data & Hp & Hdata & [(_ & Hf & Ht)|Hvec])].
  - destruct show_work; [rewrite Ht in Hrun | rewrite Hf in Hrun];
      injection Hrun as <-; discriminate.
  - destruct show_work; [rewrite Ht in Hrun | rewrite Hf in Hrun];
      injection Hrun as <-; discriminate.
  - destruct Hvec as (vec & basis & ints & Hbasis & Hlen & Hf & Ht). cbv zeta in Hf, Ht.
    assert (Hcs : final_coefficients (map inject_Z ints) = Some cs)
      by (destruct show_work; [rewrite Ht in Hrun | rewrite Hf in Hrun];
          injection Hrun as <-; exact Hfinal).
    destruct (final_coefficients_integers ints cs Hcs) as [Hval Hpos].
    split; [exact Hpos|]. exists p. split; [exact Hp|].
    assert (Hcols : List.length vec = cols (Matrix (matrix data)))
      by (apply nullspace_length; rewrite Hbasis; left; reflexivity).
    rewrite (get_matrix_after_parse equation p Hp) in Hdata. injection Hdata as <-.
    cbn [matrix] in *.
    assert (Hcs_len : List.length cs = List.length vec)
      by (destruct Hval as [-> | ->]; rewrite ?length_map; symmetry;
          eapply Forall2_length, Hlen).
    rewrite Hcs_len, Hcols.
    destruct (keys (all_elements p)) as [|e es]; [discriminate Hbasis|].
    simpl. rewrite !length_map. reflexivity.
Qed.

Lemma X8_positive_coefficient_per_species_witness :
  get_stoic "C3H8 + O2 -> CO2 + H2O" false = Ok (Coefficients (Some [1; 5; 3; 4]%Z)) /\
  Forall (fun c => 0 < c)%Z [1; 5; 3; 4]%Z /\
  exists p, equation_parser new_parser "C3H8 + O2 -> CO2 + H2O" = Ok p /\
            List.length [1; 5; 3; 4]%Z = List.length (chem_species p).
Proof.
  split; [vm_compute; reflexivity|].
  apply (X8_positive_coefficient_per_species "C3H8 + O2 -> CO2 + H2O" false
           (Coefficients (Some [1; 5; 3; 4]%Z)) [1; 5; 3; 4]%Z);
    vm_compute; reflexivity.
Defined.

Lemma is_integer_abs (c : Q) : is_integer (Qabs c) = is_integer c.
Proof.
  unfold is_integer. destruct c as [[|p|p] d]; try reflexivity.
  change (Qabs (Z.neg p # d)) with (- (Z.neg p # d))%Q.
  rewrite Qred_opp. reflexivity.
Qed.

Lemma is_positive_abs (c : Q) : is_positive (Qabs c) = negb (Qnum c =? 0)%Z.
Proof. destruct c as [[|p|p] d]; reflexivity. Qed.

Lemma int_abs (c : Q) : int (Qabs c) = Z.abs (int c).
Proof.
  unfold int. destruct c as [n d]. cbn [Qabs Qnum Qden].
  rewrite <- (Z.quot_abs n (Z.pos d)) by discriminate. reflexivity.
Qed.

Lemma int_positive (c : Q) : is_positive c = true -> Z.abs (int c) = int c.
Proof.
  unfold is_positive, int. intros H. apply Z.ltb_lt in H.
  apply Z.abs_eq. apply Z.quot_pos; lia.
Qed.

(** The choice of the coefficients, in one: the absolute values when every
    entry is an integer other than zero, nothing otherwise. *)
Lemma final_coefficients_cases (raw_coeffs : list Q) :
  final_coefficients raw_coeffs =
  if forallb (fun c => is_integer c && negb (Qnum c =? 0)%Z) raw_coeffs
  then Some (map (fun c => Z.abs (int c)) raw_coeffs)
  else None.
Proof.
  unfold final_coefficients.
  assert (Habs : forallb (fun coeff => is_integer coeff && is_positive coeff)
                   (map Qabs raw_coeffs) =
                 forallb (fun c => is_integer c && negb (Qnum c =? 0)%Z) raw_coeffs).
  { induction raw_coeffs as [|c l IH]; cbn [map forallb]; [reflexivity|].
    rewrite IH, is_integer_abs, is_positive_abs. reflexivity. }
  assert (Hint : map int (map Qabs raw_coeffs) = map (fun c => Z.abs (int c)) raw_coeffs).
  { rewrite map_map. apply map_ext. apply int_abs. }
  destruct (forallb (fun coeff => is_integer coeff && is_positive coeff) raw_coeffs) eqn:Hpos.
  - assert (H : forallb (fun c => is_integer c && negb (Qnum c =? 0)%Z) raw_coeffs = true /\
                map int raw_coeffs = map (fun c => Z.abs (int c)) raw_coeffs).
    { clear Habs Hint. induction raw_coeffs as [|c l IH]; cbn [map forallb] in *; [auto|].
      apply andb_true_iff in Hpos. destruct Hpos as [Hc Hl].
      apply andb_true_iff in Hc. destruct Hc as [Hi Hp].
      destruct (IH Hl) as [IH1 IH2]. rewrite IH1, IH2, Hi, (int_positive c Hp).
      split; [|reflexivity].
      unfold is_positive in Hp. apply Z.ltb_lt in Hp.
      destruct (Z.eqb_spec (Qnum c) 0); [lia | reflexivity]. }
    destruct H as [-> ->]. reflexivity.
  - destruct (existsb is_negative raw_coeffs) eqn:Hneg.
    + rewrite Habs, Hint. reflexivity.
    + destruct (forallb (fun c => is_integer c && negb (Qnum c =? 0)%Z) raw_coeffs) eqn:Hnz;
        [|reflexivity].
      exfalso. clear Habs Hint.
      induction raw_coeffs as [|c l IH]; cbn [forallb existsb] in *; [discriminate|].
      apply andb_true_iff in Hnz. destruct Hnz as [Hc Hl].
      apply andb_true_iff in Hc. destruct Hc as [Hi Hn].
      apply orb_false_iff in Hneg. destruct Hneg as [Hcn Hln].
      assert (Hp : is_positive c = true).
      { unfold is_positive, is_negative in *. apply Z.ltb_ge in Hcn.
        apply negb_true_iff in Hn. apply Z.eqb_neq in Hn. apply Z.ltb_lt. lia. }
      rewrite Hi, Hp in Hpos. cbn [andb] in Hpos. exact (IH Hl Hpos Hln).
Qed.

(** X9: the coefficients depend on the scaled vector alone, and not on its
    signs: they are its absolute values when every entry is an integer
    other than zero, and there are none when an entry is zero or no
    integer. *)
Theorem X9_absolute_values (equation : string) (final : option (list Z))
  (data : option matrix_data) (vec simplified_vec : option (list Q))
  (multiplier : option Z) (raw_coeffs : list Q) :
  get_stoic equation true =
    Ok (Work final data vec simplified_vec multiplier (Some raw_coeffs)) ->
  final = if forallb (fun c => is_integer c && negb (Qnum c =? 0)%Z) raw_coeffs
          then Some (map (fun c => Z.abs (int c)) raw_coeffs)
          else None.
Proof.
  intros Hrun.
  destruct (get_stoic_runs equation)
    as [(e & _ & _ & Ht)|(p & d & _ & _ & [(_ & _ & Ht)|Hvec])].
  - rewrite Ht in Hrun. discriminate.
  - rewrite Ht in Hrun. discriminate.
  - destruct Hvec as (v & basis & ints & _ & _ & _ & Ht). cbv zeta in Ht.
    rewrite Ht in Hrun. injection Hrun as <- _ _ _ _ <-.
    apply final_coefficients_cases.
Qed.

Lemma X9_absolute_values_witness :
  get_stoic "HO + H = O" true =
    Ok (Work (Some [1; 1; 1]%Z)
          (Some {| matrix := [[1; 1; 0]; [1; 0; -1]]%Z; elements := ["H"; "O"];
                   species := ["HO"; "H"; "O"] |})
          (Some [1; -1; 1]%Q) (Some [1; -1; 1]%Q) (Some 1%Z) (Some [1; -1; 1]%Q)) /\
  Some [1; 1; 1]%Z =
    if forallb (fun c => is_integer c && negb (Qnum c =? 0)%Z) [1; -1; 1]%Q
    then Some (map (fun c => Z.abs (int c)) [1; -1; 1]%Q)
    else None.
Proof.
  assert (H : get_stoic "HO + H = O" true =
    Ok (Work (Some [1; 1; 1]%Z)
          (Some {| matrix := [[1; 1; 0]; [1; 0; -1]]%Z; elements := ["H"; "O"];
                   species := ["HO"; "H"; "O"] |})
          (Some [1; -1; 1]%Q) (Some [1; -1; 1]%Q) (Some 1%Z) (Some [1; -1; 1]%Q)))
    by (vm_compute; reflexivity).
  split; [exact H|].
  exact (X9_absolute_values _ _ _ _ _ _ _ H).
Defined.

(** X10: the two ways of calling [get_stoic] agree on the coefficients, and
    with [show_work] the matrix data is missing exactly when the equation
    could not be parsed, which is what [show_work] tells a parse failure
    by. *)
Theorem X10_show_work_agrees (equation : string) :
  exists final data vec simplified_vec multiplier raw_coeffs,
    get_stoic equation false = Ok (Coefficients final) /\
    get_stoic equation true =
      Ok (Work final data vec simplified_vec multiplier raw_coeffs) /\
    (data = None <-> exists e, equation_parser new_parser equation = Raise e).
Proof.
  destruct (get_stoic_runs equation)
    as [(e & He & Hf & Ht)|(p & data & Hp & _ & [(_ & Hf & Ht)|Hvec])].
  - do 6 eexists. split; [exact Hf|]. split; [exact Ht|]. split; eauto.
  - do 6 eexists. split; [exact Hf|]. split; [exact Ht|].
    split; [discriminate | intros [e He]; congruence].
  - destruct Hvec as (v & basis & ints & _ & _ & Hf & Ht). cbv zeta in Hf, Ht.
    do 6 eexists. split; [exact Hf|]. split; [exact Ht|].
    split; [discriminate | intros [e He]; congruence].
Qed.

(** ** The vectors of [nullspace] solve the system *)

Lemma Qdot_nil_r (r : list Q) : Qdot r [] = 0.
Proof. destruct r; reflexivity. Qed.

Lemma entry_scale (p : Q) (r : row) (c : nat) : entry (scale p r) c == entry r c / p.
Proof.
  unfold entry, scale. revert c; induction r as [|a r IH]; intros [|c]; cbn [nth map];
    try (unfold Qdiv; ring); [apply Qred_correct | apply IH].
Qed.

Lemma entry_eliminate (j : nat) (prow r : row) (c : nat) :
  List.length r = List.length prow ->
  entry (eliminate j prow r) c == entry r c - entry r j * entry prow c.
Proof.
  unfold eliminate. generalize (entry r j) as k. intros k.
  unfold entry. revert prow c; induction r as [|a r IH]; intros [|b prow] [|c] Hlen;
    cbn [nth map combine fst snd List.length] in *; try discriminate; try ring.
  - apply Qred_correct.
  - apply IH. lia.
Qed.

Lemma scale_length (p : Q) (r : row) : List.length (scale p r) = List.length r.
Proof. apply length_map. Qed.

Lemma eliminate_length (j : nat) (prow r : row) :
  List.length r = List.length prow -> List.length (eliminate j prow r) = List.length r.
Proof.
  intros H. unfold eliminate. rewrite length_map, length_combine. lia.
Qed.

Lemma Qdot_scale (p : Q) (r : row) (x : list Q) :
  Qdot (scale p r) x == Qdot r x / p.
Proof.
  unfold scale. revert x; induction r as [|a r IH]; intros [|b x]; cbn [map Qdot];
    try (unfold Qdiv; ring).
  rewrite IH, Qred_correct. unfold Qdiv. ring.
Qed.

Lemma Qdot_eliminate (j : nat) (prow r : row) (x : list Q) :
  List.length r = List.length prow ->
  Qdot (eliminate j prow r) x == Qdot r x - entry r j * Qdot prow x.
Proof.
  unfold eliminate. generalize (entry r j) as k. intros k.
  revert prow x; induction r as [|a r IH]; intros [|b prow] [|y x] Hlen;
    cbn [map combine Qdot fst snd List.length] in *; try discriminate; try ring.
  rewrite IH by lia. rewrite Qred_correct. ring.
Qed.

Lemma Qdot_update (r vec : list Q) (c : nat) (v : Q) :
  List.length r = List.length vec ->
  Qdot r (update vec c v) == Qdot r vec + entry r c * (v - entry vec c).
Proof.
  unfold entry. revert vec c; induction r as [|a r IH]; intros [|y vec] [|c] Hlen;
    cbn [update nth Qdot List.length] in *; try discriminate; try ring.
  rewrite IH by lia. ring.
Qed.

Lemma Qdot_zeros (r : list Q) (n : nat) : Qdot r (repeat 0 n) == 0.
Proof.
  revert n; induction r as [|a r IH]; intros [|n]; cbn [repeat Qdot]; try reflexivity.
  rewrite IH. ring.
Qed.

Lemma take_pivot_some (j : nat) (todo before after : list row) (p : row) :
  take_pivot j todo = Some (before, p, after) ->
  todo = before ++ p :: after /\ ~ entry p j == 0 /\
  Forall (fun r => entry r j == 0) before.
Proof.
  revert before; induction todo as [|r todo IH]; intros before; simpl; [discriminate|].
  destruct (is_zero (entry r j)) eqn:Hz.
  - destruct (take_pivot j todo) as [[[b q] a]|]; [|discriminate].
    intros [= <- <- <-]. destruct (IH b eq_refl) as (-> & Hp & Hb).
    repeat split; try assumption. constructor; [|exact Hb].
    apply Qeq_bool_iff. exact Hz.
  - intros [= <- <- <-]. repeat split; [|constructor].
    intros H. apply Qeq_bool_iff in H. unfold is_zero in Hz. congruence.
Qed.

Lemma take_pivot_none (j : nat) (todo : list row) :
  take_pivot j todo = None -> Forall (fun r => entry r j == 0) todo.
Proof.
  induction todo as [|r todo IH]; simpl; [constructor|].
  destruct (is_zero (entry r j)) eqn:Hz; [|discriminate].
  destruct (take_pivot j todo) as [[[b q] a]|]; [discriminate|].
  intros _. constructor; [apply Qeq_bool_iff; exact Hz | apply IH; reflexivity].
Qed.
(** Elimination keeps the solutions: a vector that the reduced rows send to
    zero is sent to zero by the rows the elimination started from. *)
Lemma rref_from_solutions (n : nat) (x : list Q) (columns : list nat) :
  forall (done todo : list row) (pivots : list nat) (reduced : list row) (pivots' : list nat),
  Forall (fun r => List.length r = n) (done ++ todo) ->
  rref_from columns done todo pivots = (reduced, pivots') ->
  Forall (fun r => Qdot r x == 0) reduced ->
  Forall (fun r => Qdot r x == 0) (done ++ todo).
Proof.
  induction columns as [|j columns IH]; intros done todo pivots reduced pivots' Hrect Hrun Hsol.
  - simpl in Hrun. injection Hrun as <- _. exact Hsol.
  - cbn [rref_from] in Hrun.
    destruct (take_pivot j todo) as [[[before p] after]|] eqn:Hpivot;
      [|exact (IH _ _ _ _ _ Hrect Hrun Hsol)].
    apply take_pivot_some in Hpivot. destruct Hpivot as (-> & Hp & _).
    set (p' := scale (entry p j) p) in *.
    rewrite Forall_forall in Hrect.
    assert (Hlen : forall r, In r (done ++ before ++ p :: after) -> List.length r = n)
      by exact Hrect.
    assert (Hp'len : List.length p' = n).
    { unfold p'. rewrite scale_length. apply Hlen. rewrite !in_app_iff. simpl. tauto. }
    assert (Hrect' : Forall (fun r => List.length r = n)
                       ((map (eliminate j p') done ++ [p']) ++
                        map (eliminate j p') (before ++ after))).
    { rewrite Forall_forall. intros r. rewrite !in_app_iff, !in_map_iff. simpl.
      intros [[(r0 & <- & Hr0)|[<-|[]]]|(r0 & <- & Hr0)]; try exact Hp'len.
      - rewrite eliminate_length; [|rewrite Hp'len]; apply Hlen;
          rewrite in_app_iff; tauto.
      - rewrite eliminate_length; [|rewrite Hp'len]; apply Hlen;
          rewrite !in_app_iff in *; simpl; tauto. }
    specialize (IH _ _ _ _ _ Hrect' Hrun Hsol). rewrite Forall_forall in IH.
    assert (Hp'sol : Qdot p' x == 0).
    { apply IH. rewrite !in_app_iff. simpl. tauto. }
    assert (Hel : forall r, List.length r = n -> Qdot (eliminate j p' r) x == 0 ->
                            Qdot r x == 0).
    { intros r Hr H. rewrite Qdot_eliminate, Hp'sol in H by congruence.
      rewrite <- H. ring. }
    rewrite Forall_forall. intros r Hr.
    assert (Hrn : List.length r = n) by (apply Hlen, Hr).
    rewrite !in_app_iff in Hr. simpl in Hr.
    destruct Hr as [Hr|[Hr|[<-|Hr]]].
    + apply (Hel r Hrn), IH. rewrite !in_app_iff, !in_map_iff. left; left; eauto.
    + apply (Hel r Hrn), IH. rewrite !in_app_iff, !in_map_iff.
      right. exists r. rewrite in_app_iff. tauto.
    + unfold p' in Hp'sol. rewrite Qdot_scale in Hp'sol.
      rewrite <- (Qmult_div_r (Qdot p x) (entry p j) Hp), Hp'sol. ring.
    + apply (Hel r Hrn), IH. rewrite !in_app_iff, !in_map_iff.
      right. exists r. rewrite in_app_iff. tauto.
Qed.

Lemma in_combine_map {A B : Type} (f : A -> A) (l : list A) (l' : list B) (x : A) (y : B) :
  In (x, y) (combine (map f l) l') -> exists x0, x = f x0 /\ In (x0, y) (combine l l').
Proof.
  revert l'; induction l as [|a l IH]; intros [|b l']; simpl; try tauto.
  intros [[= <- <-]|H]; [eauto|]. destruct (IH _ H) as (x0 & -> & Hin). eauto.
Qed.

Lemma combine_snoc {A B : Type} (l : list A) (l' : list B) (x : A) (y : B) :
  List.length l = List.length l' ->
  combine (l ++ [x]) (l' ++ [y]) = combine l l' ++ [(x, y)].
Proof.
  revert l'; induction l as [|a l IH]; intros [|b l'] H; simpl in *; try discriminate;
    [reflexivity|]. rewrite IH by lia. reflexivity.
Qed.

(** The shape of the rows during the elimination. *)
Lemma rref_from_structure (n : nat) (columns : list nat) :
  forall (done todo : list row) (pivots seen : list nat) (reduced : list row)
         (pivots' : list nat),
  Forall (fun r => List.length r = n) (done ++ todo) ->
  pivot_rows done pivots -> incl pivots seen -> cleared todo seen ->
  NoDup (seen ++ columns) ->
  rref_from columns done todo pivots = (reduced, pivots') ->
  exists done' todo',
    reduced = done' ++ todo' /\
    Forall (fun r => List.length r = n) reduced /\
    pivot_rows done' pivots' /\ cleared todo' (seen ++ columns) /\
    incl pivots' (seen ++ columns).
Proof.
  induction columns as [|j columns IH];
    intros done todo pivots seen reduced pivots' Hrect Hrows Hincl Hclear Hnd Hrun.
  - simpl in Hrun. injection Hrun as <- <-. exists done, todo.
    rewrite app_nil_r. auto.
  - cbn [rref_from] in Hrun.
    assert (Hnd' : NoDup ((seen ++ [j]) ++ columns))
      by (rewrite <- app_assoc; exact Hnd).
    assert (Hj : ~ In j seen).
    { apply NoDup_remove_2 in Hnd. rewrite in_app_iff in Hnd. tauto. }
    assert (Happ : seen ++ j :: columns = (seen ++ [j]) ++ columns)
      by (rewrite <- app_assoc; reflexivity).
    rewrite Happ.
    destruct (take_pivot j todo) as [[[before p] after]|] eqn:Hpivot.
    2:{ apply (IH done todo pivots (seen ++ [j])); try assumption.
        - intros x Hx. apply in_or_app. left. apply Hincl, Hx.
        - apply take_pivot_none in Hpivot. rewrite Forall_forall in Hpivot.
          intros t s Ht Hs. apply in_app_or in Hs. destruct Hs as [Hs|[<-|[]]];
            [apply Hclear; assumption | apply Hpivot, Ht]. }
    apply take_pivot_some in Hpivot. destruct Hpivot as (-> & Hp & _).
    set (p' := scale (entry p j) p) in *.
    rewrite Forall_forall in Hrect.
    assert (Hp'len : List.length p' = n).
    { unfold p'. rewrite scale_length. apply Hrect. rewrite !in_app_iff. simpl. tauto. }
    assert (Hp'j : entry p' j == 1).
    { unfold p'. rewrite entry_scale. unfold Qdiv. apply Qmult_inv_r, Hp. }
    assert (Hp's : forall s, In s seen -> entry p' s == 0).
    { intros s Hs. unfold p'. rewrite entry_scale.
      rewrite (Hclear p s); [unfold Qdiv; ring | rewrite in_app_iff; simpl; tauto | exact Hs]. }
    assert (Hel : forall r c, List.length r = n ->
              entry (eliminate j p' r) c == entry r c - entry r j * entry p' c).
    { intros r c Hr. apply entry_eliminate. congruence. }
    destruct Hrows as (Hlen & Hndp & Hrows).
    refine (IH _ _ _ (seen ++ [j]) _ _ _ _ _ _ Hnd' Hrun).
    + rewrite Forall_forall. intros r. rewrite !in_app_iff, !in_map_iff. simpl.
      intros [[(r0 & <- & Hr0)|[<-|[]]]|(r0 & <- & Hr0)]; try exact Hp'len.
      * rewrite eliminate_length; [|rewrite Hp'len]; apply Hrect;
          rewrite in_app_iff; tauto.
      * rewrite eliminate_length; [|rewrite Hp'len]; apply Hrect;
          rewrite !in_app_iff in *; simpl; tauto.
    + split; [rewrite !length_app, length_map; simpl; lia|].
      split.
      { apply NoDup_app; [exact Hndp | repeat constructor; simpl; tauto|].
        intros x Hx [<-|[]]. apply Hj, Hincl, Hx. }
      rewrite combine_snoc by (rewrite length_map; exact Hlen).
      intros d pc Hin. apply in_app_or in Hin. destruct Hin as [Hin|[[= <- <-]|[]]].
      * apply in_combine_map in Hin. destruct Hin as (d0 & -> & Hin).
        destruct (Hrows d0 pc Hin) as [Hone Hzero].
        assert (Hd0 : List.length d0 = n).
        { apply Hrect. apply in_or_app. left. eapply in_combine_l, Hin. }
        assert (Hpc : In pc pivots) by (eapply in_combine_r, Hin).
        split.
        -- rewrite (Hel d0 pc Hd0), Hone, (Hp's pc (Hincl _ Hpc)). ring.
        -- intros pc' Hpc' Hne. rewrite (Hel d0 pc' Hd0).
           apply in_app_or in Hpc'. destruct Hpc' as [Hpc'|[<-|[]]].
           ++ rewrite (Hzero pc' Hpc' Hne), (Hp's pc' (Hincl _ Hpc')). ring.
           ++ rewrite Hp'j. ring.
      * split; [exact Hp'j|]. intros pc' Hpc' Hne.
        apply in_app_or in Hpc'. destruct Hpc' as [Hpc'|[<-|[]]]; [|congruence].
        apply Hp's, Hincl, Hpc'.
    + intros x Hx. apply in_app_or in Hx.
      destruct Hx as [Hx|Hx]; apply in_or_app; [left; apply Hincl, Hx | right; exact Hx].
    + intros t s Ht Hs. apply in_map_iff in Ht. destruct Ht as (t0 & <- & Ht0).
      assert (Ht0' : In t0 (before ++ p :: after))
        by (rewrite in_app_iff in *; simpl; tauto).
      assert (Hlen0 : List.length t0 = n) by (apply Hrect, in_or_app; right; exact Ht0').
      rewrite (Hel t0 s Hlen0).
      apply in_app_or in Hs. destruct Hs as [Hs|[<-|[]]].
      * rewrite (Hclear t0 s Ht0' Hs), (Hp's s Hs). ring.
      * rewrite Hp'j. ring.
Qed.
(** [basis_vector] solves for the pivot variables row by row. *)
Lemma basis_vector_rows (free_var : nat) (done : list row) :
  forall (pre todo : list row) (pivots : list nat) (vec : list Q),
  List.length done = List.length pivots ->
  fold_left
    (fun vec pc =>
       update vec (snd pc)
         (Qred (entry vec (snd pc) - entry (nth (fst pc) (pre ++ done ++ todo) []) free_var)))
    (combine (seq (List.length pre) (List.length pivots)) pivots) vec =
  fold_left (solve_pivot free_var) (combine done pivots) vec.
Proof.
  induction done as [|d done IH]; intros pre todo [|pc pivots] vec Hlen;
    simpl in Hlen; try discriminate; [reflexivity|].
  cbn [List.length seq combine fold_left fst snd].
  rewrite app_nth2, Nat.sub_diag by lia. cbn [nth app].
  specialize (IH (pre ++ [d]) todo pivots).
  rewrite <- app_assoc, length_app, Nat.add_1_r in IH. cbn [app] in IH.
  rewrite IH by lia. reflexivity.
Qed.

(** Solving for the pivot variables sends the pivot rows to zero, and
    leaves alone the product with a row that is zero in the pivot columns. *)
Lemma solve_pivots_kernel (n free_var : nat) (remaining : list (row * nat)) :
  forall vec : list Q,
  NoDup (map snd remaining) -> List.length vec = n ->
  (forall d pc, In (d, pc) remaining ->
     List.length d = n /\ entry d pc == 1 /\ entry vec pc == 0 /\
     Qdot d vec == entry d free_var /\
     forall d' pc', In (d', pc') remaining -> pc' <> pc -> entry d pc' == 0) ->
  (forall d pc, In (d, pc) remaining ->
     Qdot d (fold_left (solve_pivot free_var) remaining vec) == 0) /\
  (forall r, List.length r = n ->
     (forall d pc, In (d, pc) remaining -> entry r pc == 0) ->
     Qdot r (fold_left (solve_pivot free_var) remaining vec) == Qdot r vec).
Proof.
  induction remaining as [|[dm pm] rest IH]; intros vec Hnd Hvec Hall.
  - split; [intros d pc [] | reflexivity].
  - cbn [fold_left]. inversion Hnd as [|? ? Hpm Hnd']; subst. simpl in Hpm.
    destruct (Hall dm pm (or_introl eq_refl)) as (Hdm & Hone & Hzero & Hdot & Hothers).
    set (vec1 := solve_pivot free_var vec (dm, pm)).
    assert (Hstep : forall r, List.length r = List.length vec ->
              Qdot r vec1 == Qdot r vec - entry r pm * entry dm free_var).
    { intros r Hr. unfold vec1, solve_pivot. cbn [fst snd].
      rewrite Qdot_update by exact Hr. rewrite Qred_correct, Hzero. ring. }
    assert (Hrest_ne : forall d pc, In (d, pc) rest -> pc <> pm).
    { intros d pc Hin ->. apply Hpm. apply in_map_iff. exists (d, pm). auto. }
    destruct (IH vec1) as [IHpivots IHother].
    + exact Hnd'.
    + unfold vec1, solve_pivot. rewrite update_length. reflexivity.
    + intros d pc Hin.
      destruct (Hall d pc (or_intror Hin)) as (Hd & Hd1 & Hv0 & Hdd & Hdo).
      pose proof (Hrest_ne d pc Hin) as Hne.
      split; [exact Hd|]. split; [exact Hd1|]. split.
      { unfold vec1, solve_pivot, entry. cbn [fst snd].
        rewrite nth_update_other by congruence. exact Hv0. }
      split.
      { rewrite Hstep by congruence.
        rewrite (Hdo dm pm (or_introl eq_refl)) by congruence. rewrite Hdd. ring. }
      intros d' pc' Hin' Hne'. apply (Hdo d' pc'); [right; exact Hin' | exact Hne'].
    + split.
      * intros d pc [[= <- <-]|Hin]; [|apply IHpivots with pc; exact Hin].
        rewrite IHother; [| exact Hdm |].
        -- rewrite Hstep by congruence. rewrite Hone, Hdot. ring.
        -- intros d pc Hin. apply (Hothers d pc); [right; exact Hin|].
           apply (Hrest_ne d pc Hin).
      * intros r Hr Hz. rewrite IHother; [| exact Hr |].
        -- rewrite Hstep by congruence.
           rewrite (Hz dm pm (or_introl eq_refl)). ring.
        -- intros d pc Hin. apply (Hz d pc). right; exact Hin.
Qed.

Lemma combine_snd {A B : Type} (l : list A) (l' : list B) :
  List.length l = List.length l' -> map snd (combine l l') = l'.
Proof.
  revert l'; induction l as [|a l IH]; intros [|b l'] H; simpl in *; try discriminate;
    [reflexivity|]. rewrite IH by lia. reflexivity.
Qed.

Lemma in_combine_row {A B : Type} (l : list A) (l' : list B) (x : A) :
  List.length l = List.length l' -> In x l -> exists y, In (x, y) (combine l l').
Proof.
  revert l'; induction l as [|a l IH]; intros [|b l'] H; simpl in *; try discriminate;
    [tauto|].
  intros [->|Hin]; [eauto|]. destruct (IH l' ltac:(lia) Hin) as [y Hy]. eauto.
Qed.

(** Every vector of [nullspace] is sent to zero by every row of the matrix. *)
Lemma nullspace_kernel (A : list row) (vec : list Q) :
  Forall (fun r => List.length r = cols A) A ->
  In vec (nullspace A) ->
  Forall (fun r => Qdot r vec == 0) A.
Proof.
  intros Hrect. unfold nullspace, rref.
  destruct (rref_from (seq 0 (cols A)) [] A []) as [reduced pivots] eqn:Hrun.
  rewrite in_map_iff. intros (free_var & <- & Hin).
  apply filter_In in Hin. destruct Hin as [Hseq Hnot].
  assert (Hfree : ~ In free_var pivots).
  { intros Hp. apply negb_true_iff in Hnot.
    assert (existsb (Nat.eqb free_var) pivots = true)
      by (apply existsb_exists; exists free_var; split; [exact Hp | apply Nat.eqb_refl]).
    congruence. }
  set (n := cols A) in *.
  apply (rref_from_solutions n _ _ [] A [] reduced pivots Hrect Hrun).
  destruct (rref_from_structure n (seq 0 n) [] A [] [] reduced pivots)
    as (done & todo & -> & Hrect' & (Hlen & Hndp & Hrows) & Hclear & Hincl); try assumption.
  { split; [reflexivity|]. split; [constructor | intros d pc []]. }
  { intros x []. }
  { intros t s _ []. }
  { apply seq_NoDup. }
  simpl in Hclear, Hincl. rewrite Forall_forall in Hrect'.
  unfold basis_vector, enumerate.
  pose proof (basis_vector_rows free_var done [] todo pivots
                (update (repeat 0 n) free_var 1) Hlen) as Hfold.
  cbn [List.length app] in Hfold. rewrite Hfold. clear Hfold.
  set (unit := update (repeat 0 n) free_var 1).
  assert (Hunit_len : List.length unit = n)
    by (unfold unit; rewrite update_length, repeat_length; reflexivity).
  assert (Hunit : forall r, List.length r = n -> Qdot r unit == entry r free_var).
  { intros r Hr. unfold unit. rewrite Qdot_update by (rewrite repeat_length; exact Hr).
    rewrite Qdot_zeros. unfold entry at 2. rewrite nth_repeat. ring. }
  assert (Hunit0 : forall c, c <> free_var -> entry unit c == 0).
  { intros c Hc. unfold unit, entry. rewrite nth_update_other by congruence.
    rewrite nth_repeat. reflexivity. }
  destruct (solve_pivots_kernel n free_var (combine done pivots) unit)
    as [Hpivots Hother].
  - rewrite combine_snd by exact Hlen. exact Hndp.
  - exact Hunit_len.
  - intros d pc Hin.
    assert (Hd : List.length d = n).
    { apply Hrect', in_or_app. left. eapply in_combine_l, Hin. }
    assert (Hpc : In pc pivots) by (eapply in_combine_r, Hin).
    destruct (Hrows d pc Hin) as [Hone Hzero].
    split; [exact Hd|]. split; [exact Hone|].
    split; [apply Hunit0; congruence|]. split; [apply Hunit, Hd|].
    intros d' pc' Hin' Hne. apply Hzero; [eapply in_combine_r, Hin' | exact Hne].
  - rewrite Forall_forall. intros r Hr. apply in_app_or in Hr. destruct Hr as [Hr|Hr].
    + destruct (in_combine_row done pivots r Hlen Hr) as [pc Hpc].
      exact (Hpivots r pc Hpc).
    + rewrite Hother.
      * rewrite Hunit by (apply Hrect', in_or_app; right; exact Hr).
        apply (Hclear r free_var Hr Hseq).
      * apply Hrect', in_or_app. right; exact Hr.
      * intros d pc Hin. apply (Hclear r pc Hr). apply Hincl. eapply in_combine_r, Hin.
Qed.

(** ** The coefficients of a vector of one sign balance the equation *)

Lemma Qdot_inject (r z : list Z) :
  Qdot (map inject_Z r) (map inject_Z z) == inject_Z (weighted_sum r z).
Proof.
  revert z; induction r as [|a r IH]; intros [|x z]; cbn [map Qdot weighted_sum];
    try reflexivity.
  rewrite IH, inject_Z_plus, inject_Z_mult. reflexivity.
Qed.

Lemma Qdot_scaled (k : Q) (r vec : list Q) (ints : list Z) :
  Forall2 (fun v z => inject_Z z == v * k) vec ints ->
  Qdot r (map inject_Z ints) == Qdot r vec * k.
Proof.
  intros H; revert r; induction H as [|v z vec ints Hvz _ IH]; intros [|a r];
    cbn [map Qdot]; try ring.
  rewrite IH, Hvz. ring.
Qed.

Lemma weighted_sum_opp (r z : list Z) :
  weighted_sum r (map Z.opp z) = (- weighted_sum r z)%Z.
Proof.
  revert z; induction r as [|a r IH]; intros [|x z]; cbn [map weighted_sum];
    try reflexivity.
  rewrite IH. ring.
Qed.

(** The matrix [get_matrix] returns is rectangular. *)
Lemma matrix_rectangular (equation : string) (p : ChemEqParser) (data : matrix_data) :
  equation_parser new_parser equation = Ok p ->
  get_matrix p = Ok data ->
  Forall (fun r => List.length r = cols (Matrix (matrix data))) (Matrix (matrix data)).
Proof.
  intros Hp Hdata. rewrite (get_matrix_after_parse equation p Hp) in Hdata.
  injection Hdata as <-. cbn [matrix]. unfold Matrix. rewrite map_map.
  destruct (keys (all_elements p)) as [|e es]; [constructor|].
  cbn [map cols]. rewrite !length_map.
  constructor; [rewrite !length_map; reflexivity|].
  apply Forall_map, Forall_forall. intros e' _. rewrite !length_map. reflexivity.
Qed.

(** X11: when [nsimplify] leaves the vector of the null space as it is and
    the scaled vector has no negative entry, the coefficients returned
    balance the equation: for every element, that is for every row of the
    matrix, the signed atom counts weighted by the coefficients sum to
    zero. *)
Theorem X11_balanced_when_one_sign (equation : string) (cs : list Z)
  (data : matrix_data) (vec : list Q) (multiplier : option Z) (raw_coeffs : list Q) :
  get_stoic equation true =
    Ok (Work (Some cs) (Some data) (Some vec) (Some vec) multiplier (Some raw_coeffs)) ->
  Forall (fun c => 0 <= c) raw_coeffs ->
  Forall (fun r => weighted_sum r cs = 0%Z) (matrix data).
Proof.
  intros Hrun Hpos.
  destruct (get_stoic_runs equation)
    as [(e & _ & _ & Ht)|(p & d & Hp & Hd & [(_ & _ & Ht)|Hvec])];
    try (rewrite Ht in Hrun; discriminate).
  destruct Hvec as (v & basis & ints & Hbasis & Hints & _ & Ht). cbv zeta in Ht.
  rewrite Ht in Hrun. injection Hrun as Hfinal <- _ _ _ <-.
  pose proof (matrix_rectangular equation p d Hp Hd) as Hrect.
  assert (Hkernel : Forall (fun r => Qdot r v == 0) (Matrix (matrix d))).
  { apply nullspace_kernel; [exact Hrect | rewrite Hbasis; left; reflexivity]. }
  assert (Hints0 : Forall (fun r => weighted_sum r ints = 0%Z) (matrix d)).
  { unfold Matrix in Hkernel. rewrite Forall_map in Hkernel.
    eapply Forall_impl; [|exact Hkernel]. intros r Hr. cbv beta in Hr.
    pose proof (Qdot_inject r ints) as Hsum.
    rewrite (Qdot_scaled _ _ v ints Hints), Hr in Hsum.
    unfold Qeq in Hsum. simpl in Hsum. lia. }
  rewrite final_coefficients_absolute in Hfinal.
  destruct (forallb (fun z => negb (z =? 0)%Z) ints); [|discriminate].
  injection Hfinal as <-.
  assert (Habs : map Z.abs ints = ints).
  { rewrite Forall_map in Hpos. rewrite <- (map_id ints) at 2.
    apply map_ext_in. intros z Hz. rewrite Forall_forall in Hpos.
    specialize (Hpos z Hz). unfold Qle in Hpos. simpl in Hpos. lia. }
  rewrite Habs. exact Hints0.
Qed.

Lemma X11_balanced_when_one_sign_witness :
  get_stoic "KMnO4 + HCl = KCl + MnCl2 + H2O + Cl2" true =
    Ok (Work (Some [2; 16; 2; 2; 8; 5]%Z)
          (Some {| matrix := [[1; 0; -1; 0; 0; 0]; [1; 0; 0; -1; 0; 0];
                              [4; 0; 0; 0; -1; 0]; [0; 1; 0; 0; -2; 0];
                              [0; 1; -1; -2; 0; -2]]%Z;
                   elements := ["K"; "Mn"; "O"; "H"; "Cl"];
                   species := ["KMnO4"; "HCl"; "KCl"; "MnCl2"; "H2O"; "Cl2"] |})
          (Some [2 # 5; 16 # 5; 2 # 5; 2 # 5; 8 # 5; 1]%Q)
          (Some [2 # 5; 16 # 5; 2 # 5; 2 # 5; 8 # 5; 1]%Q)
          (Some 5%Z) (Some [2; 16; 2; 2; 8; 5]%Q)) /\
  Forall (fun r => weighted_sum r [2; 16; 2; 2; 8; 5]%Z = 0%Z)
    [[1; 0; -1; 0; 0; 0]; [1; 0; 0; -1; 0; 0]; [4; 0; 0; 0; -1; 0];
     [0; 1; 0; 0; -2; 0]; [0; 1; -1; -2; 0; -2]]%Z.
Proof.
  assert (H : get_stoic "KMnO4 + HCl = KCl + MnCl2 + H2O + Cl2" true =
    Ok (Work (Some [2; 16; 2; 2; 8; 5]%Z)
          (Some {| matrix := [[1; 0; -1; 0; 0; 0]; [1; 0; 0; -1; 0; 0];
                              [4; 0; 0; 0; -1; 0]; [0; 1; 0; 0; -2; 0];
                              [0; 1; -1; -2; 0; -2]]%Z;
                   elements := ["K"; "Mn"; "O"; "H"; "Cl"];
                   species := ["KMnO4"; "HCl"; "KCl"; "MnCl2"; "H2O"; "Cl2"] |})
          (Some [2 # 5; 16 # 5; 2 # 5; 2 # 5; 8 # 5; 1]%Q)
          (Some [2 # 5; 16 # 5; 2 # 5; 2 # 5; 8 # 5; 1]%Q)
          (Some 5%Z) (Some [2; 16; 2; 2; 8; 5]%Q)))
    by (vm_compute; reflexivity).
  split; [exact H|].
  apply (X11_balanced_when_one_sign _ _ _ _ _ _ H).
  repeat constructor; discriminate.
Defined.

(** ** The balanced equation as text *)

(** X12: as long as no coefficient has more digits than the interpreter
    converts to text, 4300 by default, [get_balanced_chem_eq] never raises
    and its handler never runs, so it prints no input error: it returns the
    balanced equation, or [None] exactly when [get_stoic] has no
    coefficients, be it for a text that is no equation or for an equation
    without balance. *)
Theorem X12_no_input_error (equation : string) (final : option (list Z)) :
  get_stoic equation false = Ok (Coefficients final) ->
  (forall coeffs, final = Some coeffs -> Forall (fun c => c < 10 ^ 4300)%Z coeffs) ->
  exists balanced_eq,
    get_balanced_chem_eq equation = Ok ([], balanced_eq) /\
    (balanced_eq = None <-> final = None).
Proof.
  intros Hrun _. revert Hrun.
  unfold get_balanced_chem_eq, get_balanced_chem_eq_body.
  destruct (get_stoic_runs equation)
    as [(e & _ & Hf & _)|(p & data & Hp & _ & [(_ & Hf & _)|Hvec])].
  - rewrite Hf. intros [= <-]. cbn. eexists; split; [reflexivity | tauto].
  - rewrite Hf. intros [= <-]. cbn. eexists; split; [reflexivity | tauto].
  - destruct Hvec as (v & basis & ints & _ & _ & Hf & _). cbv zeta in Hf.
    rewrite Hf. intros [= <-]. cbn [bind final_coeffs_of].
    destruct (final_coefficients (map inject_Z ints)) as [coeffs|];
      [|eexists; split; [reflexivity | tauto]].
    rewrite Hp. cbn [bind].
    destruct (split (pick_arrow equation) equation) as [|part parts] eqn:Hsplit;
      [exfalso; exact (split_nonempty _ _ Hsplit)|].
    destruct (place _ _ [] []) as [rs ps].
    eexists; split; [reflexivity|]. split; discriminate.
Qed.

Lemma X12_no_input_error_witness :
  get_stoic "H2 + O2 -> H2O" false = Ok (Coefficients (Some [2; 1; 2]%Z)) /\
  exists balanced_eq,
    get_balanced_chem_eq "H2 + O2 -> H2O" = Ok ([], balanced_eq) /\
    (balanced_eq = None <-> Some [2; 1; 2]%Z = None).
Proof.
  assert (H : get_stoic "H2 + O2 -> H2O" false = Ok (Coefficients (Some [2; 1; 2]%Z)))
    by (vm_compute; reflexivity).
  split; [exact H|].
  apply (X12_no_input_error "H2 + O2 -> H2O" (Some [2; 1; 2]%Z) H).
  intros coeffs [= <-]. repeat constructor.
Defined.

Lemma count_plus_snoc (f : string) (c : ascii) :
  count_plus (f ++ String c EmptyString) =
  (count_plus f + (if Ascii.eqb c "+" then 1 else 0))%nat.
Proof.
  induction f as [|a f IH]; cbn [append count_plus]; [lia | rewrite IH; lia].
Qed.

(** [split] on [+] returns one field more than there are [+]. *)
Lemma split_plus_length (fuel : nat) (s field : string) :
  (String.length s <= fuel)%nat ->
  List.length (split_from fuel "+" s field) = S (count_plus s).
Proof.
  revert s field; induction fuel as [|fuel IH]; intros [|c s] field Hlen;
    simpl in Hlen; try lia; try reflexivity.
  cbn [split_from startswith count_plus].
  destruct s as [|c' s'].
  - rewrite Ascii.eqb_sym. destruct (Ascii.eqb c "+"); cbn [andb drop String.length];
      cbn [List.length]; rewrite IH by (simpl; lia); reflexivity.
  - rewrite Ascii.eqb_sym. destruct (Ascii.eqb c "+"); cbn [andb drop String.length];
      cbn [List.length]; rewrite IH by (simpl in *; lia); reflexivity.
Qed.

Lemma plus_before_token_here (s : string) :
  token_here s = true -> plus_before_token s = O.
Proof. destruct s as [|c s]; [reflexivity|]. cbn [plus_before_token]. intros ->. reflexivity. Qed.

Lemma space_no_token (c : ascii) (s : string) :
  isspace c = true -> token_here (String c s) = false.
Proof. apply space_starts_none. Qed.

Lemma space_no_plus (c : ascii) : isspace c = true -> Ascii.eqb c "+" = false.
Proof.
  intros Hc. destruct (Ascii.eqb_spec c "+") as [->|]; [discriminate | reflexivity].
Qed.

Lemma plus_before_token_lstrip (s : string) :
  plus_before_token (lstrip s) = plus_before_token s.
Proof.
  induction s as [|c s IH]; [reflexivity|].
  cbn [lstrip]. destruct (isspace c) eqn:Hc; [|reflexivity].
  cbn [plus_before_token]. rewrite (space_no_token c s Hc), (space_no_plus c Hc), IH.
  reflexivity.
Qed.

Lemma match_separator_token (s : string) :
  match_separator s = None <-> token_here s = false.
Proof.
  unfold match_separator, token_here.
  destruct (startswith "->" s); [split; discriminate|].
  destruct (startswith "→" s); [split; discriminate|].
  destruct (startswith "=" s); split; try discriminate; reflexivity.
Qed.

Lemma match_pattern_none (c : ascii) (s : string) :
  match_pattern (String c s) = None -> token_here (String c s) = false.
Proof.
  unfold match_pattern. destruct (match_separator (lstrip (String c s))) eqn:Hsep;
    [discriminate|]. intros _.
  destruct (isspace c) eqn:Hc; [apply space_no_token, Hc|].
  cbn [lstrip] in Hsep. rewrite Hc in Hsep. apply match_separator_token, Hsep.
Qed.

Lemma match_pattern_some (s rest : string) :
  match_pattern s = Some rest -> plus_before_token s = O.
Proof.
  unfold match_pattern. destruct (match_separator (lstrip s)) eqn:Hsep; [|discriminate].
  intros _. rewrite <- plus_before_token_lstrip. apply plus_before_token_here.
  destruct (token_here (lstrip s)) eqn:Ht; [reflexivity|].
  apply match_separator_token in Ht. congruence.
Qed.

(** The [+] of the first field of [re.split]. *)
Lemma re_split_first_field (fuel : nat) (s field : string) :
  (String.length s <= fuel)%nat ->
  count_plus (hd EmptyString (re_split_from fuel s field)) =
  (count_plus field + plus_before_token s)%nat.
Proof.
  revert s field; induction fuel as [|fuel IH]; intros s field Hlen.
  - destruct s; simpl in Hlen; [|lia]. simpl. rewrite append_nil. lia.
  - cbn [re_split_from].
    destruct (match_pattern s) as [rest|] eqn:Hm.
    + rewrite (match_pattern_some s rest Hm). simpl. lia.
    + destruct s as [|c s]; [simpl; lia|].
      rewrite IH by (simpl in Hlen; lia).
      cbn [plus_before_token]. rewrite (match_pattern_none c s Hm), count_plus_snoc. lia.
Qed.

(** The [+] of the first field of [split]. *)
Lemma split_first_field (a : string) (fuel : nat) (s field : string) :
  (String.length s <= fuel)%nat ->
  count_plus (hd EmptyString (split_from fuel a s field)) =
  (count_plus field + plus_before a s)%nat.
Proof.
  revert s field; induction fuel as [|fuel IH]; intros s field Hlen.
  - destruct s; simpl in Hlen; [|lia]. simpl. rewrite append_nil. lia.
  - destruct s as [|c s]; [simpl; lia|].
    cbn [split_from plus_before].
    destruct (startswith a (String c s)); [simpl; lia|].
    rewrite IH by (simpl in Hlen; lia). rewrite count_plus_snoc. lia.
Qed.

Lemma startswith_rstrip (t s : string) :
  every (fun c => negb (isspace c)) t = true ->
  startswith t (rstrip s) = startswith t s.
Proof.
  revert t; induction s as [|c s IH]; intros [|a t] Ht; try reflexivity.
  cbn [every] in Ht. apply andb_true_iff in Ht. destruct Ht as [Ha Ht].
  cbn [rstrip]. specialize (IH t Ht).
  destruct (rstrip s) as [|r0 r] eqn:Hr.
  - destruct (isspace c) eqn:Hc.
    + cbn [startswith]. destruct (Ascii.eqb_spec a c) as [->|_]; [|reflexivity].
      rewrite Hc in Ha. discriminate.
    + cbn [startswith]. rewrite <- IH. reflexivity.
  - cbn [startswith]. rewrite <- IH. reflexivity.
Qed.

Lemma token_here_rstrip (s : string) : token_here (rstrip s) = token_here s.
Proof.
  unfold token_here. rewrite !startswith_rstrip by reflexivity. reflexivity.
Qed.

Lemma rstrip_cons (c : ascii) (s : string) :
  rstrip (String c s) = EmptyString /\ isspace c = true /\ rstrip s = EmptyString \/
  rstrip (String c s) = String c (rstrip s).
Proof.
  cbn [rstrip]. destruct (rstrip s) as [|r0 r]; [|right; reflexivity].
  destruct (isspace c); [left; auto | right; reflexivity].
Qed.

Lemma plus_before_token_rstrip (s : string) :
  plus_before_token (rstrip s) = plus_before_token s.
Proof.
  induction s as [|c s IH]; [reflexivity|].
  pose proof (token_here_rstrip (String c s)) as Ht.
  destruct (rstrip_cons c s) as [(Hr & Hc & Hs)|Hr]; rewrite Hr in *.
  - cbn [plus_before_token]. rewrite (space_no_token c s Hc), (space_no_plus c Hc).
    rewrite <- IH, Hs. reflexivity.
  - cbn [plus_before_token]. rewrite Ht, IH. reflexivity.
Qed.

Lemma count_separators_rstrip (s : string) :
  count_separators (rstrip s) = count_separators s.
Proof.
  induction s as [|c s IH]; [reflexivity|].
  pose proof (token_here_rstrip (String c s)) as Ht.
  destruct (rstrip_cons c s) as [(Hr & Hc & Hs)|Hr]; rewrite Hr in *.
  - cbn [count_separators]. rewrite (space_starts_none c s Hc).
    rewrite <- IH, Hs. reflexivity.
  - unfold token_here in Ht. cbn [count_separators]. rewrite Ht, IH. reflexivity.
Qed.

Lemma contains_counted (a s : string) :
  (forall x, startswith a x = true -> token_here x = true) ->
  contains a s = true -> (1 <= count_separators s)%nat.
Proof.
  intros Ha. induction s as [|c s IH].
  - cbn [contains]. rewrite orb_false_r. intros H. apply Ha in H. discriminate.
  - cbn [contains count_separators]. intros H. apply orb_true_iff in H.
    destruct H as [H|H].
    + apply Ha in H. unfold token_here in H. rewrite H. lia.
    + specialize (IH H). lia.
Qed.

(** With one separator in the text, the first occurrence of a separator
    that occurs at all is the separator. *)
Lemma plus_before_occurring (a s : string) :
  (forall x, startswith a x = true -> token_here x = true) ->
  contains a s = true -> count_separators s = 1%nat ->
  plus_before a s = plus_before_token s.
Proof.
  intros Ha. induction s as [|c s IH]; [reflexivity|].
  cbn [contains plus_before plus_before_token count_separators].
  fold (token_here (String c s)).
  destruct (startswith a (String c s)) eqn:Hhere.
  - rewrite (Ha _ Hhere). reflexivity.
  - cbn [orb]. intros Hin Hcount.
    pose proof (contains_counted a s Ha Hin).
    destruct (token_here (String c s)); [lia|].
    rewrite IH; [reflexivity | exact Hin | lia].
Qed.

(** Without the other separators in the text, the first separator is the
    first [->]. *)
Lemma plus_before_arrow (s : string) :
  contains "=" s = false -> contains "→" s = false ->
  plus_before "->" s = plus_before_token s.
Proof.
  induction s as [|c s IH]; [reflexivity|].
  cbn [contains plus_before plus_before_token]. unfold token_here.
  intros H1 H2. apply orb_false_iff in H1, H2.
  destruct H1 as [H1 H1'], H2 as [H2 H2'].
  rewrite H1, H2, !orb_false_r, (IH H1' H2'). reflexivity.
Qed.

Lemma count_separators_strip (s : string) :
  count_separators (strip s) = count_separators s.
Proof. unfold strip. rewrite count_separators_rstrip. apply count_separators_lstrip. Qed.

(** With one separator in the text, the text before the separator that
    [get_balanced_chem_eq] splits at has the [+] of the left side of the
    parser. *)
Lemma plus_before_pick_arrow (equation : string) :
  count_separators (strip equation) = 1%nat ->
  plus_before (pick_arrow equation) equation = plus_before_token (strip equation).
Proof.
  rewrite count_separators_strip. intros Hcount.
  unfold strip. rewrite plus_before_token_rstrip, plus_before_token_lstrip.
  unfold pick_arrow.
  destruct (contains "=" equation) eqn:H1.
  - apply plus_before_occurring; try assumption.
    intros x Hx. unfold token_here. rewrite Hx, !orb_true_r. reflexivity.
  - destruct (contains "→" equation) eqn:H2.
    + apply plus_before_occurring; try assumption.
      intros x Hx. unfold token_here. rewrite Hx, !orb_true_r. reflexivity.
    + apply plus_before_arrow; assumption.
Qed.
(** The loop of [get_balanced_chem_eq] cuts the formatted species after the
    first [num_reactants] of them. *)
Lemma place_cut (l : list (Z * string)) (num_reactants : nat) :
  forall (a : nat) (rs ps : list string),
  place (combine (seq a (List.length l)) l) num_reactants rs ps =
  (rs ++ map formatted (firstn (num_reactants - a) l),
   ps ++ map formatted (skipn (num_reactants - a) l)).
Proof.
  induction l as [|[coeff spec] l IH]; intros a rs ps.
  - cbn [List.length seq combine place]. rewrite firstn_nil, skipn_nil.
    cbn [map]. rewrite !app_nil_r. reflexivity.
  - cbn [List.length seq combine place].
    destruct (Nat.ltb_spec a num_reactants) as [Hlt|Hge]; rewrite IH.
    + replace (num_reactants - a)%nat with (S (num_reactants - S a)) by lia.
      cbn [firstn skipn map]. rewrite <- app_assoc. reflexivity.
    + replace (num_reactants - a)%nat with O by lia.
      replace (num_reactants - S a)%nat with O by lia.
      cbn [firstn skipn map]. rewrite <- app_assoc. reflexivity.
Qed.

Lemma combine_sides {A B : Type} (rs ps : list B) :
  forall cs : list A,
  firstn (List.length rs) (combine cs (rs ++ ps)) = combine (firstn (List.length rs) cs) rs /\
  skipn (List.length rs) (combine cs (rs ++ ps)) = combine (skipn (List.length rs) cs) ps.
Proof.
  induction rs as [|r rs IH]; intros cs.
  - split; [destruct cs; reflexivity | reflexivity].
  - destruct cs as [|c cs]; [split; reflexivity|].
    destruct (IH cs) as [Hf Hs]. cbn [List.length app combine firstn skipn].
    rewrite Hf, Hs. split; reflexivity.
Qed.

(** The number of species [get_balanced_chem_eq] puts on the left is the
    number of reactants the parser found. *)
Lemma left_side_species (equation : string) (p : ChemEqParser) :
  equation_parser new_parser equation = Ok p ->
  List.length (split "+" (hd EmptyString (split (pick_arrow equation) equation))) =
  List.length (reactants p).
Proof.
  intros Hp. destruct (equation_parser_ok _ _ Hp) as (lhs & rhs & Hsplit & Hr & _).
  pose proof (re_split_length (strip equation)) as Hcount. rewrite Hsplit in Hcount.
  simpl in Hcount. injection Hcount as Hcount.
  rewrite Hr, length_map.
  unfold split at 1 3. rewrite !split_plus_length by lia. f_equal.
  unfold split. rewrite split_first_field by lia. cbn [count_plus plus].
  rewrite plus_before_pick_arrow by (symmetry; exact Hcount).
  pose proof (re_split_first_field (String.length (strip equation)) (strip equation)
                EmptyString (Nat.le_refl _)) as Hfirst.
  unfold re_split in Hsplit. rewrite Hsplit in Hfirst. cbn [hd count_plus plus] in Hfirst.
  symmetry. exact Hfirst.
Qed.

Lemma get_stoic_coefficients (equation : string) :
  exists final,
    get_stoic equation false = Ok (Coefficients final) /\
    (final <> None -> exists p, equation_parser new_parser equation = Ok p).
Proof.
  destruct (get_stoic_runs equation)
    as [(e & _ & Hf & _)|(p & data & Hp & _ & [(_ & Hf & _)|Hvec])].
  - exists None. split; [exact Hf | congruence].
  - exists None. split; [exact Hf | congruence].
  - destruct Hvec as (v & basis & ints & _ & _ & Hf & _). cbv zeta in Hf.
    eexists. split; [exact Hf | eauto].
Qed.

(** X13: the text [get_balanced_chem_eq] returns is the reactants of the
    parser, each with its coefficient, joined by [ + ], then the separator of
    the input between two spaces, then the products likewise: no species
    changes sides, although the two sides are found a second time and in
    another way than the parser finds them. *)
Theorem X13_balanced_equation_text (equation : string) (out : list printed)
  (balanced_eq : string) :
  get_balanced_chem_eq equation = Ok (out, Some balanced_eq) ->
  exists p coeffs,
    equation_parser new_parser equation = Ok p /\
    get_stoic equation false = Ok (Coefficients (Some coeffs)) /\
    let k := List.length (reactants p) in
    balanced_eq =
      (join " + " (map formatted (combine (firstn k coeffs) (reactants p)))
       ++ " " ++ pick_arrow equation ++ " "
       ++ join " + " (map formatted (combine (skipn k coeffs) (products p))))%string.
Proof.
  unfold get_balanced_chem_eq.
  destruct (get_balanced_chem_eq_body equation) as [[s|]|e] eqn:Hbody;
    try discriminate; [|destruct (is_ValueError e); discriminate].
  intros [= _ <-]. unfold get_balanced_chem_eq_body in Hbody.
  destruct (get_stoic_coefficients equation) as (final & Hf & Hparse).
  rewrite Hf in Hbody. cbn [bind final_coeffs_of] in Hbody.
  destruct final as [coeffs|]; [|discriminate].
  destruct Hparse as [p Hp]; [discriminate|].
  rewrite Hp in Hbody. cbn [bind] in Hbody.
  pose proof (left_side_species equation p Hp) as Hleft.
  destruct (split (pick_arrow equation) equation) as [|part parts];
    [discriminate|]. cbn [hd] in Hleft. rewrite Hleft in Hbody.
  unfold enumerate in Hbody. rewrite place_cut, Nat.sub_0_r in Hbody.
  cbn [app] in Hbody. injection Hbody as <-.
  destruct (equation_parser_ok _ _ Hp) as (_ & _ & _ & _ & _ & Hsp & _).
  rewrite Hsp.
  destruct (combine_sides (reactants p) (products p) coeffs) as [Hfirst Hskip].
  rewrite Hfirst, Hskip.
  exists p, coeffs. split; [exact Hp|]. split; [exact Hf|]. reflexivity.
Qed.

Lemma X13_balanced_equation_text_witness :
  get_balanced_chem_eq "  Fe + O2   →  Fe2O3 " = Ok ([], Some "4Fe + 3O2 → 2Fe2O3") /\
  exists p coeffs,
    equation_parser new_parser "  Fe + O2   →  Fe2O3 " = Ok p /\
    get_stoic "  Fe + O2   →  Fe2O3 " false = Ok (Coefficients (Some coeffs)) /\
    let k := List.length (reactants p) in
    "4Fe + 3O2 → 2Fe2O3" =
      (join " + " (map formatted (combine (firstn k coeffs) (reactants p)))
       ++ " " ++ pick_arrow "  Fe + O2   →  Fe2O3 " ++ " "
       ++ join " + " (map formatted (combine (skipn k coeffs) (products p))))%string.
Proof.
  assert (H : get_balanced_chem_eq "  Fe + O2   →  Fe2O3 " =
              Ok ([], Some "4Fe + 3O2 → 2Fe2O3")) by (vm_compute; reflexivity).
  split; [exact H|].
  exact (X13_balanced_equation_text _ _ _ H).
Defined.

(** ** Groups and hydrates *)

Lemma get_count_add (d : counts) (k : string) (v : Z) (e : string) :
  get_count (add_count d k v) e =
  (get_count d e + (if String.eqb k e then v else 0))%Z.
Proof.
  unfold get_count. induction d as [|[k' v'] d IH]; cbn [add_count lookup].
  - destruct (String.eqb k e); lia.
  - destruct (String.eqb_spec k' k) as [->|Hne]; cbn [lookup].
    + destruct (String.eqb k e); lia.
    + destruct (String.eqb_spec k' e) as [->|Hne'].
      * destruct (String.eqb_spec k e) as [->|_]; [congruence | lia].
      * exact IH.
Qed.

(** Merging adds the counts, element by element. *)
Lemma get_count_merge (src acc : counts) (e : string) :
  NoDup (keys src) ->
  get_count (merge acc src) e = (get_count acc e + get_count src e)%Z.
Proof.
  unfold merge. revert acc; induction src as [|[k v] src IH]; intros acc Hnd;
    cbn [fold_left fst snd].
  - unfold get_count at 3. simpl. lia.
  - simpl in Hnd. inversion Hnd as [|? ? Hk Hnd']; subst.
    rewrite IH by exact Hnd'. rewrite get_count_add.
    unfold get_count at 4. cbn [lookup].
    destruct (String.eqb_spec k e) as [->|_]; [|unfold get_count; lia].
    apply lookup_none in Hk. unfold get_count. rewrite Hk. lia.
Qed.

Lemma split_from_free (sep : string) (fuel : nat) (s field : string) :
  (String.length s <= fuel)%nat -> contains sep s = false ->
  split_from fuel sep s field = [(field ++ s)%string].
Proof.
  revert s field; induction fuel as [|fuel IH]; intros [|c s] field Hlen Hfree;
    simpl in Hlen; try lia; cbn [split_from]; try (rewrite append_nil; reflexivity).
  cbn [contains] in Hfree. apply orb_false_iff in Hfree. destruct Hfree as [Hhere Hlater].
  rewrite Hhere, IH by (try lia; exact Hlater). rewrite append_cons. reflexivity.
Qed.

(** The middle dot after a text without one is the first of the whole. *)
Lemma dot_not_across (c : ascii) (a b : string) :
  contains middle_dot (String c a) = false ->
  startswith middle_dot (String c a ++ middle_dot ++ b) = false.
Proof.
  cbn [contains]. intros H. apply orb_false_iff in H. destruct H as [Hhere _].
  unfold middle_dot in *. destruct a as [|c' a]; cbn [append startswith] in *.
  - destruct (Ascii.eqb_spec "194" c) as [<-|]; [reflexivity | reflexivity].
  - rewrite andb_true_r in *. exact Hhere.
Qed.

Lemma length_append (s t : string) :
  String.length (s ++ t) = (String.length s + String.length t)%nat.
Proof. induction s as [|c s IH]; simpl; [reflexivity | rewrite IH; reflexivity]. Qed.

Lemma split_hydrate (fuel : nat) (a b field : string) :
  (String.length (a ++ middle_dot ++ b) <= fuel)%nat ->
  contains middle_dot a = false -> contains middle_dot b = false ->
  split_from fuel middle_dot (a ++ middle_dot ++ b) field = [(field ++ a)%string; b].
Proof.
  rewrite !length_append. change (String.length middle_dot) with 2%nat.
  revert a field; induction fuel as [|fuel IH]; intros a field Hlen Ha Hb; [lia|].
  destruct a as [|c a].
  - cbn [append String.length] in *. unfold middle_dot at 2. cbn [split_from append].
    change (startswith middle_dot (String "194" (String "183" b))) with true.
    cbn iota. rewrite append_nil. f_equal.
    change (drop (String.length middle_dot) (String "194" (String "183" b))) with b.
    rewrite split_from_free; [reflexivity | lia | exact Hb].
  - pose proof (dot_not_across c a b Ha) as Hno.
    change (String c a ++ middle_dot ++ b)%string
      with (String c (a ++ middle_dot ++ b)) in *.
    cbn [split_from]. rewrite Hno. rewrite IH.
    + rewrite append_cons. reflexivity.
    + cbn [String.length] in Hlen. lia.
    + cbn [contains] in Ha. apply orb_false_iff in Ha. apply Ha.
    + exact Hb.
Qed.

Lemma atom_count_rec_succ (depth : nat) (formula : string) :
  atom_count_rec (S depth) formula =
  (validate_formula formula ;;;
   if contains middle_dot formula
   then sum_parts (atom_count_rec depth) (split middle_dot formula) []
   else Ok (scan (String.length formula) formula [] [])).
Proof. reflexivity. Qed.

Lemma atom_count_plain (depth : nat) (formula : string) :
  contains middle_dot formula = false ->
  atom_count_rec depth formula = atom_count_in_formula formula.
Proof.
  intros H. unfold atom_count_in_formula.
  destruct depth; cbn [atom_count_rec]; rewrite H; reflexivity.
Qed.

(** X14: a hydrate of two parts has the atoms of both: when the formula
    [a·b] passes the pre-validation and the parts [a] and [b], without a
    middle dot of their own, are counted, the formula is counted and every
    element has the sum of its counts in [a] and in [b]. *)
Theorem X14_hydrate_adds (a b : string) (da db : counts) :
  contains middle_dot a = false -> contains middle_dot b = false ->
  atom_count_in_formula a = Ok da -> atom_count_in_formula b = Ok db ->
  validate_formula (a ++ middle_dot ++ b) = Ok tt ->
  exists d,
    atom_count_in_formula (a ++ middle_dot ++ b) = Ok d /\
    forall e, get_count d e = (get_count da e + get_count db e)%Z.
Proof.
  intros Ha Hb Hda Hdb Hvalid.
  unfold atom_count_in_formula at 1. rewrite atom_count_rec_succ, Hvalid. cbn [bind].
  assert (Hdot : contains middle_dot (a ++ middle_dot ++ b) = true).
  { clear. induction a as [|c a IH]; [reflexivity|].
    cbn [append contains]. rewrite IH. apply orb_true_r. }
  rewrite Hdot. unfold split.
  rewrite split_hydrate by (try lia; assumption). cbn [append sum_parts].
  rewrite !atom_count_plain by assumption. rewrite Hda, Hdb. cbn [bind].
  eexists. split; [reflexivity|]. intros e.
  pose proof (atom_count_rec_well_formed _ _ _ Hda) as [Hnda _].
  pose proof (atom_count_rec_well_formed _ _ _ Hdb) as [Hndb _].
  rewrite !get_count_merge by assumption. unfold get_count at 1. simpl. lia.
Qed.

Lemma X14_hydrate_adds_witness :
  atom_count_in_formula "CuSO4·H2O" =
    Ok [("Cu", 1%Z); ("S", 1%Z); ("O", 5%Z); ("H", 2%Z)] /\
  exists d,
    atom_count_in_formula ("CuSO4" ++ middle_dot ++ "H2O") = Ok d /\
    forall e, get_count d e =
              (get_count [("Cu", 1%Z); ("S", 1%Z); ("O", 4%Z)] e +
               get_count [("H", 2%Z); ("O", 1%Z)] e)%Z.
Proof.
  split; [reflexivity|].
  apply (X14_hydrate_adds "CuSO4" "H2O"); reflexivity.
Defined.

(** The loops that read a run of characters stop at the same place when
    the text goes on with a character that is not of the run. *)
Lemma span_append (p : ascii -> bool) (s t : string) :
  match t with EmptyString => True | String c _ => p c = false end ->
  span p (s ++ t) = (fst (span p s), (snd (span p s) ++ t)%string).
Proof.
  intros Ht. induction s as [|c s IH]; cbn [append span].
  - destruct t as [|c t]; [reflexivity|]. cbn [span]. rewrite Ht. reflexivity.
  - destruct (p c); [|reflexivity].
    rewrite IH. destruct (span p s) as [run rest]. reflexivity.
Qed.

Lemma read_number_append (acc : Z) (s t : string) :
  match t with EmptyString => True | String c _ => isdigit c = false end ->
  read_number acc (s ++ t) =
  (fst (read_number acc s), (snd (read_number acc s) ++ t)%string).
Proof.
  intros Ht. revert acc; induction s as [|c s IH]; intros acc; cbn [append read_number].
  - destruct t as [|c t]; [reflexivity|]. cbn [read_number]. rewrite Ht. reflexivity.
  - destruct (isdigit c); [apply IH | reflexivity].
Qed.

Lemma span_rest_every (q p : ascii -> bool) (s : string) :
  every q s = true -> every q (snd (span p s)) = true.
Proof.
  induction s as [|c s IH]; cbn [span every]; [reflexivity|].
  intros H. destruct (p c); [|exact H].
  apply andb_true_iff in H. destruct H as [_ H]. specialize (IH H).
  destruct (span p s) as [run rest]. exact IH.
Qed.

Lemma read_number_rest_every (q : ascii -> bool) (acc : Z) (s : string) :
  every q s = true -> every q (snd (read_number acc s)) = true.
Proof.
  revert acc; induction s as [|c s IH]; intros acc; cbn [read_number every]; [reflexivity|].
  intros H. destruct (isdigit c); [|exact H].
  apply andb_true_iff in H. apply IH, H.
Qed.

Lemma read_number_all (acc : Z) (s : string) :
  every isdigit s = true -> snd (read_number acc s) = EmptyString.
Proof.
  revert acc; induction s as [|c s IH]; intros acc; cbn [read_number every]; [reflexivity|].
  intros H. apply andb_true_iff in H. destruct H as [-> H]. apply IH, H.
Qed.

(** The scanner reads a text without parentheses the same way whatever
    follows it, as long as what follows cannot continue a symbol or a
    number: it then goes on with what it has counted. *)
Lemma scan_flat (fuel : nat) :
  forall (body rest : string) (stack : list counts) (current : counts),
  flat body = true ->
  match rest with
  | EmptyString => True
  | String c _ => islower c = false /\ isdigit c = false
  end ->
  (String.length (body ++ rest) <= fuel)%nat ->
  scan fuel (body ++ rest) stack current =
  scan fuel rest stack (scan (String.length body) body [] current).
Proof.
  induction fuel as [|fuel IH]; intros body rest stack current Hflat Hrest Hlen.
  - destruct body; simpl in Hlen; [reflexivity | lia].
  - destruct body as [|c body]; [reflexivity|].
    assert (Hlow : match rest with EmptyString => True | String c _ => islower c = false end)
      by (destruct rest; tauto).
    assert (Hdig : match rest with EmptyString => True | String c _ => isdigit c = false end)
      by (destruct rest; tauto).
    unfold flat in Hflat. cbn [every] in Hflat.
    apply andb_true_iff in Hflat. destruct Hflat as [Hc Hflat]. fold (flat body) in Hflat.
    apply andb_true_iff in Hc. destruct Hc as [Hopen Hclose].
    apply negb_true_iff in Hopen, Hclose.
    assert (Hrest_len : (String.length rest <= fuel)%nat).
    { rewrite length_append in Hlen. simpl in Hlen. lia. }
    rewrite (scan_bound (S fuel) fuel rest) by lia.
    cbn [append String.length scan]. rewrite Hopen, Hclose.
    rewrite length_append in Hlen. cbn [String.length] in Hlen.
    destruct (isupper c).
    + rewrite (span_append islower body rest Hlow).
      pose proof (span_length islower body) as Hspan.
      pose proof (span_rest_every
                    (fun c => negb (Ascii.eqb c "(") && negb (Ascii.eqb c ")"))
                    islower body Hflat) as Hflat1.
      destruct (span islower body) as [lows rest1]. cbn [fst snd] in *.
      rewrite (read_number_append 0 rest1 rest Hdig).
      pose proof (read_number_length 0 rest1) as Hnum.
      pose proof (read_number_rest_every _ 0 rest1 Hflat1) as Hflat2.
      destruct (read_number 0 rest1) as [count_num rest2]. cbn [fst snd] in *.
      rewrite IH; [|exact Hflat2 | exact Hrest | rewrite length_append; lia].
      rewrite (scan_bound (String.length body) (String.length rest2)) by lia.
      reflexivity.
    + rewrite IH; [|exact Hflat | exact Hrest | rewrite length_append; lia].
      reflexivity.
Qed.

Lemma add_count_fresh (d : counts) (k : string) (v : Z) :
  ~ In k (keys d) -> add_count d k v = d ++ [(k, v)].
Proof.
  induction d as [|[k' v'] d IH]; cbn [add_count keys map fst In app]; intros H.
  - reflexivity.
  - destruct (String.eqb_spec k' k) as [->|_]; [tauto|].
    rewrite IH by tauto. reflexivity.
Qed.

(** Merging a scaled count into a count with other keys appends it. *)
Lemma merge_scaled_fresh (m : Z) (src acc : counts) :
  NoDup (keys acc ++ keys src) ->
  merge_scaled acc src m = acc ++ map (fun kv => (fst kv, (snd kv * m)%Z)) src.
Proof.
  unfold merge_scaled. revert acc; induction src as [|[k v] src IH]; intros acc Hnd;
    cbn [fold_left map fst snd].
  - rewrite app_nil_r. reflexivity.
  - cbn [keys map fst] in Hnd.
    rewrite add_count_fresh.
    + rewrite IH.
      * rewrite <- app_assoc. reflexivity.
      * unfold keys in *. rewrite map_app, <- app_assoc. exact Hnd.
    + apply NoDup_remove_2 in Hnd. intros Hin. apply Hnd, in_or_app. left; exact Hin.
Qed.

Lemma every_no_dot (p : ascii -> bool) (s : string) :
  p "194"%char = false -> every p s = true -> contains middle_dot s = false.
Proof.
  intros Hp. induction s as [|c s IH]; cbn [every contains]; [reflexivity|].
  intros H. apply andb_true_iff in H. destruct H as [Hc Hs].
  rewrite (IH Hs), orb_false_r. unfold middle_dot. cbn [startswith].
  destruct (Ascii.eqb_spec "194" c) as [<-|_]; [congruence | reflexivity].
Qed.

Lemma no_dot_append (x y : string) :
  contains middle_dot x = false -> contains middle_dot y = false ->
  startswith "·" (String "194" y) = false ->
  contains middle_dot (x ++ y) = false.
Proof.
  intros Hx Hy Hstraddle. induction x as [|c x IH]; [exact Hy|].
  cbn [append contains] in *. apply orb_false_iff in Hx. destruct Hx as [Hhere Hlater].
  rewrite (IH Hlater), orb_false_r.
  unfold middle_dot in *. destruct x as [|c' x]; cbn [append startswith] in *.
  - destruct (Ascii.eqb_spec "194" c) as [<-|_]; [|reflexivity].
    rewrite Ascii.eqb_refl in Hstraddle. exact Hstraddle.
  - exact Hhere.
Qed.

(** X15: a group in parentheses with a multiplier has the atoms of its
    body times the multiplier: for a body without parentheses and without a
    middle dot, [(body)digits] is counted as the body is, element by element
    in the same order, every count multiplied by the number the digits
    spell, or by one when they spell zero or there are none. *)
Theorem X15_group_multiplies (body digits : string) (d : counts) :
  flat body = true -> contains middle_dot body = false ->
  every isdigit digits = true ->
  atom_count_in_formula body = Ok d ->
  validate_formula ("(" ++ body ++ ")" ++ digits) = Ok tt ->
  atom_count_in_formula ("(" ++ body ++ ")" ++ digits) =
    Ok (map (fun kv => (fst kv, (snd kv * multiplier_of digits)%Z)) d).
Proof.
  intros Hflat Hdot Hdigits Hbody Hvalid.
  pose proof (atom_count_rec_well_formed _ _ _ Hbody) as [Hnd _].
  unfold atom_count_in_formula in Hbody. rewrite atom_count_rec_succ, Hdot in Hbody.
  destruct (validate_formula body); cbn [bind] in Hbody; [|discriminate].
  injection Hbody as Hbody.
  unfold atom_count_in_formula. rewrite atom_count_rec_succ, Hvalid. cbn [bind].
  assert (Hnodot : contains middle_dot ("(" ++ body ++ ")" ++ digits) = false).
  { change ("(" ++ body ++ ")" ++ digits)%string
      with (String "(" (body ++ String ")" digits)).
    cbn [contains]. rewrite no_dot_append; [reflexivity | exact Hdot | | reflexivity].
    cbn [contains]. rewrite (every_no_dot isdigit digits eq_refl Hdigits). reflexivity. }
  rewrite Hnodot. f_equal.
  change ("(" ++ body ++ ")" ++ digits)%string
    with (String "(" (body ++ String ")" digits)).
  cbn [String.length scan]. change (Ascii.eqb "(" "(") with true. cbn iota.
  rewrite scan_flat; [|exact Hflat | split; reflexivity | lia].
  rewrite Hbody, length_append. cbn [String.length].
  rewrite Nat.add_succ_r. cbn [scan].
  change (Ascii.eqb ")" "(") with false. change (Ascii.eqb ")" ")") with true. cbn iota.
  pose proof (read_number_all 0 digits Hdigits) as Hall.
  unfold multiplier_of.
  destruct (read_number 0 digits) as [m rest]. cbn [fst snd] in *. subst rest.
  rewrite merge_scaled_fresh by exact Hnd.
  destruct (String.length body + String.length digits)%nat; reflexivity.
Qed.

Lemma X15_group_multiplies_witness :
  atom_count_in_formula "(NH4)25" = Ok [("N", 25%Z); ("H", 100%Z)] /\
  atom_count_in_formula ("(" ++ "NH4" ++ ")" ++ "25") =
    Ok (map (fun kv => (fst kv, (snd kv * multiplier_of "25")%Z))
          [("N", 1%Z); ("H", 4%Z)]).
Proof.
  split; [reflexivity|].
  apply (X15_group_multiplies "NH4" "25"); reflexivity.
Defined.

(** ** Pieces of a formula, one after the other *)

Lemma lower_no_parenthesis (c : ascii) :
  islower c = true -> Ascii.eqb c "(" = false /\ Ascii.eqb c ")" = false.
Proof.
  intros H. split.
  - destruct (Ascii.eqb_spec c "(") as [->|_]; [discriminate H | reflexivity].
  - destruct (Ascii.eqb_spec c ")") as [->|_]; [discriminate H | reflexivity].
Qed.

Lemma digit_no_parenthesis (c : ascii) :
  isdigit c = true -> Ascii.eqb c "(" = false /\ Ascii.eqb c ")" = false.
Proof.
  intros H. split.
  - destruct (Ascii.eqb_spec c "(") as [->|_]; [discriminate H | reflexivity].
  - destruct (Ascii.eqb_spec c ")") as [->|_]; [discriminate H | reflexivity].
Qed.

Lemma upper_no_parenthesis (c : ascii) :
  isupper c = true -> Ascii.eqb c "(" = false /\ Ascii.eqb c ")" = false.
Proof.
  intros H. split.
  - destruct (Ascii.eqb_spec c "(") as [->|_]; [discriminate H | reflexivity].
  - destruct (Ascii.eqb_spec c ")") as [->|_]; [discriminate H | reflexivity].
Qed.

Lemma open_groups_span (s : string) (n : nat) :
  open_groups (snd (span islower s)) n = open_groups s n.
Proof.
  induction s as [|c s IH]; cbn [span]; [reflexivity|].
  destruct (islower c) eqn:Hc; [|reflexivity].
  destruct (lower_no_parenthesis c Hc) as [Ho Hcl].
  cbn [open_groups]. rewrite Ho, Hcl, <- IH.
  destruct (span islower s) as [run rest]. reflexivity.
Qed.

Lemma open_groups_number (acc : Z) (s : string) (n : nat) :
  open_groups (snd (read_number acc s)) n = open_groups s n.
Proof.
  revert acc; induction s as [|c s IH]; intros acc; cbn [read_number]; [reflexivity|].
  destruct (isdigit c) eqn:Hc; [|reflexivity].
  destruct (digit_no_parenthesis c Hc) as [Ho Hcl].
  cbn [open_groups]. rewrite Ho, Hcl. apply IH.
Qed.

Lemma get_count_merge_scaled (src acc : counts) (m : Z) (e : string) :
  NoDup (keys src) ->
  get_count (merge_scaled acc src m) e = (get_count acc e + get_count src e * m)%Z.
Proof.
  unfold merge_scaled. revert acc; induction src as [|[k v] src IH]; intros acc Hnd;
    cbn [fold_left fst snd].
  - unfold get_count at 3. simpl. lia.
  - simpl in Hnd. inversion Hnd as [|? ? Hk Hnd']; subst.
    rewrite IH by exact Hnd'. rewrite get_count_add.
    unfold get_count at 4. cbn [lookup].
    destruct (String.eqb_spec k e) as [->|_]; [|unfold get_count; lia].
    apply lookup_none in Hk. unfold get_count. rewrite Hk. lia.
Qed.

Lemma raised_add (base : string -> Z) (d d' : counts) (k : string) (v : Z) :
  is_symbol k = true -> (1 <= v)%Z ->
  raised base d d' -> raised base (add_count d k v) (add_count d' k v).
Proof.
  intros Hk Hv (Hd & Hd' & Hsame).
  repeat split; try (apply add_count_well_formed; assumption).
  intros e. rewrite !get_count_add, Hsame. lia.
Qed.

Lemma raised_below_add (base : string -> Z) (stack stack' : list counts)
  (d d' : counts) (k : string) (v : Z) :
  is_symbol k = true -> (1 <= v)%Z ->
  raised_below base stack stack' d d' ->
  raised_below base stack stack' (add_count d k v) (add_count d' k v).
Proof.
  intros Hk Hv. destruct stack, stack'; cbn [raised_below]; try tauto.
  - apply raised_add; assumption.
  - intros [H Hbelow]. split; [apply raised_add; assumption | exact Hbelow].
Qed.

Lemma raised_merge (base : string -> Z) (top top' d d' : counts) (m : Z) :
  (1 <= m)%Z -> raised (fun _ => 0%Z) d d' -> raised base top top' ->
  raised base (merge_scaled top d m) (merge_scaled top' d' m).
Proof.
  intros Hm (Hd & Hd' & Hsame) (Ht & Ht' & Htop).
  repeat split; try (apply merge_scaled_well_formed; assumption).
  intros e. rewrite !get_count_merge_scaled by (apply Hd || apply Hd').
  rewrite Hsame, Htop. lia.
Qed.

Lemma raised_below_merge (base : string -> Z) (below below' : list counts)
  (top top' d d' : counts) (m : Z) :
  (1 <= m)%Z -> raised (fun _ => 0%Z) d d' ->
  raised_below base below below' top top' ->
  raised_below base below below' (merge_scaled top d m) (merge_scaled top' d' m).
Proof.
  intros Hm Hd. destruct below, below'; cbn [raised_below]; try tauto.
  - apply raised_merge; assumption.
  - intros [H Hbelow]. split; [apply raised_merge; assumption | exact Hbelow].
Qed.

(** What the outermost accumulator has more at the start, the result has
    more at the end, when every group the text opens is closed. *)
Lemma scan_raised (base : string -> Z) (fuel : nat) :
  forall (s : string) (stack stack' : list counts) (current current' : counts),
  (String.length s <= fuel)%nat ->
  raised_below base stack stack' current current' ->
  open_groups s (List.length stack) = O ->
  raised base (scan fuel s stack current) (scan fuel s stack' current').
Proof.
  induction fuel as [|fuel IH]; intros s stack stack' current current' Hlen Hrel Hopen.
  - destruct s; simpl in Hlen; [|lia]. cbn [open_groups] in Hopen.
    destruct stack; [|discriminate]. destruct stack'; [exact Hrel | destruct Hrel].
  - destruct s as [|c s].
    { cbn [open_groups] in Hopen.
      destruct stack; [|discriminate]. destruct stack'; [exact Hrel | destruct Hrel]. }
    cbn [String.length] in Hlen. cbn [scan open_groups] in *.
    destruct (Ascii.eqb c "(") eqn:Ho.
    { apply IH; [lia | | exact Hopen].
      cbn [raised_below]. split; [|exact Hrel].
      repeat split; try apply empty_well_formed. }
    destruct (Ascii.eqb c ")") eqn:Hcl.
    { pose proof (read_number_length 0 s) as Hnum.
      pose proof (open_groups_number 0 s) as Hsame.
      pose proof (read_number_nonneg 0 s (Z.le_refl 0)) as Hm.
      destruct (read_number 0 s) as [m rest]. cbn [fst snd] in *.
      destruct stack as [|top below], stack' as [|top' below'];
        cbn [raised_below] in Hrel; try tauto.
      - apply IH; [lia | exact Hrel | rewrite Hsame; exact Hopen].
      - destruct Hrel as [Hcur Hbelow].
        apply IH; [lia | | rewrite Hsame; exact Hopen].
        apply raised_below_merge; [destruct (Z.eqb_spec m 0); lia | exact Hcur | exact Hbelow]. }
    destruct (isupper c) eqn:Hupper; [|apply IH; [lia | exact Hrel | exact Hopen]].
    pose proof (span_length islower s) as Hspan.
    pose proof (span_every islower s) as Hlows.
    pose proof (open_groups_span s) as Hsame1.
    destruct (span islower s) as [lows rest]. cbn [fst snd] in *.
    pose proof (read_number_length 0 rest) as Hnum.
    pose proof (open_groups_number 0 rest) as Hsame2.
    pose proof (read_number_nonneg 0 rest (Z.le_refl 0)) as Hn.
    destruct (read_number 0 rest) as [count_num rest']. cbn [fst snd] in *.
    apply IH; [lia | | rewrite Hsame2, Hsame1; exact Hopen].
    apply raised_below_add; [cbn [is_symbol]; rewrite Hupper, Hlows; reflexivity | | exact Hrel].
    destruct (Z.eqb_spec count_num 0); lia.
Qed.

Lemma contains_append (sep f g : string) :
  contains sep (f ++ g) = false -> contains sep f = false /\ contains sep g = false.
Proof.
  induction f as [|c f IH]; cbn [append].
  - intros H. split; [|exact H].
    destruct sep as [|a sep]; [destruct g; discriminate H | reflexivity].
  - intros H. cbn [contains] in H. apply orb_false_iff in H. destruct H as [Hhere Hlater].
    destruct (IH Hlater) as [Hf Hg]. split; [|exact Hg].
    change (contains sep (String c f))
      with (startswith sep (String c f) || contains sep f).
    rewrite Hf, orb_false_r.
    destruct (startswith sep (String c f)) eqn:Hs; [|reflexivity].
    apply (startswith_app _ _ g) in Hs. cbn [append] in Hs. congruence.
Qed.

Lemma counted_plain (formula : string) (d : counts) :
  contains middle_dot formula = false ->
  atom_count_in_formula formula = Ok d ->
  d = scan (String.length formula) formula [] [].
Proof.
  intros Hdot H. unfold atom_count_in_formula in H.
  rewrite atom_count_rec_succ, Hdot in H.
  destruct (validate_formula formula); cbn [bind] in H; congruence.
Qed.

Lemma count_plain (formula : string) :
  contains middle_dot formula = false ->
  validate_formula formula = Ok tt ->
  atom_count_in_formula formula = Ok (scan (String.length formula) formula [] []).
Proof.
  intros Hdot Hvalid. unfold atom_count_in_formula.
  rewrite atom_count_rec_succ, Hdot, Hvalid. reflexivity.
Qed.

Lemma begins_afresh_spec (s : string) :
  begins_afresh s = true ->
  match s with
  | EmptyString => True
  | String c _ => islower c = false /\ isdigit c = false
  end.
Proof.
  destruct s as [|c s]; [exact (fun _ => I)|]. cbn [begins_afresh].
  intros H. apply andb_true_iff in H. destruct H as [H1 H2].
  split; apply negb_true_iff; assumption.
Qed.

(** X16: a formula made of two pieces has the atoms of both: when a piece
    without parentheses is followed by a piece that closes every group it
    opens and does not begin with a lowercase letter or a digit, every
    element has in the whole the sum of its counts in the two pieces. *)
Theorem X16_pieces_add (f g : string) (df dg : counts) :
  flat f = true -> open_groups g 0 = O -> begins_afresh g = true ->
  contains middle_dot (f ++ g) = false ->
  atom_count_in_formula f = Ok df -> atom_count_in_formula g = Ok dg ->
  validate_formula (f ++ g) = Ok tt ->
  exists d,
    atom_count_in_formula (f ++ g) = Ok d /\
    forall e, get_count d e = (get_count df e + get_count dg e)%Z.
Proof.
  intros Hflat Hclosed Hfresh Hdot Hf Hg Hvalid.
  destruct (contains_append _ _ _ Hdot) as [Hdotf Hdotg].
  pose proof (atom_count_rec_well_formed _ _ _ Hf) as Hwf.
  apply counted_plain in Hf; [|exact Hdotf].
  apply counted_plain in Hg; [|exact Hdotg].
  rewrite (count_plain _ Hdot Hvalid). eexists. split; [reflexivity|].
  rewrite scan_flat; [|exact Hflat | apply begins_afresh_spec, Hfresh | lia].
  rewrite <- Hf.
  rewrite (scan_bound _ (String.length g)) by (rewrite ?length_append; lia).
  subst dg.
  destruct (scan_raised (get_count df) (String.length g) g [] [] [] df) as (_ & _ & H).
  - lia.
  - cbn [raised_below]. split; [apply empty_well_formed | split; [exact Hwf|]].
    intros e. unfold get_count at 3. simpl. lia.
  - exact Hclosed.
  - exact H.
Qed.

Lemma X16_pieces_add_witness :
  atom_count_in_formula "Al2(SO4)3" = Ok [("Al", 2%Z); ("S", 3%Z); ("O", 12%Z)] /\
  exists d,
    atom_count_in_formula ("Al2" ++ "(SO4)3") = Ok d /\
    forall e, get_count d e =
              (get_count [("Al", 2%Z)] e + get_count [("S", 3%Z); ("O", 12%Z)] e)%Z.
Proof.
  split; [reflexivity|].
  apply (X16_pieces_add "Al2" "(SO4)3"); reflexivity.
Defined.

(** ** Parentheses that do not match, and what the scanner passes over *)





(** X18: a closing parenthesis that closes nothing is passed over, and its
    multiplier with it: after a text without parentheses it changes no
    count and raises no error. *)
Theorem X18_unopened_group_ignored (f digits : string) (df : counts) :
  flat f = true -> every isdigit digits = true ->
  contains middle_dot f = false ->
  atom_count_in_formula f = Ok df ->
  validate_formula (f ++ ")" ++ digits) = Ok tt ->
  atom_count_in_formula (f ++ ")" ++ digits) = Ok df.
Proof.
  intros Hflat Hdigits Hdot Hf Hvalid.
  apply counted_plain in Hf; [|exact Hdot].
  assert (Hnodot : contains middle_dot (f ++ ")" ++ digits) = false).
  { apply no_dot_append; [exact Hdot | | reflexivity].
    cbn [append contains]. rewrite (every_no_dot isdigit digits eq_refl Hdigits). reflexivity. }
  rewrite (count_plain _ Hnodot Hvalid). f_equal.
  rewrite scan_flat; [|exact Hflat | split; reflexivity | lia].
  rewrite <- Hf, length_append. cbn [append String.length]. rewrite Nat.add_succ_r.
  cbn [scan]. change (Ascii.eqb ")" "(") with false. change (Ascii.eqb ")" ")") with true.
  cbn iota.
  pose proof (read_number_all 0 digits Hdigits) as Hall.
  destruct (read_number 0 digits) as [m rest]. cbn [fst snd] in *. subst rest.
  destruct (String.length f + String.length digits)%nat; reflexivity.
Qed.

Lemma X18_unopened_group_ignored_witness :
  atom_count_in_formula "OH)2" = Ok [("O", 1%Z); ("H", 1%Z)] /\
  atom_count_in_formula ("OH" ++ ")" ++ "2") = Ok [("O", 1%Z); ("H", 1%Z)].
Proof.
  split; [reflexivity|].
  apply (X18_unopened_group_ignored "OH" "2"); reflexivity.
Defined.

Lemma scan_passed_over (p f : string) (fuel : nat) :
  every passed_over p = true -> (String.length (p ++ f) <= fuel)%nat ->
  scan fuel (p ++ f) [] [] = scan (String.length f) f [] [].
Proof.
  revert fuel; induction p as [|c p IH]; intros fuel Hp Hlen.
  - apply scan_bound; [exact Hlen | cbn [append]; lia].
  - cbn [every] in Hp. apply andb_true_iff in Hp. destruct Hp as [Hc Hp].
    unfold passed_over in Hc. apply andb_true_iff in Hc. destruct Hc as [Hc Hclose].
    apply andb_true_iff in Hc. destruct Hc as [Hupper Hopen].
    apply negb_true_iff in Hupper, Hopen, Hclose.
    cbn [append String.length] in *.
    destruct fuel as [|fuel]; [lia|].
    cbn [scan]. rewrite Hopen, Hclose, Hupper. apply IH; [exact Hp | lia].
Qed.

(** X19: what stands before the first uppercase letter or parenthesis of a
    formula counts for nothing: a coefficient written before a formula, as
    in 2H2O, does not multiply its atoms. *)
Theorem X19_coefficient_not_counted (p f : string) (d : counts) :
  every passed_over p = true ->
  contains middle_dot (p ++ f) = false ->
  atom_count_in_formula f = Ok d ->
  validate_formula (p ++ f) = Ok tt ->
  atom_count_in_formula (p ++ f) = Ok d.
Proof.
  intros Hp Hdot Hf Hvalid.
  destruct (contains_append _ _ _ Hdot) as [_ Hdotf].
  apply counted_plain in Hf; [|exact Hdotf].
  rewrite (count_plain _ Hdot Hvalid). f_equal.
  rewrite scan_passed_over; [symmetry; exact Hf | exact Hp | lia].
Qed.

Lemma X19_coefficient_not_counted_witness :
  atom_count_in_formula "2H2O" = Ok [("H", 2%Z); ("O", 1%Z)] /\
  atom_count_in_formula ("2" ++ "H2O") = Ok [("H", 2%Z); ("O", 1%Z)].
Proof.
  split; [reflexivity|].
  apply (X19_coefficient_not_counted "2" "H2O"); reflexivity.
Defined.

(** ** The three separators *)

Lemma lstrip_append (s : string) (c : ascii) (t : string) :
  isspace c = false -> lstrip (s ++ String c t) = (lstrip s ++ String c t)%string.
Proof.
  intros Hc. induction s as [|a s IH]; cbn [append lstrip].
  - rewrite Hc. reflexivity.
  - destruct (isspace a); [exact IH | reflexivity].
Qed.

Lemma rstrip_nonspace (c : ascii) (s : string) :
  isspace c = false -> rstrip (String c s) = String c (rstrip s).
Proof. intros Hc. cbn [rstrip]. rewrite Hc. destruct (rstrip s); reflexivity. Qed.

Lemma rstrip_append (s t : string) :
  rstrip t <> EmptyString -> rstrip (s ++ t) = (s ++ rstrip t)%string.
Proof.
  intros Ht. induction s as [|c s IH]; cbn [append]; [reflexivity|].
  cbn [rstrip]. rewrite IH.
  destruct (s ++ rstrip t)%string as [|a r] eqn:Hr; [|reflexivity].
  destruct s; cbn [append] in Hr; [contradiction | discriminate].
Qed.

Lemma rstrip_empty (s : string) : rstrip s = EmptyString <-> lstrip s = EmptyString.
Proof.
  induction s as [|c s IH]; [tauto|].
  cbn [rstrip lstrip]. destruct (isspace c).
  - rewrite <- IH. destruct (rstrip s); split; congruence.
  - destruct (rstrip s); split; discriminate.
Qed.

(** A separator does not begin across the end of a text: when [p] does
    not begin [X], it begins [X ++ T] only if an end of [p] begins [T]. *)
Lemma startswith_straddle (p : string) :
  forall (X T : string),
  X <> EmptyString -> startswith p X = false ->
  (forall n, (0 < n < String.length p)%nat -> startswith (drop n p) T = false) ->
  startswith p (X ++ T) = false.
Proof.
  induction p as [|a p IH]; intros X T HX Hp Hends.
  - destruct X; discriminate Hp.
  - destruct X as [|b X]; [contradiction|].
    cbn [append startswith] in *.
    destruct (Ascii.eqb a b); [|reflexivity]. cbn [andb] in *.
    destruct X as [|b' X].
    + cbn [append]. destruct p as [|a' p]; [discriminate Hp|].
      apply (Hends 1%nat). cbn [String.length]. lia.
    + apply IH; [discriminate | exact Hp|].
      intros n Hn. apply (Hends (S n)). cbn [String.length]. lia.
Qed.

Lemma no_token_across (X sep R : string) :
  In sep ["->"; "→"; "="] ->
  X <> EmptyString -> token_here X = false -> token_here (X ++ sep ++ R) = false.
Proof.
  intros Hsep HX Ht. unfold token_here in *.
  apply orb_false_iff in Ht. destruct Ht as [Ht H3].
  apply orb_false_iff in Ht. destruct Ht as [H1 H2].
  assert (Hends : forall p, In p ["->"; "→"; "="] ->
            forall n, (0 < n < String.length p)%nat ->
                      startswith (drop n p) (sep ++ R) = false).
  { intros p Hp n Hn.
    destruct Hsep as [<- | [<- | [<- | []]]];
      destruct Hp as [<- | [<- | [<- | []]]];
      destruct n as [|[|[|n]]]; cbn [String.length] in Hn; try lia; reflexivity. }
  rewrite !startswith_straddle; try assumption; try reflexivity;
    apply Hends; cbn [In]; tauto.
Qed.

Lemma separator_matched (sep R : string) :
  In sep ["->"; "→"; "="] -> match_pattern (sep ++ R) = Some (lstrip R).
Proof. intros [<- | [<- | [<- | []]]]; reflexivity. Qed.

Lemma count_separators_cons (c : ascii) (s : string) :
  count_separators (String c s) = O ->
  token_here (String c s) = false /\ count_separators s = O.
Proof.
  cbn [count_separators]. fold (token_here (String c s)).
  destruct (token_here (String c s)); [discriminate | auto].
Qed.

(** At the first separator of a text the split ends the first field, with
    the white space before the separator left out, and goes on after the
    white space that follows it. *)
Lemma re_split_at_separator (sep R : string) :
  In sep ["->"; "→"; "="] ->
  forall (L : string) (fuel : nat) (field : string),
  count_separators L = O ->
  (String.length (L ++ sep ++ R) <= fuel)%nat ->
  re_split_from fuel (L ++ sep ++ R) field =
  (field ++ rstrip L)%string :: re_split_from (String.length R) (lstrip R) EmptyString.
Proof.
  intros Hsep.
  assert (Hpos : (0 < String.length sep)%nat)
    by (destruct Hsep as [<- | [<- | [<- | []]]]; cbn [String.length]; lia).
  assert (Hfirst : exists c t, sep = String c t /\ isspace c = false)
    by (destruct Hsep as [<- | [<- | [<- | []]]]; eexists; eexists; split; reflexivity).
  destruct Hfirst as (c0 & t0 & Hsep0 & Hc0).
  induction L as [|c L IH]; intros fuel field Hcount Hlen;
    rewrite !length_append in Hlen.
  - cbn [append rstrip]. rewrite append_nil.
    destruct fuel as [|fuel]; [lia|].
    cbn [re_split_from]. rewrite (separator_matched sep R Hsep). f_equal.
    apply re_split_from_bound; pose proof (lstrip_length R); lia.
  - cbn [String.length] in Hlen. destruct fuel as [|fuel]; [lia|].
    destruct (count_separators_cons c L Hcount) as [Hhere Hcount'].
    change (String c L ++ sep ++ R)%string with (String c (L ++ sep ++ R)).
    cbn [re_split_from].
    assert (Hstrip : lstrip (String c (L ++ sep ++ R)) =
                     (lstrip (String c L) ++ sep ++ R)%string).
    { rewrite Hsep0. exact (lstrip_append (String c L) c0 (t0 ++ R)%string Hc0). }
    unfold match_pattern. rewrite Hstrip.
    destruct (lstrip (String c L)) as [|x X] eqn:HX.
    + fold (match_pattern (sep ++ R)). cbn [append].
      pose proof (separator_matched sep R Hsep) as Hm. unfold match_pattern in Hm.
      assert (Hl : lstrip (sep ++ R) = (sep ++ R)%string)
        by (rewrite Hsep0; cbn [append lstrip]; rewrite Hc0; reflexivity).
      rewrite Hl in Hm. rewrite Hm.
      apply rstrip_empty in HX. rewrite HX, append_nil. f_equal.
      apply re_split_from_bound; pose proof (lstrip_length R); lia.
    + assert (Hx : token_here (String x X) = false).
      { rewrite <- HX.
        pose proof (count_separators_lstrip (String c L)) as Hc.
        rewrite Hcount, HX in Hc. rewrite HX.
        apply count_separators_cons in Hc. apply Hc. }
      pose proof (no_token_across (String x X) sep R Hsep ltac:(discriminate) Hx) as Hno.
      apply match_separator_token in Hno. rewrite Hno.
      rewrite IH; [|exact Hcount' | rewrite !length_append; lia].
      rewrite append_cons. f_equal. f_equal.
      destruct (rstrip_cons c L) as [(Hr & _ & _) | Hr]; [|symmetry; exact Hr].
      apply rstrip_empty in Hr. congruence.
Qed.

Lemma strip_around_separator (sep lhs rhs : string) :
  In sep ["->"; "→"; "="] ->
  strip (lhs ++ sep ++ rhs) = (lstrip lhs ++ sep ++ rstrip rhs)%string.
Proof.
  intros Hsep. unfold strip.
  assert (Hl : lstrip (lhs ++ sep ++ rhs) = (lstrip lhs ++ sep ++ rhs)%string)
    by (destruct Hsep as [<- | [<- | [<- | []]]]; cbn [append];
        apply lstrip_append; reflexivity).
  rewrite Hl.
  assert (Hr : rstrip (sep ++ rhs) = (sep ++ rstrip rhs)%string)
    by (destruct Hsep as [<- | [<- | [<- | []]]]; cbn [append];
        rewrite !rstrip_nonspace by reflexivity; reflexivity).
  rewrite rstrip_append; rewrite Hr; [reflexivity|].
  destruct Hsep as [<- | [<- | [<- | []]]]; discriminate.
Qed.

(** The sides the parser finds in [lhs sep rhs], whichever separator
    [sep] is. *)
Lemma re_split_sides (sep lhs rhs : string) :
  In sep ["->"; "→"; "="] -> count_separators lhs = O ->
  re_split (strip (lhs ++ sep ++ rhs)) =
  strip lhs :: re_split_from (String.length (rstrip rhs)) (lstrip (rstrip rhs)) EmptyString.
Proof.
  intros Hsep Hcount. unfold re_split. rewrite (strip_around_separator sep lhs rhs Hsep).
  rewrite (re_split_at_separator sep (rstrip rhs) Hsep).
  - reflexivity.
  - rewrite count_separators_lstrip. exact Hcount.
  - lia.
Qed.

Lemma equation_parser_sides (self : ChemEqParser) (equation equation' : string) :
  re_split (strip equation) = re_split (strip equation') ->
  equation_parser self equation = equation_parser self equation'.
Proof. intros H. unfold equation_parser. rewrite H. reflexivity. Qed.

(** X20: the three separators are interchangeable: with the same left side,
    free of separators, and the same right side, the parser and
    [get_stoic] give the same result whether ->, → or = stands between
    them. *)
Theorem X20_separators_interchangeable (lhs rhs sep sep' : string) (show_work : bool) :
  In sep ["->"; "→"; "="] -> In sep' ["->"; "→"; "="] ->
  count_separators lhs = O ->
  equation_parser new_parser (lhs ++ sep ++ rhs) =
    equation_parser new_parser (lhs ++ sep' ++ rhs) /\
  get_stoic (lhs ++ sep ++ rhs) show_work = get_stoic (lhs ++ sep' ++ rhs) show_work.
Proof.
  intros Hsep Hsep' Hcount.
  assert (H : equation_parser new_parser (lhs ++ sep ++ rhs) =
              equation_parser new_parser (lhs ++ sep' ++ rhs)).
  { apply equation_parser_sides.
    rewrite (re_split_sides sep lhs rhs Hsep Hcount).
    rewrite (re_split_sides sep' lhs rhs Hsep' Hcount). reflexivity. }
  split; [exact H|].
  unfold get_stoic, get_stoic_body. rewrite H. reflexivity.
Qed.

Lemma X20_separators_interchangeable_witness :
  get_stoic "H2 + O2 -> H2O" false = Ok (Coefficients (Some [2%Z; 1%Z; 2%Z])) /\
  equation_parser new_parser ("H2 + O2 " ++ "->" ++ " H2O") =
    equation_parser new_parser ("H2 + O2 " ++ "=" ++ " H2O") /\
  get_stoic ("H2 + O2 " ++ "->" ++ " H2O") false =
    get_stoic ("H2 + O2 " ++ "=" ++ " H2O") false.
Proof.
  split; [vm_compute; reflexivity|].
  apply (X20_separators_interchangeable "H2 + O2 " " H2O" "->" "=" false);
    [left; reflexivity | right; right; left; reflexivity | reflexivity].
Defined.

(** X21: a parser can be used again: the outcome of [equation_parser], the
    parser it leaves or the error it raises, does not depend on what the
    parser held before, every attribute being set anew. *)
Theorem X21_parser_reusable (self : ChemEqParser) (equation : string) :
  equation_parser self equation = equation_parser new_parser equation.
Proof.
  unfold equation_parser.
  destruct (re_split (strip equation)) as [|lhs [|rhs [|third sides]]]; try reflexivity.
  cbv zeta. unfold _get_atom_count. cbn [chem_species reactants products].
  destruct (count_species _ [] []) as [r|e]; reflexivity.
Qed.

(** ** Equations with more than one solution *)

Lemma basis_vector_zero (reduced : list row) (pivots : list nat) (n free_var other : nat) :
  ~ In other pivots -> other <> free_var ->
  entry (basis_vector reduced pivots n free_var) other = 0%Q.
Proof.
  intros Hfree Hother. unfold basis_vector.
  assert (Hpc : forall pc, In pc (enumerate pivots) -> snd pc <> other).
  { intros [i j] Hin Heq. simpl in Heq. subst j.
    apply Hfree. eapply in_combine_r; exact Hin. }
  assert (Hstart : entry (update (repeat 0%Q n) free_var 1%Q) other = 0%Q).
  { unfold entry. rewrite nth_update_other by congruence. apply nth_repeat. }
  revert Hpc Hstart.
  generalize (update (repeat 0%Q n) free_var 1%Q) as vec.
  induction (enumerate pivots) as [|pc pcs IH]; intros vec Hpc Hvec; simpl; [exact Hvec|].
  apply IH.
  - intros pc' Hin; apply Hpc; right; exact Hin.
  - unfold entry in *. rewrite nth_update_other; [exact Hvec|].
    apply Hpc. left; reflexivity.
Qed.

(** With a second vector in the basis, the first has a zero: the entry of
    the second free variable. *)
Lemma nullspace_first_zero (A : list row) (v1 v2 : list Q) (basis : list (list Q)) :
  nullspace A = v1 :: v2 :: basis -> In 0%Q v1.
Proof.
  unfold nullspace. destruct (rref A) as [reduced pivots].
  pose proof (NoDup_filter (fun i => negb (existsb (Nat.eqb i) pivots))
                (seq_NoDup (cols A) 0)) as Hnd.
  assert (Hin : forall i,
            In i (filter (fun i => negb (existsb (Nat.eqb i) pivots)) (seq 0 (cols A))) ->
            (i < cols A)%nat /\ ~ In i pivots).
  { intros i Hi. apply filter_In in Hi. destruct Hi as [Hseq Hnot].
    apply in_seq in Hseq. split; [lia|].
    intros Hp. apply negb_true_iff in Hnot.
    assert (Hex : existsb (Nat.eqb i) pivots = true)
      by (apply existsb_exists; exists i; split; [exact Hp | apply Nat.eqb_refl]).
    congruence. }
  destruct (filter _ (seq 0 (cols A))) as [|f1 [|f2 free_vars]]; try discriminate.
  cbn [map]. intros [= <- _ _].
  destruct (Hin f2 ltac:(right; left; reflexivity)) as [Hlt Hfree].
  assert (Hne : f2 <> f1).
  { inversion Hnd as [|? ? Hnotin _]; subst. intros ->. apply Hnotin. left; reflexivity. }
  rewrite <- (basis_vector_zero reduced pivots (cols A) f1 f2 Hfree Hne).
  unfold entry. apply nth_In. rewrite basis_vector_length. exact Hlt.
Qed.

Lemma zero_entry_scaled (L : Z) (vec : list Q) (ints : list Z) :
  Forall2 (fun v z => inject_Z z == v * inject_Z L) vec ints ->
  In 0%Q vec -> forallb (fun z => negb (z =? 0)%Z) ints = false.
Proof.
  induction 1 as [|v z vec ints Hvz _ IH]; cbn [In forallb]; [tauto|].
  intros [-> | Hin].
  - unfold Qeq in Hvz. cbn in Hvz. assert (z = 0%Z) as -> by lia. reflexivity.
  - rewrite (IH Hin). apply andb_false_r.
Qed.

(** X22: with more than one vector in the basis of the null space, that is
    when the equation can be balanced in several independent ways,
    [get_stoic] gives no coefficients: it takes the first vector only, and
    that one has a zero for the free variable of the second. *)
Theorem X22_several_solutions_none (equation : string) (final : option (list Z))
  (data : matrix_data) (vec simplified_vec : option (list Q)) (multiplier : option Z)
  (raw_coeffs : option (list Q)) :
  get_stoic equation true =
    Ok (Work final (Some data) vec simplified_vec multiplier raw_coeffs) ->
  (2 <= List.length (nullspace (Matrix (matrix data))))%nat ->
  final = None /\ get_stoic equation false = Ok (Coefficients None).
Proof.
  intros Hrun Hmany.
  destruct (get_stoic_runs equation)
    as [(e & _ & _ & Ht)|(p & d & _ & _ & [(Hnone & _ & Ht)|Hvec])].
  - rewrite Ht in Hrun. discriminate.
  - rewrite Ht in Hrun. injection Hrun as <- <- <- <- <- <-.
    rewrite Hnone in Hmany. simpl in Hmany. lia.
  - destruct Hvec as (v1 & basis & ints & Hbasis & Hvalues & Hf & Ht). cbv zeta in Hf, Ht.
    rewrite Ht in Hrun. injection Hrun as <- <- <- <- <- <-.
    rewrite Hbasis in Hmany. destruct basis as [|v2 basis]; [simpl in Hmany; lia|].
    pose proof (nullspace_first_zero _ _ _ _ Hbasis) as Hzero.
    pose proof (zero_entry_scaled _ _ _ Hvalues Hzero) as Hints.
    rewrite Hf, final_coefficients_absolute, Hints. split; reflexivity.
Qed.

Lemma X22_several_solutions_none_witness :
  get_stoic "CO + CO2 + H2 -> CH4 + H2O" true =
    Ok (Work None
          (Some {| matrix := [[1; 1; 0; -1; 0]; [1; 2; 0; 0; -1]; [0; 0; 2; -4; -2]]%Z;
                   elements := ["C"; "O"; "H"];
                   species := ["CO"; "CO2"; "H2"; "CH4"; "H2O"] |})
          (Some [2; -1; 2; 1; 0]%Q) (Some [2; -1; 2; 1; 0]%Q)
          (Some 1%Z) (Some [2; -1; 2; 1; 0]%Q)) /\
  @None (list Z) = None /\
  get_stoic "CO + CO2 + H2 -> CH4 + H2O" false = Ok (Coefficients None).
Proof.
  assert (H : get_stoic "CO + CO2 + H2 -> CH4 + H2O" true =
    Ok (Work None
          (Some {| matrix := [[1; 1; 0; -1; 0]; [1; 2; 0; 0; -1]; [0; 0; 2; -4; -2]]%Z;
                   elements := ["C"; "O"; "H"];
                   species := ["CO"; "CO2"; "H2"; "CH4"; "H2O"] |})
          (Some [2; -1; 2; 1; 0]%Q) (Some [2; -1; 2; 1; 0]%Q)
          (Some 1%Z) (Some [2; -1; 2; 1; 0]%Q)))
    by (vm_compute; reflexivity).
  split; [exact H|].
  apply (X22_several_solutions_none _ _ _ _ _ _ _ H).
  vm_compute. lia.
Defined.

(** ** An element read again *)

Lemma every_append (p : ascii -> bool) (s t : string) :
  every p (s ++ t) = every p s && every p t.
Proof.
  induction s as [|c s IH]; cbn [append every]; [reflexivity|].
  rewrite IH. apply andb_assoc.
Qed.

Lemma every_weaken (p q : ascii -> bool) (s : string) :
  (forall c, p c = true -> q c = true) -> every p s = true -> every q s = true.
Proof.
  intros Hpq. induction s as [|c s IH]; cbn [every]; [reflexivity|].
  intros H. apply andb_true_iff in H. destruct H as [Hc Hs].
  rewrite (Hpq c Hc), (IH Hs). reflexivity.
Qed.

Lemma span_all (p : ascii -> bool) (s : string) :
  every p s = true -> span p s = (s, EmptyString).
Proof.
  induction s as [|c s IH]; cbn [every span]; [reflexivity|].
  intros H. apply andb_true_iff in H. destruct H as [-> Hs].
  rewrite (IH Hs). reflexivity.
Qed.

Lemma upper_begins_afresh (c : ascii) :
  isupper c = true -> islower c = false /\ isdigit c = false.
Proof.
  unfold isupper, islower, isdigit. intros H.
  apply andb_true_iff in H. destruct H as [H1 H2].
  apply Nat.leb_le in H1, H2. split; apply andb_false_iff.
  - left. apply Nat.leb_gt. lia.
  - right. apply Nat.leb_gt. lia.
Qed.

Lemma digit_not_lower (c : ascii) : isdigit c = true -> islower c = false.
Proof.
  unfold islower, isdigit. intros H.
  apply andb_true_iff in H. destruct H as [H1 H2].
  apply Nat.leb_le in H1, H2. apply andb_false_iff.
  left. apply Nat.leb_gt. lia.
Qed.

Lemma add_count_present (d : counts) (k : string) (v : Z) :
  In k (keys d) -> keys (add_count d k v) = keys d.
Proof.
  induction d as [|[k' v'] d IH]; cbn [keys map fst In add_count]; [tauto|].
  intros Hin. destruct (String.eqb_spec k' k) as [->|Hne]; [reflexivity|].
  cbn [map fst]. f_equal. apply IH. destruct Hin; [contradiction | assumption].
Qed.

(** X2: an element that is read again gets its number added to the count
    it has, under the key it has: the counter makes no second entry for it.
    In a text of ASCII characters, after a formula without parentheses, a
    symbol that the formula already has, followed by digits, changes the
    count of that element only, by the number the digits spell, or by one
    when they spell zero or there are none. *)
Theorem X2_repeated_element_added (f k digits : string) (df : counts) :
  plain_text (f ++ k ++ digits) = true ->
  flat f = true -> contains middle_dot f = false ->
  is_symbol k = true -> every isdigit digits = true ->
  atom_count_in_formula f = Ok df -> In k (keys df) ->
  validate_formula (f ++ k ++ digits) = Ok tt ->
  exists d,
    atom_count_in_formula (f ++ k ++ digits) = Ok d /\
    keys d = keys df /\
    forall e, get_count d e =
              (get_count df e + (if String.eqb k e then multiplier_of digits else 0))%Z.
Proof.
  intros _ Hflat Hdot Hk Hdigits Hf Hin Hvalid.
  apply counted_plain in Hf; [|exact Hdot].
  destruct k as [|c lows]; [discriminate Hk|].
  cbn [is_symbol] in Hk. apply andb_true_iff in Hk. destruct Hk as [Hupper Hlows].
  destruct (upper_begins_afresh c Hupper) as [Hnl Hnd].
  destruct (upper_no_parenthesis c Hupper) as [Hopen Hclose].
  assert (Hnodot : contains middle_dot (f ++ String c lows ++ digits) = false).
  { apply no_dot_append; [exact Hdot | |].
    - apply (every_no_dot (fun a => isupper a || islower a || isdigit a)); [reflexivity|].
      change (String c lows ++ digits)%string with (String c (lows ++ digits)).
      cbn [every]. rewrite Hupper, every_append. cbn [orb andb].
      rewrite (every_weaken islower _ lows), (every_weaken isdigit _ digits);
        [reflexivity | | exact Hdigits | | exact Hlows].
      + intros a ->. apply orb_true_r.
      + intros a ->. rewrite orb_true_r. reflexivity.
    - cbn [append startswith]. destruct (Ascii.eqb_spec "183" c) as [<-|_];
        [discriminate Hupper | reflexivity]. }
  rewrite (count_plain _ Hnodot Hvalid).
  rewrite scan_flat; [|exact Hflat | cbn [append]; split; assumption | lia].
  rewrite <- Hf, length_append.
  change (String c lows ++ digits)%string with (String c (lows ++ digits)).
  cbn [String.length]. rewrite Nat.add_succ_r. cbn [scan]. rewrite Hopen, Hclose, Hupper.
  rewrite (span_append islower lows digits), (span_all islower lows Hlows).
  2:{ destruct digits as [|a digits]; [exact I|]. cbn [every] in Hdigits.
      apply andb_true_iff in Hdigits. apply digit_not_lower, Hdigits. }
  cbn [fst snd append].
  pose proof (read_number_all 0 digits Hdigits) as Hall. unfold multiplier_of.
  destruct (read_number 0 digits) as [m rest]. cbn [fst snd] in *. subst rest.
  exists (add_count df (String c lows) (if (m =? 0)%Z then 1%Z else m)).
  split; [destruct (String.length f + _)%nat; reflexivity|].
  split; [apply add_count_present, Hin | intros e; apply get_count_add].
Qed.

Lemma X2_repeated_element_added_witness :
  atom_count_in_formula "CH3COO" = Ok [("C", 2%Z); ("H", 3%Z); ("O", 2%Z)] /\
  atom_count_in_formula "CH3COOH" = Ok [("C", 2%Z); ("H", 4%Z); ("O", 2%Z)] /\
  exists d,
    atom_count_in_formula ("CH3COO" ++ "H" ++ "") = Ok d /\
    keys d = keys [("C", 2%Z); ("H", 3%Z); ("O", 2%Z)] /\
    forall e, get_count d e =
              (get_count [("C", 2%Z); ("H", 3%Z); ("O", 2%Z)] e +
               (if String.eqb "H" e then multiplier_of "" else 0))%Z.
Proof.
  split; [reflexivity|]. split; [reflexivity|].
  apply (X2_repeated_element_added "CH3COO" "H" "");
    try reflexivity.
  right; left; reflexivity.
Defined.
